(** * NeonLadder package automation scripts: a shallow embedding

    The development follows [Scripts/download_unity_packages.py] and
    [Scripts/sync_unity_packages.py], and of
    [Scripts/export_unity_packages.py] the configuration loader it
    shares with the sync script, the discovery and the placeholder
    uploader.

    Conventions of the embedding.
    - A Python [str] and a Python [bytes] value are both a [list ascii]
      (one [ascii] per code point below 256, respectively per byte).
    - The file system, the network, the [curl] process and the [gdrive]
      process are explicit: files live in finite maps keyed by their
      path, and what the outside world answers is a function of the
      world at the time of the call.
    - A Python function that mutates [self] or the disk takes the world
      and returns the new world next to its result; [None] is [None].
    - An exception that leaves a function is a constructor of its result. *)

From Stdlib Require Import Ascii String ZArith QArith Lia Lqa Sorted.
From stdpp Require Import gmap strings list.

Set Default Proof Using "Type".
Open Scope list_scope.

(** ** Text *)

Abbreviation text := (list ascii).

Definition txt (s : string) : text := list_ascii_of_string s.
Arguments txt _%_string : simpl never.

Module Text.

(** [s.startswith(p)], returning what follows the prefix. *)
Fixpoint strip_prefix (p s : text) : option text :=
  match p, s with
  | [], _ => Some s
  | _ :: _, [] => None
  | a :: p', b :: s' => if Ascii.eqb a b then strip_prefix p' s' else None
  end.

(** The longest prefix of [s] whose characters all satisfy [cls]. *)
Fixpoint take_while (cls : ascii -> bool) (s : text) : text :=
  match s with
  | [] => []
  | c :: s' => if cls c then c :: take_while cls s' else []
  end.

(** Python's [sub in s] on [str] and on [bytes]. *)
Fixpoint contains (sub s : text) : bool :=
  match strip_prefix sub s with
  | Some _ => true
  | None => match s with [] => false | _ :: s' => contains sub s' end
  end.

Definition in_range (lo hi c : ascii) : bool :=
  (N_of_ascii lo <=? N_of_ascii c)%N && (N_of_ascii c <=? N_of_ascii hi)%N.

(** [bytes.lower()]: only the ASCII letters A-Z change. *)
Definition lower_char (c : ascii) : ascii :=
  if in_range "A" "Z" c then ascii_of_N (N_of_ascii c + 32) else c.

Definition lower (s : text) : text := map lower_char s.

(** What follows the first occurrence of [sep] in [s]: the tail of
    [s.split(sep)] joined again, [None] when [sep] does not occur. *)
Fixpoint after_first (sep s : text) : option text :=
  match strip_prefix sep s with
  | Some rest => Some rest
  | None => match s with [] => None | _ :: s' => after_first sep s' end
  end.

(** [sep.join(parts)]. *)
Fixpoint join (sep : text) (parts : list text) : text :=
  match parts with
  | [] => []
  | [p] => p
  | p :: ps => p ++ sep ++ join sep ps
  end.

(** [s.replace(a, b)] for a single character [a]. *)
Definition replace_char (a b : ascii) (s : text) : text :=
  map (fun c => if Ascii.eqb c a then b else c) s.

End Text.

(** ** Regular expressions of the scripts

    Every pattern of the scripts is a literal followed by one character
    class under [+], the class being the only group (or the whole match
    being used).  [re.search] returns the leftmost match and [+] is
    greedy, so nothing following the class, the group is the longest run. *)

Module Re.

(** [[a-zA-Z0-9_-]] *)
Definition idchar (c : ascii) : bool :=
  Text.in_range "a" "z" c || Text.in_range "A" "Z" c
  || Text.in_range "0" "9" c || Ascii.eqb c "_" || Ascii.eqb c "-".

(** [\s] on [str]: the characters below 256 for which
    [Py_UNICODE_ISSPACE] holds. *)
Definition space (c : ascii) : bool :=
  let n := N_of_ascii c in
  ((9 <=? n) && (n <=? 13) || (28 <=? n) && (n <=? 32)
   || (n =? 133) || (n =? 160))%N.

(** [[^\s]] *)
Definition nonspace (c : ascii) : bool := negb (space c).

(** A match of [lit(cls+)] that starts at the head of [s]: the group. *)
Definition match_here (lit : text) (cls : ascii -> bool) (s : text)
  : option text :=
  match Text.strip_prefix lit s with
  | Some rest =>
      match Text.take_while cls rest with
      | [] => None
      | g => Some g
      end
  | None => None
  end.

(** [re.search(lit(cls+), s)]: the group of the leftmost match. *)
Fixpoint search (lit : text) (cls : ascii -> bool) (s : text)
  : option text :=
  match match_here lit cls s with
  | Some g => Some g
  | None => match s with [] => None | _ :: s' => search lit cls s' end
  end.

End Re.

(** ** [GoogleDriveDownloader.extract_file_id] *)

Definition patterns : list text :=
  [ txt "/file/d/";   (* Standard format *)
    txt "id=";        (* Old format *)
    txt "/open?id=" ] (* Open format *).

(** The loop [for pattern in patterns: ... return match.group(1)]. *)
Fixpoint first_match (ps : list text) (url : text) : option text :=
  match ps with
  | [] => None
  | p :: ps' =>
      match Re.search p Re.idchar url with
      | Some g => Some g
      | None => first_match ps' url
      end
  end.

Definition extract_file_id (url : text) : option text :=
  first_match patterns url.

(** [get_direct_download_url] *)
Definition get_direct_download_url (file_id : text) : text :=
  txt "https://drive.google.com/uc?export=download&id=" ++ file_id.

(** ** Paths

    A path is the tuple [Path.parts]: for an absolute POSIX path the
    anchor ["/"] followed by the components. *)

Abbreviation path := (list text).

Module Path.

Definition anchor : text := txt "/".

(** [str(p)] *)
Definition str (p : path) : text :=
  match p with
  | a :: rest =>
      if decide (a = anchor) then anchor ++ Text.join (txt "/") rest
      else Text.join (txt "/") p
  | [] => txt "."
  end.

(** [p / name] for a relative, single-component [name]. *)
Definition child (p : path) (name : text) : path := p ++ [name].

(** [p.name]: the final component, empty for the bare anchor. *)
Definition name (p : path) : text :=
  match p with
  | [a] => if decide (a = anchor) then [] else a
  | _ => List.last p []
  end.

(** [p.parent] *)
Definition parent (p : path) : path :=
  match p with
  | [a] => if decide (a = anchor) then p else []
  | _ => removelast p
  end.

(** [tuple.index(x)]: [None] stands for [ValueError]. *)
Fixpoint index (x : text) (parts : path) : option nat :=
  match parts with
  | [] => None
  | y :: ys => if decide (y = x) then Some 0 else S <$> index x ys
  end.

(** [p] lies under [root] (or is [root]). *)
Definition under (root p : path) : bool := bool_decide (root `prefix_of` p).

End Path.

(** ** The downloader and its world *)

Inductive level := INFO | WARNING | ERROR.

(** The log calls of the two classes of [download_unity_packages.py]. *)
Inductive message :=
  | CouldNotExtractFileId (url : text)
  | FileAlreadyExists (output_file : path)
  | DownloadingFromDrive (output_name : text)
  | FileId (file_id : text)
  | FileTooLarge (size_bytes : nat) (max_size_gb : Q)
  | Downloaded (output_file : path) (size_bytes : nat)
  | FileNotFound404 (url : text)
  | HTTPErrorCode (code : Z)
  | DownloadFailed
  | DownloadingWithCurl (output_name : text)
  | CurlDownloadFailed (stderr : text)
  | CurlNotFound
  | CurlDownloadError
  | ErrorReading (txt_file : path)
  | Processing (name : text)
  | From (relative_path : text).

(** A GET request: the URL and the [User-Agent] header added to it. *)
Record request := Request { req_url : text; req_user_agent : text }.

(** What [urllib.request.urlopen(request)] followed by [response.read()]
    gives: the body, [urllib.error.HTTPError] with its code, or any other
    exception. *)
Inductive response :=
  | Body (content : text)
  | HTTPError (code : Z)
  | OtherError.

(** What [subprocess.run(cmd, capture_output=True, text=True)] gives for
    the curl command: the process ran ([written] is the destination file
    it left behind, if any), the executable is missing
    ([FileNotFoundError]), or another exception was raised. *)
Inductive curl_outcome :=
  | CurlExit (returncode : Z) (stderr : text) (written : option text)
  | CurlMissing
  | CurlRaised.

(** [GoogleDriveDownloader] ([download_path], [session_files]) together
    with the disk, the requests and processes issued so far and the log. *)
Record world := World {
  download_path : path;
  session_files : list path;
  files : gmap path text;
  requests : list request;
  curl_runs : list (list text);
  log : list (level * message)
}.

Definition logged (l : level) (m : message) (w : world) : world :=
  World (download_path w) (session_files w) (files w) (requests w)
        (curl_runs w) (log w ++ [(l, m)]).

Definition requested (r : request) (w : world) : world :=
  World (download_path w) (session_files w) (files w) (requests w ++ [r])
        (curl_runs w) (log w).

Definition ran (cmd : list text) (w : world) : world :=
  World (download_path w) (session_files w) (files w) (requests w)
        (curl_runs w ++ [cmd]) (log w).

Definition with_files (fs : gmap path text) (w : world) : world :=
  World (download_path w) (session_files w) fs (requests w)
        (curl_runs w) (log w).

Definition session_append (p : path) (w : world) : world :=
  World (download_path w) (session_files w ++ [p]) (files w) (requests w)
        (curl_runs w) (log w).

(** [output_file.exists()] *)
Definition file_exists (w : world) (p : path) : bool :=
  bool_decide (is_Some (files w !! p)).

Definition user_agent_full : text :=
  txt "Mozilla/5.0 (Windows NT 10.0; Win64; x64) AppleWebKit/537.36".

Definition user_agent_short : text := txt "Mozilla/5.0".

(** [len(content) / (1024 * 1024)] and [max_size_gb * 1024].  The floats
    of the source are rationals here: dividing an integer below 2^53 by
    2^20 and multiplying a finite double by 2^10 are exact in binary64. *)
Definition file_size_mb (content : text) : Q :=
  inject_Z (Z.of_nat (length content)) / inject_Z (1024 * 1024).

Definition max_size_mb (max_size_gb : Q) : Q := max_size_gb * inject_Z 1024.

(** [file_size_mb > max_size_mb] *)
Definition too_large (content : text) (max_size_gb : Q) : bool :=
  negb (Qle_bool (file_size_mb content) (max_size_mb max_size_gb)).

Section Downloader.

(** The remote host: the answer to a request may depend on everything
    that happened before. *)
Variable urlopen : world -> request -> response.

(** The curl executable, and [platform.system()]. *)
Variable curl : world -> list text -> curl_outcome.
Variable platform_system : text.

(** Lines 78-97 of [download_file]: the first request, the sniffing of
    the virus scan warning and the confirmed request.  The result is
    the [content] the size check sees, or the exception raised. *)
Definition fetch_content (w : world) (direct_url : text)
  : response * world :=
  let request := Request direct_url user_agent_full in
  let w1 := requested request w in
  match urlopen w request with
  | Body content =>
      if Text.contains (txt "confirm=") content
         || Text.contains (txt "virus scan warning") (Text.lower content)
      then
        match Re.search (txt "confirm=") Re.idchar content with
        | Some confirm_token =>
            let confirmed_url :=
              direct_url ++ txt "&confirm=" ++ confirm_token in
            let request2 := Request confirmed_url user_agent_short in
            (urlopen w1 request2, requested request2 w1)
        | None => (Body content, w1)
        end
      else (Body content, w1)
  | failure => (failure, w1)
  end.

Definition download_file (w : world) (url output_name : text)
    (max_size_gb : Q) : option path * world :=
  match extract_file_id url with
  | None | Some [] =>
      (None, logged ERROR (CouldNotExtractFileId url) w)
  | Some file_id =>
      let output_file := Path.child (download_path w) output_name in
      (* Skip if already downloaded *)
      if file_exists w output_file then
        (Some output_file, logged INFO (FileAlreadyExists output_file) w)
      else
        let direct_url := get_direct_download_url file_id in
        let w := logged INFO (DownloadingFromDrive output_name) w in
        let w := logged INFO (FileId file_id) w in
        match fetch_content w direct_url with
        | (Body content, w) =>
            (* Check file size *)
            if too_large content max_size_gb then
              (None,
               logged ERROR (FileTooLarge (length content) max_size_gb) w)
            else
              (* Save the file *)
              let w := with_files (<[output_file := content]> (files w)) w in
              let w :=
                logged INFO (Downloaded output_file (length content)) w in
              (Some output_file, session_append output_file w)
        | (HTTPError code, w) =>
            if (code =? 404)%Z then
              (None, logged ERROR (FileNotFound404 url) w)
            else (None, logged ERROR (HTTPErrorCode code) w)
        | (OtherError, w) => (None, logged ERROR DownloadFailed w)
        end
  end.

Definition curl_cmd : text :=
  if decide (platform_system = txt "Windows") then txt "curl.exe"
  else txt "curl".

(** Build curl command for Google Drive download *)
Definition curl_command (output_file : path) (file_id : text) : list text :=
  [ curl_cmd;
    txt "-L";  (* Follow redirects *)
    txt "-o"; Path.str output_file;
    txt "-H"; txt "User-Agent: Mozilla/5.0";
    txt "https://drive.google.com/uc?export=download&id=" ++ file_id ].

Definition download_with_curl (w : world) (url output_name : text)
  : option path * world :=
  match extract_file_id url with
  | None | Some [] => (None, w)
  | Some file_id =>
      let output_file := Path.child (download_path w) output_name in
      if file_exists w output_file then
        (Some output_file, logged INFO (FileAlreadyExists output_file) w)
      else
        let cmd := curl_command output_file file_id in
        let w := logged INFO (DownloadingWithCurl output_name) w in
        match curl w cmd with
        | CurlExit returncode stderr written =>
            let w := ran cmd w in
            let w :=
              match written with
              | Some content =>
                  with_files (<[output_file := content]> (files w)) w
              | None => w
              end in
            match (returncode =? 0)%Z, files w !! output_file with
            | true, Some content =>
                let w :=
                  logged INFO (Downloaded output_file (length content)) w in
                (Some output_file, session_append output_file w)
            | _, on_disk =>
                let w := logged ERROR (CurlDownloadFailed stderr) w in
                match on_disk with
                | Some _ =>
                    (None, with_files (delete output_file (files w)) w)
                | None => (None, w)
                end
            end
        | CurlMissing =>
            let w := logged WARNING CurlNotFound w in
            download_file w url output_name 5
        | CurlRaised => (None, logged ERROR CurlDownloadError w)
        end
  end.

End Downloader.

(** ** The project tree and the two discoveries

    [disk] maps the path of every file of the project to what reading it
    as text gives: [Some content], or [None] when [open]/[read] raises
    (permissions, an encoding error). *)

Abbreviation disk := (gmap path (option text)).

Definition pointer_name : text := txt "DownloadInstructions.txt".
Definition vendor : text := txt "LeartesStudios".
Definition drive_pattern : text := txt "https://drive.google.com/".

(** [matches[0]] of [re.findall(drive_pattern + '[^\s]+', content)], and
    [None] when [matches] is empty: the leftmost match, whole. *)
Definition first_drive_link (content : text) : option text :=
  (fun g => drive_pattern ++ g) <$> Re.search drive_pattern Re.nonspace content.

(** The naming block shared by [find_download_instructions] (lines
    205-214) and [find_packages_to_sync] (lines 86-97); [None] is the
    [ValueError] of [parts.index]. *)
Definition package_name (txt_file : path) : option text :=
  if Text.contains vendor (Path.str txt_file) then
    (* Handle LeartesStudios nested structure *)
    let parts := txt_file in
    match Path.index vendor parts with
    | None => None
    | Some leartes_idx =>
        if (leartes_idx + 1 <? length parts - 1)%nat then (* Has subdirectory *)
          Some (vendor ++ txt "/" ++ nth (leartes_idx + 1) parts [])
        else Some vendor
    end
  else Some (Path.name (Path.parent txt_file)).

(** [package_path] of [find_packages_to_sync]. *)
Definition package_path (txt_file : path) : option path :=
  if Text.contains vendor (Path.str txt_file) then
    let parts := txt_file in
    match Path.index vendor parts with
    | None => None
    | Some leartes_idx =>
        if (leartes_idx + 1 <? length parts - 1)%nat then
          Some (take (leartes_idx + 2) parts)
        else Some (take (leartes_idx + 1) parts)
    end
  else Some (Path.parent txt_file).

(** An entry of [find_download_instructions]. *)
Record instruction := Instruction {
  i_name : text;
  i_path : text;
  i_url : text;
  i_relative_path : text
}.

(** An entry of [find_packages_to_sync]. *)
Record package := Package {
  p_name : text;
  p_path : path;
  p_instructions_file : path;
  p_has_link : bool
}.

Section Project.

Variable project_path : path.

Definition packages_path : path := project_path ++ [txt "Assets"; txt "Packages"].
Definition audio_path : path := project_path ++ [txt "Assets"; txt "Audio"].

(** Check both Packages and Audio directories *)
Definition search_paths : list path := [packages_path; audio_path].

(** [search_path.exists()]: a directory is on the disk when a file lies
    under it (an empty directory yields nothing either way). *)
Definition dir_exists (d : disk) (p : path) : bool :=
  existsb (Path.under p) (map_to_list d).*1.

(** [search_path.rglob(name)]: the files called [name] below
    [search_path], in the order of the disk. *)
Definition rglob (d : disk) (search_path : path) (name : text) : list path :=
  filter (fun p => Path.under search_path p = true
                   /\ last p = Some name
                   /\ (length search_path < length p)%nat)
         (map_to_list d).*1.

(** [txt_file.relative_to(self.project_path)], for a path that [rglob]
    returned below the project. *)
Definition relative_to_project (p : path) : path := drop (length project_path) p.

(** The body of the inner loop of [find_download_instructions]: the
    entries appended and the warnings logged for one [txt_file]. *)
Definition instruction_of (d : disk) (txt_file : path)
  : list instruction * list (level * message) :=
  match d !! txt_file with
  | Some (Some content) =>
      (* Look for Google Drive links *)
      match first_drive_link content with
      | Some url =>
          (* Determine package name based on hierarchy *)
          match package_name txt_file with
          | Some name =>
              ([Instruction name (Path.str txt_file) url
                  (Path.str (relative_to_project txt_file))], [])
          | None => ([], [(WARNING, ErrorReading txt_file)])
          end
      | None => ([], [])
      end
  | _ => ([], [(WARNING, ErrorReading txt_file)])
  end.

Definition find_download_instructions (d : disk)
  : list instruction * list (level * message) :=
  let found :=
    flat_map (fun search_path =>
                if dir_exists d search_path
                then map (instruction_of d) (rglob d search_path pointer_name)
                else [])
             search_paths in
  (flat_map fst found, flat_map snd found).

(** [_has_drive_link] *)
Definition _has_drive_link (d : disk) (txt_file : path) : bool :=
  match d !! txt_file with
  | Some (Some content) => Text.contains (txt "drive.google.com") content
  | _ => false
  end.

(** The body of the inner loop of [find_packages_to_sync]; [None] is
    the [ValueError] of [parts.index], which nothing catches. *)
Definition package_of (d : disk) (txt_file : path) : option package :=
  name ← package_name txt_file;
  path ← package_path txt_file;
  Some (Package name path txt_file (_has_drive_link d txt_file)).

(** [find_packages_to_sync]; [None] when the exception leaves it. *)
Definition find_packages_to_sync (d : disk) : option (list package) :=
  mapM (package_of d)
       (flat_map (fun search_path =>
                    if dir_exists d search_path
                    then rglob d search_path pointer_name
                    else [])
                 search_paths).

End Project.

(** ** The configuration document

    [json.load] yields a Python value.  Number literals are integers in
    this embedding. *)

#[local] Set Warnings "-register-all".

Inductive json :=
  | JNull
  | JBool (b : bool)
  | JInt (n : Z)
  | JStr (s : text)
  | JArr (items : list json)
  | JObj (members : list (text * json)).

(** The keys a Python [dict] can hold among these values ([True == 1] and
    [False == 0] are the same key as the integer). *)
Inductive key :=
  | KStr (s : text)
  | KInt (n : Z)
  | KNone.

Global Instance key_eq_dec : EqDecision key.
Proof. solve_decision. Defined.

(** A [dict], in insertion order. *)
Abbreviation pydict := (list (key * json)).

Inductive exn := TypeError | ValueError | IndexError | KeyError | OSError.

Inductive result (A : Type) :=
  | Ok (a : A)
  | Raise (e : exn).
Arguments Ok {A} a.
Arguments Raise {A} e.

Module Dict.

(** [d[k]], [None] standing for [KeyError]. *)
Fixpoint get (k : key) (d : pydict) : option json :=
  match d with
  | [] => None
  | (k', v) :: d' => if decide (k' = k) then Some v else get k d'
  end.

(** [d[k] = v]: an existing key keeps its place. *)
Fixpoint set (k : key) (v : json) (d : pydict) : pydict :=
  match d with
  | [] => [(k, v)]
  | (k', v') :: d' =>
      if decide (k' = k) then (k', v) :: d' else (k', v') :: set k v d'
  end.

(** [hash(x)] succeeds: the key [x] stands for. *)
Definition key_of (x : json) : option key :=
  match x with
  | JNull => Some KNone
  | JBool b => Some (KInt (if b then 1 else 0))
  | JInt n => Some (KInt n)
  | JStr s => Some (KStr s)
  | JArr _ | JObj _ => None
  end.

(** One element of the sequence given to [dict.update]: it must
    iterate to exactly two values, the first one hashable. *)
Definition pair_of (item : json) : result (key * json) :=
  match item with
  | JArr [k; v] =>
      match key_of k with
      | Some k => Ok (k, v)
      | None => Raise TypeError
      end
  | JArr _ => Raise ValueError
  | JStr [a; b] => Ok (KStr [a], JStr [b])
  | JStr _ => Raise ValueError
  | JObj [(k1, _); (k2, _)] => Ok (KStr k1, JStr k2)
  | JObj _ => Raise ValueError
  | JNull | JBool _ | JInt _ => Raise TypeError
  end.

Fixpoint update_pairs (d : pydict) (items : list json) : result pydict :=
  match items with
  | [] => Ok d
  | item :: items' =>
      match pair_of item with
      | Ok (k, v) => update_pairs (set k v d) items'
      | Raise e => Raise e
      end
  end.

(** [d.update(other)] *)
Definition update (d : pydict) (other : json) : result pydict :=
  match other with
  | JObj members =>
      Ok (fold_left (fun d '(k, v) => set (KStr k) v d) members d)
  | JArr items => update_pairs d items
  | JStr [] => Ok d
  | JStr _ => Raise ValueError
  | JNull | JBool _ | JInt _ => Raise TypeError
  end.

End Dict.

(** The configuration file as [_load_config] meets it. *)
Inductive config_source :=
  | Absent                 (* [config_file.exists()] is false *)
  | Unreadable             (* [open] raises [OSError] *)
  | Undecodable            (* [json.load] raises [JSONDecodeError] *)
  | Document (v : json).   (* [json.load] returns [v] *)

Inductive config_warning := InvalidConfigFile.

(** [_load_config] of both classes, over its [default_config]. *)
Definition load_config (default_config : pydict) (config_file : config_source)
  : result pydict * list config_warning :=
  match config_file with
  | Absent => (Ok default_config, [])
  | Unreadable => (Raise OSError, [])
  | Undecodable => (Ok default_config, [InvalidConfigFile])
  | Document loaded_config => (Dict.update default_config loaded_config, [])
  end.

Module Sync.

Definition default_config : pydict :=
  [ (KStr (txt "google_drive_folder"), JStr (txt "NeonLadder_Packages"));
    (KStr (txt "last_sync"), JNull);
    (KStr (txt "package_mappings"), JObj []);
    (KStr (txt "auto_update_instructions"), JBool true) ].

Definition _load_config := load_config default_config.

End Sync.

Module Exporter.

Definition default_config : pydict :=
  [ (KStr (txt "packages_to_export"), JArr []);
    (KStr (txt "exclude_patterns"),
     JArr (map (fun s => JStr (txt s))
             ["*.meta"; ".git"; "__pycache__"; "*.pyc"; ".DS_Store";
              "Thumbs.db"]%string));
    (KStr (txt "google_drive_folder_id"), JNull);
    (KStr (txt "last_export"), JNull) ].

Definition _load_config := load_config default_config.

End Exporter.

(** ** [UnityPackageSync.sync_package] *)

Inductive sync_message :=
  | Syncing (name : text)
  | AlreadyHasLink
  | CreatingPlaceholder (name : text)
  | NoExportFound (name : text)
  | Updated (relative_path : text).

(** [UnityPackageSync] ([config]) with the disk, the uploads made and the
    log. *)
Record sync_world := SyncWorld {
  s_disk : disk;
  s_config : pydict;
  s_uploads : list (path * text);
  s_log : list (level * sync_message)
}.

Definition s_logged (l : level) (m : sync_message) (w : sync_world)
  : sync_world :=
  SyncWorld (s_disk w) (s_config w) (s_uploads w) (s_log w ++ [(l, m)]).

Definition s_with_disk (d : disk) (w : sync_world) : sync_world :=
  SyncWorld d (s_config w) (s_uploads w) (s_log w).

Definition s_with_config (c : pydict) (w : sync_world) : sync_world :=
  SyncWorld (s_disk w) c (s_uploads w) (s_log w).

Definition s_uploaded (f : path) (name : text) (w : sync_world) : sync_world :=
  SyncWorld (s_disk w) (s_config w) (s_uploads w ++ [(f, name)]) (s_log w).

(** [obj[k] = v] on the members of a JSON object. *)
Fixpoint members_set (k : text) (v : json) (members : list (text * json))
  : list (text * json) :=
  match members with
  | [] => [(k, v)]
  | (k', v') :: ms =>
      if decide (k' = k) then (k', v) :: ms else (k', v') :: members_set k v ms
  end.

Section SyncPackage.

Variable project_path : path.

(** The upload collaborator [upload_to_gdrive] (the [gdrive] command
    line): the share link, or [None]. *)
Variable upload_to_gdrive : sync_world -> path -> text -> option text.

(** [datetime.now()] as [isoformat()] and as ['%Y-%m-%d %H:%M:%S'], and
    the gzipped tar archive holding one README of the given text. *)
Variable now_iso : text.
Variable now_stamp : text.
Variable tar_gz : text -> text.

Definition export_path : path := project_path ++ [txt "PackageExports"].

(** [f"{package_name.replace('/', '_')}.unitypackage"] *)
Definition export_name (package_name : text) : text :=
  Text.replace_char "/" "_" package_name ++ txt ".unitypackage".

(** The text [update_download_instructions] writes. *)
Definition instructions_text (drive_link package_name : text) : text :=
  txt "Download the necessary file(s) from the following link:" ++ ["010"%char; "010"%char]
  ++ drive_link ++ ["010"%char; "010"%char]
  ++ txt "Instructions:" ++ ["010"%char]
  ++ txt "1. Download the .unitypackage file from the above link." ++ ["010"%char]
  ++ txt "2. Open Unity and go to Assets > Import Package > Custom Package." ++ ["010"%char]
  ++ txt "3. Select the downloaded .unitypackage file and import it into your project."
  ++ ["010"%char; "010"%char]
  ++ txt "Package: " ++ package_name ++ ["010"%char]
  ++ txt "Last Updated: " ++ now_stamp ++ ["010"%char]
  ++ txt "Synced with UnityPackageSync" ++ ["010"%char].

Definition update_download_instructions (w : sync_world) (txt_file : path)
    (drive_link package_name : text) : sync_world :=
  let w :=
    s_with_disk
      (<[txt_file := Some (instructions_text drive_link package_name)]>
         (s_disk w)) w in
  s_logged INFO (Updated (Path.str (drop (length project_path) txt_file))) w.

Definition create_placeholder_package (w : sync_world) (package_path : path)
    (package_name : text) : path * sync_world :=
  let output_file := Path.child export_path (export_name package_name) in
  let w := s_logged INFO (CreatingPlaceholder package_name) w in
  (* Write a readme file *)
  let readme := Path.child export_path (txt "README.txt") in
  let readme_text :=
    txt "Placeholder for " ++ package_name ++ ["010"%char]
    ++ txt "Export with Unity to get actual package" in
  let d := <[readme := Some readme_text]> (s_disk w) in
  (* Create tar archive *)
  let d := <[output_file := Some (tar_gz readme_text)]> d in
  (* Clean up temp file *)
  let d := delete readme d in
  (output_file, s_with_disk d w).

(** [drive_link.split("/d/")[1].split("/")[0]]; [None] is the
    [IndexError] of a link without ["/d/"]. *)
Definition link_file_id (drive_link : text) : option text :=
  Text.take_while (fun c => negb (Ascii.eqb c "/"))
    <$> Text.after_first (txt "/d/") drive_link.

Definition sync_package (w : sync_world) (p : package) (use_placeholder : bool)
  : result bool * sync_world :=
  let package_name := p_name p in
  let w := s_logged INFO (Syncing package_name) w in
  (* Check if package already has a link *)
  if p_has_link p then (Ok true, s_logged INFO AlreadyHasLink w)
  else
    let export_file := Path.child export_path (export_name package_name) in
    let prepared :=
      if bool_decide (is_Some (s_disk w !! export_file)) then Some (export_file, w)
      else if use_placeholder
           then Some (create_placeholder_package w (p_path p) package_name)
           else None in
    match prepared with
    | None => (Ok false, s_logged WARNING (NoExportFound package_name) w)
    | Some (export_file, w) =>
        (* Upload to Google Drive *)
        let drive_link := upload_to_gdrive w export_file package_name in
        let w := s_uploaded export_file package_name w in
        match drive_link with
        | None | Some [] => (Ok false, w)
        | Some drive_link =>
            (* Update DownloadInstructions.txt *)
            let w :=
              update_download_instructions w (p_instructions_file p)
                drive_link package_name in
            (* Save mapping *)
            match link_file_id drive_link with
            | None => (Raise IndexError, w)
            | Some file_id =>
                let entry :=
                  JObj [ (txt "file_id", JStr file_id);
                         (txt "link", JStr drive_link);
                         (txt "updated", JStr now_iso) ] in
                match Dict.get (KStr (txt "package_mappings")) (s_config w) with
                | None => (Raise KeyError, w)
                | Some (JObj mappings) =>
                    let mappings := members_set package_name entry mappings in
                    (Ok true,
                     s_with_config
                       (Dict.set (KStr (txt "package_mappings"))
                          (JObj mappings) (s_config w)) w)
                | Some _ => (Raise TypeError, w)
                end
            end
        end
    end.

End SyncPackage.

(** ** [UnityPackageDownloader.download_package] *)

Section DownloadPackage.

Variable urlopen : world -> request -> response.
Variable curl : world -> list text -> curl_outcome.
Variable platform_system : text.

Definition output_name_of (i : instruction) : text :=
  Text.replace_char " " "_" (Text.replace_char "/" "_" (i_name i))
  ++ txt ".unitypackage".

Definition download_package (w : world) (i : instruction)
  : option path * world :=
  let output_name := output_name_of i in
  let w := logged INFO (Processing (i_name i)) w in
  let w := logged INFO (From (i_relative_path i)) w in
  (* Try curl first (usually faster), fall back to urllib *)
  match download_with_curl urlopen curl platform_system w (i_url i) output_name with
  | (Some downloaded, w) => (Some downloaded, w)
  | (None, w) => download_file urlopen w (i_url i) output_name 5
  end.

End DownloadPackage.

(** ** [UnityPackageDownloader]: [download_all] and [verify_downloads] *)

(** [s.endswith(suffix)] *)
Definition ends_with (suffix s : text) : bool := bool_decide (suffix `suffix_of` s).

(** [p] is an entry of the directory [dir]. *)
Definition is_child (dir p : path) : bool :=
  match last p with
  | Some name => bool_decide (p = dir ++ [name])
  | None => false
  end.

(** [self.download_path.glob("*.unitypackage")]: the files of the
    download directory whose name ends in [.unitypackage], in the order
    of the disk, each with its content. *)
Definition glob_unitypackage (w : world) : list (path * text) :=
  filter (fun f => is_child (download_path w) f.1 = true
                   /\ ends_with (txt ".unitypackage") (Path.name f.1) = true)
         (map_to_list (files w)).

Inductive verify_message :=
  | PackageTooSmall (name : text).

(** [verify_downloads]: the valid packages and the warnings logged;
    [file.stat().st_size] is the length of the content. *)
Definition verify_downloads (w : world)
  : list path * list (level * verify_message) :=
  let checked :=
    map (fun f : path * text =>
           (* Check if file has minimum size (not empty) *)
           if (100 <? length f.2)%nat then ([f.1], [])
           else ([], [(WARNING, PackageTooSmall (Path.name f.1))]))
        (glob_unitypackage w) in
  (flat_map fst checked, flat_map snd checked).

(** The dictionary [download_all] returns; [total_size_mb] is missing
    from the one returned when nothing was found. *)
Record results := Results {
  total : nat;
  success : nat;
  failed : nat;
  r_files : list text;
  total_size_mb : option Q
}.

Inductive run_message :=
  | NoInstructionsFound
  | FoundPackages (n : nat)
  | DownloadingPackage (i n : nat) (name : text)
  | FailedToDownload (name : text).

(** [downloaded.stat().st_size] for a path [download_package] returned
    (such a path exists on the disk). *)
Definition st_size (w : world) (p : path) : nat :=
  match files w !! p with
  | Some content => length content
  | None => 0
  end.

Section DownloadAll.

Variable urlopen : world -> request -> response.
Variable curl : world -> list text -> curl_outcome.
Variable platform_system : text.
Variable project_path : path.

(** The loop [for i, instruction in enumerate(instructions, 1)] of
    [download_all], [n] being [len(instructions)]. *)
Fixpoint download_each (n i : nat) (instructions : list instruction)
    (acc : results) (lg : list (level * run_message)) (w : world)
  : results * list (level * run_message) * world :=
  match instructions with
  | [] => (acc, lg, w)
  | ins :: rest =>
      let lg := lg ++ [(INFO, DownloadingPackage i n (i_name ins))] in
      match download_package urlopen curl platform_system w ins with
      | (Some downloaded, w) =>
          let size_mb :=
            (inject_Z (Z.of_nat (st_size w downloaded)) / inject_Z (1024 * 1024))%Q in
          let acc :=
            Results (total acc) (success acc + 1) (failed acc)
              (r_files acc ++ [Path.str downloaded])
              ((fun t => (t + size_mb)%Q) <$> total_size_mb acc) in
          download_each n (S i) rest acc lg w
      | (None, w) =>
          let acc :=
            Results (total acc) (success acc) (failed acc + 1) (r_files acc)
              (total_size_mb acc) in
          download_each n (S i) rest acc
            (lg ++ [(ERROR, FailedToDownload (i_name ins))]) w
      end
  end.

(** [download_all], over the project on [d]; [specific_packages] is
    [None] or a list. *)
Definition download_all (w : world) (d : disk)
    (specific_packages : option (list text))
  : results * list (level * run_message) * world :=
  let found := find_download_instructions project_path d in
  let instructions := found.1 in
  let w :=
    World (download_path w) (session_files w) (files w) (requests w)
      (curl_runs w) (log w ++ found.2) in
  match instructions with
  | [] =>
      (Results 0 0 0 [] None, [(WARNING, NoInstructionsFound)], w)
  | _ =>
      (* Filter specific packages if requested *)
      let instructions :=
        match specific_packages with
        | None | Some [] => instructions
        | Some names =>
            filter (fun i => i_name i ∈ names) instructions
        end in
      download_each (length instructions) 1 instructions
        (Results (length instructions) 0 0 [] (Some 0%Q))
        [(INFO, FoundPackages (length instructions))] w
  end.

End DownloadAll.

(** ** [_save_config]

    [json.dump(self.config, f, indent=2, default=str)], seen through the
    next [json.load]: the file then holds the object whose members are
    the items of the dictionary, in order.  A key that is not a string
    is written in its JSON spelling ([1], [true], [null]), which the keys
    of this embedding (one key for [True] and [1]) do not determine: a
    dictionary with such a key is outside the embedding ([None]). *)

Definition dumped_member (item : key * json) : option (text * json) :=
  match item.1 with
  | KStr s => Some (s, item.2)
  | _ => None
  end.

Definition _save_config (config : pydict) : option config_source :=
  (fun members => Document (JObj members)) <$> mapM dumped_member config.

(** ** [UnityPackageSync.sync_all] *)

Inductive sync_all_message :=
  | FoundToSync (n : nat)
  | SyncComplete (success_count total : nat).

(** What a run of [sync_all] gives: the pair it returns or the exception
    that leaves it, the dictionary [_save_config] has written to the
    configuration file ([None] when [_save_config] was not reached), and
    the lines [sync_all] itself logs (those of [sync_package] are in the
    log of the world). *)
Record sync_run := SyncRun {
  outcome : result (nat * nat);
  saved : option pydict;
  run_log : list (level * sync_all_message)
}.

Section SyncAll.

Variable project_path : path.
Variable upload_to_gdrive : sync_world -> path -> text -> option text.
Variable now_iso : text.
Variable now_stamp : text.
Variable tar_gz : text -> text.

(** [json.dump(config, f, indent=2, default=str)]: the text it writes. *)
Variable json_dump : pydict -> text.

(** [self.config_file] *)
Definition config_file : path :=
  project_path ++ [txt ".claude"; txt "package_sync_config.json"].

(** The loop [for package in packages] of [sync_all]. *)
Fixpoint sync_each (packages : list package) (use_placeholders : bool)
    (success_count : nat) (w : sync_world) : result nat * sync_world :=
  match packages with
  | [] => (Ok success_count, w)
  | package :: rest =>
      match sync_package project_path upload_to_gdrive now_iso now_stamp tar_gz
              w package use_placeholders with
      | (Ok true, w) => sync_each rest use_placeholders (success_count + 1) w
      | (Ok false, w) => sync_each rest use_placeholders success_count w
      | (Raise e, w) => (Raise e, w)
      end
  end.

(** [sync_all]; [specific_packages] is [None] or a list.  At its end
    [_save_config] creates or rewrites the configuration file on the
    disk (creating the directory and opening the file are taken to
    succeed, as the writes of the downloader are). *)
Definition sync_all (w : sync_world) (specific_packages : option (list text))
    (use_placeholders : bool) : sync_run * sync_world :=
  match find_packages_to_sync project_path (s_disk w) with
  | None => (SyncRun (Raise ValueError) None [], w)
  | Some packages =>
      let packages :=
        match specific_packages with
        | None | Some [] => packages
        | Some names => filter (fun p => p_name p ∈ names) packages
        end in
      let lg := [(INFO, FoundToSync (length packages))] in
      match sync_each packages use_placeholders 0 w with
      | (Raise e, w) => (SyncRun (Raise e) None lg, w)
      | (Ok success_count, w) =>
          (* Save configuration *)
          let w :=
            s_with_config
              (Dict.set (KStr (txt "last_sync")) (JStr now_iso) (s_config w))
              w in
          let w :=
            s_with_disk
              (<[config_file := Some (json_dump (s_config w))]> (s_disk w)) w in
          (SyncRun (Ok (success_count, length packages)) (Some (s_config w))
             (lg ++ [(INFO, SyncComplete success_count (length packages))]),
           w)
      end
  end.

End SyncAll.

(** ** [UnityPackageSync.generate_package_list] *)

(** [a < b] on [str]: code point by code point, a proper prefix first. *)
Fixpoint text_ltb (a b : text) : bool :=
  match a, b with
  | _, [] => false
  | [], _ :: _ => true
  | x :: a', y :: b' =>
      if (N_of_ascii x <? N_of_ascii y)%N then true
      else if (N_of_ascii y <? N_of_ascii x)%N then false
      else text_ltb a' b'
  end.

(** An item of a category: [{"name": ..., "link": ...}]. *)
Record listing := Listing { l_name : text; l_link : text }.

(** [sorted(items, key=lambda x: x["name"])].  [sorted] is stable: an
    item goes in front of the first item whose name is not smaller. *)
Fixpoint insert_by_name (x : listing) (items : list listing) : list listing :=
  match items with
  | [] => [x]
  | y :: rest =>
      if text_ltb (l_name y) (l_name x) then y :: insert_by_name x rest
      else x :: items
  end.

Definition sorted_by_name (items : list listing) : list listing :=
  foldr insert_by_name [] items.

(** The dictionary [categories], in insertion order. *)
Abbreviation categories := (list (text * list listing)).

Definition category_of (package_name : text) : text :=
  if Text.contains vendor package_name then vendor else txt "Third Party".

(** [categories[category].append(item)]; the [KeyError] of a missing
    category would be swallowed by the [except] around it. *)
Fixpoint category_append (category : text) (item : listing) (cs : categories)
  : categories :=
  match cs with
  | [] => []
  | (c, items) :: rest =>
      if decide (c = category) then (c, items ++ [item]) :: rest
      else (c, items) :: category_append category item rest
  end.

(** The body of the loop [for package in packages]. *)
Definition collect (d : disk) (cs : categories) (package : package)
  : categories :=
  if p_has_link package then
    let category := category_of (p_name package) in
    let cs :=
      if bool_decide (category ∈ cs.*1) then cs else cs ++ [(category, [])] in
    (* Read the link from file *)
    match d !! p_instructions_file package with
    | Some (Some content) =>
        match first_drive_link content with
        | Some link => category_append category (Listing (p_name package) link) cs
        | None => cs
        end
    | _ => cs
    end
  else cs.

Definition render_item (item : listing) : text :=
  txt "- [" ++ l_name item ++ txt "](" ++ l_link item ++ txt ")" ++ ["010"%char].

Definition render_category (c : text * list listing) : text :=
  ["010"%char] ++ txt "## " ++ c.1 ++ ["010"%char; "010"%char]
  ++ concat (map render_item (sorted_by_name c.2)).

(** [md_content] *)
Definition package_list (now_stamp : text) (cs : categories) : text :=
  txt "# Unity Package Downloads" ++ ["010"%char; "010"%char]
  ++ txt "Generated: " ++ now_stamp ++ ["010"%char; "010"%char]
  ++ concat (map render_category cs).

Inductive list_message :=
  | GeneratedPackageList (name : text).

(** [generate_package_list]: the file written, the line logged and the
    disk afterwards; [None] when [find_packages_to_sync] raises. *)
Definition generate_package_list (project_path : path) (now_stamp : text)
    (d : disk) : option (path * list (level * list_message) * disk) :=
  packages ← find_packages_to_sync project_path d;
  (* Group by category *)
  let cs := fold_left (collect d) packages [] in
  (* Save file *)
  let list_file := Path.child project_path (txt "PACKAGE_DOWNLOADS.md") in
  Some (list_file,
        [(INFO, GeneratedPackageList (Path.name list_file))],
        <[list_file := Some (package_list now_stamp cs)]> d).

(** ** [export_unity_packages.py]: the archive of a package and the
    placeholder uploader *)

(** [output_name] of [main] (line 402) with the suffix [export_package]
    gives it (line 190): the file name of the archive the export
    workflow writes for a package. *)
Definition exported_name (package_name : text) : text :=
  Text.replace_char " " "_" (Text.replace_char "/" "_" package_name)
  ++ txt ".unitypackage".

(** [name.rfind('.')] *)
Fixpoint rfind_dot (name : text) : option nat :=
  match name with
  | [] => None
  | c :: rest =>
      match rfind_dot rest with
      | Some i => Some (S i)
      | None => if Ascii.eqb c "." then Some 0%nat else None
      end
  end.

(** [PurePath.stem] of a file name. *)
Definition stem (name : text) : text :=
  match rfind_dot name with
  | Some i => if (0 <? i)%nat && (i <? length name - 1)%nat then take i name else name
  | None => name
  end.

Module Uploader.

(** [GoogleDriveUploader.upload_file] *)
Definition upload_file (file_path : path) : text :=
  txt "https://drive.google.com/file/d/PLACEHOLDER_" ++ stem (Path.name file_path)
  ++ txt "/view".

(** The text [GoogleDriveUploader.update_download_instructions] writes. *)
Definition instructions_text (now_stamp drive_link : text) : text :=
  txt "Download the necessary file(s) from the following link:" ++ ["010"%char; "010"%char]
  ++ drive_link ++ ["010"%char; "010"%char]
  ++ txt "Instructions:" ++ ["010"%char]
  ++ txt "1. Download the .unitypackage file from the above link." ++ ["010"%char]
  ++ txt "2. Open Unity and go to Assets > Import Package > Custom Package." ++ ["010"%char]
  ++ txt "3. Select the downloaded .unitypackage file and import it into your project."
  ++ ["010"%char; "010"%char]
  ++ txt "Last Updated: " ++ now_stamp ++ ["010"%char].

(** [GoogleDriveUploader.update_download_instructions] *)
Definition update_download_instructions (now_stamp : text) (d : disk)
    (package_path : path) (drive_link : text) : disk :=
  let instructions_file := Path.child package_path pointer_name in
  <[instructions_file := Some (instructions_text now_stamp drive_link)]> d.

End Uploader.

(** ** [UnityPackageExporter.discover_packages] *)

(** An entry of [discover_packages]. *)
Record package_info := PackageInfo {
  e_name : text;
  e_path : text;
  has_download_instructions : bool;
  size_mb : Q
}.

Inductive export_message :=
  | PackagesDirectoryNotFound (p : path).

(** [p.is_dir()]: a file of the disk lies below [p]. *)
Definition is_dir (d : disk) (p : path) : bool :=
  existsb (fun f => Path.under p f && (length p <? length f)%nat)
    (map_to_list d).*1.

(** [dir.iterdir()]: the entries of [dir], each once, in the order of the
    disk. *)
Definition iterdir (d : disk) (dir : path) : list path :=
  remove_dups
    (omap (fun f => if Path.under dir f && (length dir <? length f)%nat
                    then Some (take (S (length dir)) f) else None)
       (map_to_list d).*1).

Section ExportDiscovery.

Variable project_path : path.

(** [_get_directory_size]: the bytes found below a directory. *)
Variable _get_directory_size : disk -> path -> nat.

(** The entry appended for the directory [dir] under the name [name],
    when [dir / "DownloadInstructions.txt"] exists. *)
Definition info_of (d : disk) (name : text) (dir : path) : list package_info :=
  let download_file := Path.child dir pointer_name in
  if dir_exists d download_file then
    [PackageInfo name (Path.str (relative_to_project project_path dir)) true
       (inject_Z (Z.of_nat (_get_directory_size d dir)) / inject_Z (1024 * 1024))%Q]
  else [].

(** [discover_packages]; [iterdir] on a [packages_path] that is a file
    raises [NotADirectoryError], an [OSError]. *)
Definition discover_packages (d : disk)
  : result (list package_info) * list (level * export_message) :=
  let packages_path := packages_path project_path in
  if negb (dir_exists d packages_path) then
    (Ok [], [(ERROR, PackagesDirectoryNotFound packages_path)])
  else if negb (is_dir d packages_path) then (Raise OSError, [])
  else
    (Ok (flat_map
           (fun item =>
              if is_dir d item then
                (* Check for DownloadInstructions.txt *)
                info_of d (Path.name item) item
                (* Check subdirectories *)
                ++ flat_map
                     (fun subitem =>
                        if is_dir d subitem then
                          info_of d
                            (Path.name item ++ txt "/" ++ Path.name subitem)
                            subitem
                        else [])
                     (iterdir d item)
              else [])
           (iterdir d packages_path)),
     []).

End ExportDiscovery.

(** ** [UnityPackageSync.upload_to_gdrive] *)

(** What [subprocess.run(cmd, capture_output=True)] gives: the completed
    process, or an exception. *)
Inductive run_outcome :=
  | Completed (returncode : Z) (stdout stderr : text)
  | RunRaised.

Inductive upload_message :=
  | GdriveNotFound
  | Uploading (name : text)
  | UploadedSuccessfully (share_link : text)
  | NoFileIdInOutput
  | UploadFailed (stderr : text)
  | UploadError.

(** [s.split(sep)[0]]: what stands before the first [sep]. *)
Fixpoint before_first (sep s : text) : text :=
  match Text.strip_prefix sep s with
  | Some _ => []
  | None => match s with [] => [] | c :: s' => c :: before_first sep s' end
  end.

(** [s.lstrip()] *)
Fixpoint lstrip (s : text) : text :=
  match s with
  | [] => []
  | c :: s' => if Re.space c then lstrip s' else s
  end.

(** [output.split("Id:")[1].strip().split()[0]] for an [output] that
    holds ["Id:"]: the first run of characters that are not white space
    in what stands between the first ["Id:"] and the next one; [None]
    is the [IndexError] of an empty [split()]. *)
Definition printed_file_id (output : text) : option text :=
  match Text.after_first (txt "Id:") output with
  | Some after =>
      match Text.take_while Re.nonspace (lstrip (before_first (txt "Id:") after)) with
      | [] => None
      | file_id => Some file_id
      end
  | None => None
  end.

Section Upload.

(** The processes [upload_to_gdrive] starts. *)
Variable run : sync_world -> list text -> run_outcome.

(** [cmd]; [None] when [google_drive_folder_id] is configured as
    something that is no string, with which [subprocess.run] raises
    [TypeError]. *)
Definition upload_cmd (config : pydict) (file_path : path) : option (list text) :=
  let parent :=
    match Dict.get (KStr (txt "google_drive_folder_id")) config with
    | None => Some (txt "root")
    | Some (JStr folder_id) => Some folder_id
    | Some _ => None
    end in
  (fun parent =>
     [txt "gdrive"; txt "files"; txt "upload"; txt "--parent"; parent;
      Path.str file_path]) <$> parent.

(** [upload_to_gdrive]: the share link or [None], and the lines
    logged. *)
Definition upload_to_gdrive (w : sync_world) (file_path : path)
    (package_name : text) : option text * list (level * upload_message) :=
  (* Check if gdrive is available *)
  match run w [txt "which"; txt "gdrive"] with
  | RunRaised => (None, [(ERROR, UploadError)])
  | Completed returncode _ _ =>
      if negb (returncode =? 0)%Z then (None, [(ERROR, GdriveNotFound)])
      else
        (* Upload file *)
        let lg := [(INFO, Uploading (Path.name file_path))] in
        match upload_cmd (s_config w) file_path with
        | None => (None, lg ++ [(ERROR, UploadError)])
        | Some cmd =>
            match run w cmd with
            | RunRaised => (None, lg ++ [(ERROR, UploadError)])
            | Completed returncode output stderr =>
                if (returncode =? 0)%Z then
                  (* Extract file ID from output *)
                  if Text.contains (txt "Id:") output then
                    match printed_file_id output with
                    | None => (None, lg ++ [(ERROR, UploadError)])
                    | Some file_id =>
                        let share_link :=
                          txt "https://drive.google.com/file/d/" ++ file_id
                          ++ txt "/view?usp=sharing" in
                        (Some share_link,
                         lg ++ [(INFO, UploadedSuccessfully share_link)])
                    end
                  else (None, lg ++ [(ERROR, NoFileIdInOutput)])
                else (None, lg ++ [(ERROR, UploadFailed stderr)])
            end
        end
  end.

End Upload.

(** * The vocabulary of the statements *)

(** ** Matching, declaratively

    [matches_at lit cls s i g]: the pattern [lit(cls+)] matches [s] at
    offset [i] and its greedy group is [g]. *)

Definition matches_at (lit : text) (cls : ascii -> bool) (s : text) (i : nat)
    (g : text) : Prop :=
  exists pre rest,
    s = pre ++ lit ++ g ++ rest /\ length pre = i /\ g <> []
    /\ Forall (fun c => cls c = true) g
    /\ (forall c r, rest = c :: r -> cls c = false).

(** The match [re.search] reports: no match starts further left. *)
Definition leftmost (lit : text) (cls : ascii -> bool) (s g : text) : Prop :=
  exists i, matches_at lit cls s i g
            /\ forall j g', (j < i)%nat -> ~ matches_at lit cls s j g'.

(** The pattern matches nowhere in [s]. *)
Definition unmatched (lit : text) (cls : ascii -> bool) (s : text) : Prop :=
  forall i g, ~ matches_at lit cls s i g.

(** ** The fetcher *)

(** The cap of [download_file] in bytes. *)
Definition max_size_bytes (max_size_gb : Q) : Q :=
  max_size_gb * inject_Z (2 ^ 30).

(** [len(content)] *)
Definition size_bytes (content : text) : Q :=
  inject_Z (Z.of_nat (length content)).

(** What [download_file] has logged when it issues its first request. *)
Definition announced (w : world) (output_name file_id : text) : world :=
  logged INFO (FileId file_id) (logged INFO (DownloadingFromDrive output_name) w).

(** Lines 99-123 of [download_file]: what it does with the outcome of
    the requests. *)
Definition finish (url : text) (output_file : path) (max_size_gb : Q)
    (fetched : response * world) : option path * world :=
  match fetched with
  | (Body content, w) =>
      if too_large content max_size_gb then
        (None, logged ERROR (FileTooLarge (length content) max_size_gb) w)
      else
        (Some output_file,
         session_append output_file
           (logged INFO (Downloaded output_file (length content))
              (with_files (<[output_file := content]> (files w)) w)))
  | (HTTPError code, w) =>
      if (code =? 404)%Z then (None, logged ERROR (FileNotFound404 url) w)
      else (None, logged ERROR (HTTPErrorCode code) w)
  | (OtherError, w) => (None, logged ERROR DownloadFailed w)
  end.

(** ** The discoveries *)

(** The pointer files both discoveries iterate over, in their order. *)
Definition pointer_files (project_path : path) (d : disk) : list path :=
  flat_map (fun search_path =>
              if dir_exists d search_path
              then rglob d search_path pointer_name
              else [])
           (search_paths project_path).

(** The file can be read and its text holds a full link. *)
Definition linked (d : disk) (f : path) : bool :=
  match d !! f with
  | Some (Some content) => bool_decide (is_Some (first_drive_link content))
  | _ => false
  end.

(** The value a JSON object holds for [s]: the last member called [s]. *)
Definition persisted (s : text) (members : list (text * json)) : option json :=
  fold_left (fun acc '(k, v) => if decide (k = s) then Some v else acc)
    members None.

(** ** Concrete projects, caches and hosts *)

(** The projects are rooted at [/proj]. *)
Definition proj : path := [txt "/"; txt "proj"].

(** The pointer file of the package directory [dirs]. *)
Definition pointer_in (dirs : list string) : path :=
  proj ++ map txt dirs ++ [pointer_name].

(** One package with a link under Packages, one without under Audio. *)
Definition two_package_disk : disk :=
  <[ pointer_in ["Assets"; "Packages"; "TestPkg"]%string :=
       Some (txt "Download from:" ++ ["010"%char]
             ++ txt "https://drive.google.com/file/d/test123/view?usp=sharing"
             ++ ["010"%char]) ]>
  (<[ pointer_in ["Assets"; "Audio"; "Background"]%string :=
        Some (txt "No link here") ]> ∅).

(** A directory called Background under both roots. *)
Definition twice_named_disk : disk :=
  <[ pointer_in ["Assets"; "Packages"; "Background"]%string :=
       Some (txt "https://drive.google.com/file/d/aaa/view") ]>
  (<[ pointer_in ["Assets"; "Audio"; "Background"]%string :=
        Some (txt "https://drive.google.com/file/d/bbb/view") ]> ∅).

(** A package directory whose name merely starts with the vendor's. *)
Definition vendor_like_disk : disk :=
  <[ pointer_in ["Assets"; "Packages"; "LeartesStudiosExtras"]%string :=
       Some (txt "https://drive.google.com/file/d/ccc/view") ]> ∅.

(** The download directory, empty and holding [a.unitypackage]. *)
Definition cache : path := [txt "/"; txt "cache"].

Definition empty_world : world := World cache [] ∅ [] [] [].

Definition cached_world : world :=
  World cache [] {[ Path.child cache (txt "a.unitypackage") := txt "payload" ]}
    [] [] [].

Definition drive_url : text := txt "https://drive.google.com/file/d/test123/view".
Definition other_url : text := txt "https://example.com/not-a-drive-link".

(** A host that always answers [404], one that always sends the same
    body, and one that answers the confirmed request with the file. *)
Definition host_404 : world -> request -> response := fun _ _ => HTTPError 404.

Definition host_of (body : text) : world -> request -> response :=
  fun _ _ => Body body.

Definition host_confirming (page file : text) : world -> request -> response :=
  fun w _ => match requests w with [] => Body page | _ => Body file end.

(** No curl on the host; a curl that fails and leaves a partial file. *)
Definition no_curl : world -> list text -> curl_outcome := fun _ _ => CurlMissing.

Definition failing_curl : world -> list text -> curl_outcome :=
  fun _ _ => CurlExit 22 (txt "curl: (22) 404") (Some (txt "<html>"))%Z.

(** The interstitial page without and with a confirmation token. *)
Definition warning_page : text := txt "<html>Google Drive - Virus scan warning</html>".

Definition token_page : text :=
  txt "<a href='/uc?export=download&confirm=t0K_n-9&id=test123'>Download anyway</a>".

(** A pointer file that names the host without a full link. *)
Definition bare_mention : text := txt "Ask on drive.google.com (link to follow)".

Definition bare_disk : disk :=
  {[ pointer_in ["Assets"; "Packages"; "Synty"]%string := Some bare_mention ]}.

(** An upload that never succeeds. *)
Definition no_upload : sync_world -> path -> text -> option text :=
  fun _ _ _ => None.

(** ** What a fetch may do to the world *)

(** The outcome [r] of a fetch from [w] towards [output_file]: either
    the files and the session list are as before (the result is [None]
    or the file that was already there), or the destination did not
    exist and has been created with some content and recorded in the
    session list. *)
Definition fetch_outcome (w : world) (output_file : path)
    (r : option path * world) : Prop :=
  download_path r.2 = download_path w
  /\ ((files r.2 = files w /\ session_files r.2 = session_files w
       /\ (r.1 = None \/ (r.1 = Some output_file /\ is_Some (files w !! output_file))))
      \/ (exists content,
            files w !! output_file = None /\ r.1 = Some output_file
            /\ files r.2 = <[output_file := content]> (files w)
            /\ session_files r.2 = session_files w ++ [output_file])).

(** The sizes, in megabytes, of the files [ps] as they are in [w],
    added up. *)
Definition sum_mb (w : world) (ps : list path) : Q :=
  fold_right
    (fun p t => (inject_Z (Z.of_nat (st_size w p)) / inject_Z (1024 * 1024) + t)%Q)
    0%Q ps.

(** ** The configuration dictionary *)

(** [d[k] = v] for an item [(k, v)]: the step of [dict.update]. *)
Definition set_item (d : pydict) (item : key * json) : pydict :=
  Dict.set item.1 item.2 d.

(** All keys are strings. *)
Definition string_keyed (d : pydict) : Prop :=
  Forall (fun k => exists s, k = KStr s) d.*1.

(** What the configuration file may hold for [_load_config] to return:
    nothing, text that is not JSON, or a JSON object. *)
Definition loadable (config_file : config_source) : Prop :=
  config_file = Absent \/ config_file = Undecodable
  \/ exists members, config_file = Document (JObj members).

(** ** Runs of the downloader *)

(** The entry of the package TestPkg. *)
Definition test_pkg : instruction :=
  Instruction (txt "TestPkg")
    (txt "/proj/Assets/Packages/TestPkg/DownloadInstructions.txt")
    drive_url
    (txt "Assets/Packages/TestPkg/DownloadInstructions.txt").

(** A curl that exits with 0 and leaves the file. *)
Definition working_curl : world -> list text -> curl_outcome :=
  fun _ _ => CurlExit 0 [] (Some (txt "the package")).

(** ** Links of the sync workflow *)

(** The link [upload_to_gdrive] builds from the identifier that gdrive
    prints (line 142). *)
Definition share_link (file_id : text) : text :=
  txt "https://drive.google.com/file/d/" ++ file_id ++ txt "/view?usp=sharing".

(** The archive of a package and the temporary README of the
    placeholder, both in [export_path]. *)
Definition export_file (project_path : path) (package_name : text) : path :=
  Path.child (export_path project_path) (export_name package_name).

Definition readme_file (project_path : path) : path :=
  Path.child (export_path project_path) (txt "README.txt").

(** The entry [sync_package] records for a package. *)
Definition mapping_entry (file_id drive_link updated : text) : json :=
  JObj [ (txt "file_id", JStr file_id);
         (txt "link", JStr drive_link);
         (txt "updated", JStr updated) ].

(** ** Runs of the sync workflow *)

(** The package Synty of [bare_disk], without link, and a syncer that
    has just loaded the default configuration. *)
Definition synty : package :=
  Package (txt "Synty")
    (proj ++ [txt "Assets"; txt "Packages"; txt "Synty"])
    (pointer_in ["Assets"; "Packages"; "Synty"]%string)
    false.

Definition fresh_syncer : sync_world :=
  SyncWorld bare_disk Sync.default_config [] [].

(** A stand-in for [json.dump] that writes an empty file. *)
Definition empty_dump : pydict -> text := fun _ => [].

(** An upload that always returns the same link. *)
Definition upload_as (link : text) : sync_world -> path -> text -> option text :=
  fun _ _ _ => Some link.

(** A configuration as [_load_config] builds it over [default_config]:
    string keys, each of them once, those of the defaults first and in
    their order. *)
Definition config_over (default_config config : pydict) : Prop :=
  string_keyed config /\ NoDup config.*1
  /\ exists ext, config.*1 = default_config.*1 ++ ext.

(** The packages [sync_all] and the entries [download_all] work on:
    all of them for no or an empty selection. *)
Definition selected (specific_packages : option (list text))
    (packages : list package) : list package :=
  match specific_packages with
  | None | Some [] => packages
  | Some names => filter (fun p => p_name p ∈ names) packages
  end.

(** ** The package list *)

(** The items of the category [c] in [cs]. *)
Fixpoint items_in (c : text) (cs : categories) : list listing :=
  match cs with
  | [] => []
  | (k, items) :: rest =>
      if decide (k = c) then items ++ items_in c rest else items_in c rest
  end.

(** What a package contributes to its category: its first full link,
    when its pointer file can be read and holds one. *)
Definition listing_of (d : disk) (p : package) : list listing :=
  match d !! p_instructions_file p with
  | Some (Some content) =>
      match first_drive_link content with
      | Some link => [Listing (p_name p) link]
      | None => []
      end
  | _ => []
  end.

(** The packages that [generate_package_list] files under [c]. *)
Definition filed_under (c : text) (packages : list package) : list package :=
  filter (fun p => p_has_link p = true /\ category_of (p_name p) = c) packages.

(** [a] may stand before [b] in a list sorted by name. *)
Definition name_le (a b : listing) : Prop :=
  text_ltb (l_name b) (l_name a) = false.

(** The name of a package as the export workflow and the downloader
    spell it in a file name. *)
Definition flat_name (package_name : text) : text :=
  Text.replace_char " " "_" (Text.replace_char "/" "_" package_name).

(** The names [discover_packages] reports; none when it raises. *)
Definition exported_names (r : result (list package_info)) : list text :=
  match r with
  | Ok packages => map e_name packages
  | Raise _ => []
  end.

(** A host on which every process exits with 0 and prints [output]. *)
Definition prints (output : text) : sync_world -> list text -> run_outcome :=
  fun _ _ => Completed 0 output [].

(** * Properties *)

(** ** [re.search] finds the leftmost match *)

Section ReFacts.

Variable lit : text.
Variable cls : ascii -> bool.

Lemma strip_prefix_Some (p s r : text) :
  Text.strip_prefix p s = Some r <-> s = p ++ r.
Proof.
  revert s; induction p as [|a p IH]; intros [|b s]; simpl.
  - split; intros; simplify_eq; done.
  - split; intros; simplify_eq; done.
  - split; intros; simplify_eq.
  - destruct (Ascii.eqb_spec a b) as [->|Hne].
    + rewrite IH. split; intros; simplify_eq; done.
    + split; intros; simplify_eq.
Qed.

Lemma take_while_app (g rest : text) :
  Forall (fun c => cls c = true) g ->
  (forall c r, rest = c :: r -> cls c = false) ->
  Text.take_while cls (g ++ rest) = g.
Proof.
  induction 1 as [|c g Hc _ IH]; intros Hrest; simpl.
  - destruct rest as [|c r]; [done|]. simpl. by rewrite (Hrest c r).
  - rewrite Hc, IH; done.
Qed.

Lemma take_while_split (s : text) :
  exists rest,
    s = Text.take_while cls s ++ rest
    /\ Forall (fun c => cls c = true) (Text.take_while cls s)
    /\ (forall c r, rest = c :: r -> cls c = false).
Proof.
  induction s as [|c s (rest & Hs & Hall & Hrest)]; simpl.
  - exists []. split; [done|]. split; [constructor | intros; discriminate].
  - destruct (cls c) eqn:Hc.
    + exists rest. split; [simpl; congruence|]. split; [by constructor | done].
    + exists (c :: s). split; [done|]. split; [constructor|].
      intros ? ? [= <- <-]. done.
Qed.

Lemma match_here_Some (s g : text) :
  Re.match_here lit cls s = Some g <-> matches_at lit cls s 0 g.
Proof.
  unfold Re.match_here, matches_at. split.
  - destruct (Text.strip_prefix lit s) as [rest0|] eqn:Hp; [|done].
    apply strip_prefix_Some in Hp as ->.
    destruct (take_while_split rest0) as (rest & Hs & Hall & Hrest).
    destruct (Text.take_while cls rest0) as [|c g0] eqn:Hg; [done|].
    intros [= <-]. exists [], rest. simpl. rewrite Hs at 1. done.
  - intros (pre & rest & -> & Hlen & Hne & Hall & Hrest).
    apply length_zero_iff_nil in Hlen as ->. simpl.
    assert (Text.strip_prefix lit (lit ++ g ++ rest) = Some (g ++ rest)) as ->
      by by apply strip_prefix_Some.
    rewrite take_while_app by done. by destruct g.
Qed.

Lemma match_here_None (s : text) :
  Re.match_here lit cls s = None <-> forall g, ~ matches_at lit cls s 0 g.
Proof.
  split.
  - intros Hn g Hm. apply match_here_Some in Hm. congruence.
  - intros Hn. destruct (Re.match_here lit cls s) as [g|] eqn:Hm; [|done].
    apply match_here_Some in Hm. by destruct (Hn g).
Qed.

Lemma matches_at_cons (c : ascii) (s : text) (i : nat) (g : text) :
  matches_at lit cls (c :: s) (S i) g <-> matches_at lit cls s i g.
Proof.
  unfold matches_at. split.
  - intros (pre & rest & Hs & Hlen & H).
    destruct pre as [|c' pre]; [done|]. simpl in *. simplify_eq.
    by exists pre, rest.
  - intros (pre & rest & -> & <- & H). by exists (c :: pre), rest.
Qed.

Lemma matches_at_nil (i : nat) (g : text) : ~ matches_at lit cls [] i g.
Proof.
  intros (pre & rest & Hs & _ & Hne & _).
  symmetry in Hs. apply app_eq_nil in Hs as [_ Hs].
  apply app_eq_nil in Hs as [_ Hs]. apply app_eq_nil in Hs as [Hs _]. done.
Qed.

Lemma search_Some (s g : text) :
  Re.search lit cls s = Some g <-> leftmost lit cls s g.
Proof.
  unfold leftmost. induction s as [|c s IH]; simpl.
  - destruct (Re.match_here lit cls []) as [g0|] eqn:Hm.
    + apply match_here_Some in Hm. by destruct (matches_at_nil 0 g0).
    + split; [done|]. intros (i & Hm' & _). by destruct (matches_at_nil i g).
  - destruct (Re.match_here lit cls (c :: s)) as [g0|] eqn:Hm.
    + apply match_here_Some in Hm. split.
      * intros [= <-]. exists 0%nat. split; [done|]. intros; lia.
      * intros (i & Hi & Hleft). destruct i as [|i].
        -- apply match_here_Some in Hm, Hi. congruence.
        -- destruct (Hleft 0%nat g0); [lia|done].
    + rewrite IH. split.
      * intros (i & Hi & Hleft). exists (S i). split.
        -- by apply (proj2 (matches_at_cons c s i g)).
        -- intros [|j] g' Hj.
           ++ by apply match_here_None.
           ++ rewrite matches_at_cons. apply Hleft. lia.
      * intros (i & Hi & Hleft). destruct i as [|i].
        -- apply match_here_Some in Hi. congruence.
        -- exists i. split; [by apply (proj1 (matches_at_cons c s i g))|].
           intros j g' Hj Hm'. apply (Hleft (S j) g'); [lia|].
           by apply (proj2 (matches_at_cons c s j g')).
Qed.

Lemma search_None (s : text) :
  Re.search lit cls s = None <-> unmatched lit cls s.
Proof.
  unfold unmatched. induction s as [|c s IH]; simpl.
  - destruct (Re.match_here lit cls []) as [g0|] eqn:Hm.
    + apply match_here_Some in Hm. by destruct (matches_at_nil 0 g0).
    + split; [|done]. intros _ i g. apply matches_at_nil.
  - destruct (Re.match_here lit cls (c :: s)) as [g0|] eqn:Hm.
    + apply match_here_Some in Hm. split; [done|]. intros H. by destruct (H 0%nat g0).
    + rewrite IH. split.
      * intros H [|i] g; [by apply match_here_None|].
        rewrite matches_at_cons. apply H.
      * intros H i g Hm'. apply (H (S i) g).
        by apply (proj2 (matches_at_cons c s i g)).
Qed.

Lemma matches_at_drop (s : text) (j : nat) (g : text) :
  matches_at lit cls s j g -> matches_at lit cls (drop j s) 0 g.
Proof.
  intros (pre & rest & -> & <- & H). exists [], rest.
  by rewrite drop_app_length.
Qed.

(** No match starts before offset [n], checked offset by offset. *)
Lemma unmatched_before (s : text) (n : nat) :
  forallb (fun j => bool_decide (Re.match_here lit cls (drop j s) = None))
    (seq 0 n) = true ->
  forall j g, (j < n)%nat -> ~ matches_at lit cls s j g.
Proof.
  intros Hall j g Hj Hm%matches_at_drop%match_here_Some.
  rewrite forallb_forall in Hall.
  specialize (Hall j). rewrite bool_decide_eq_true in Hall.
  rewrite Hall in Hm; [done|]. apply in_seq. lia.
Qed.

Lemma search_group (s g : text) :
  Re.search lit cls s = Some g -> g <> [] /\ Forall (fun c => cls c = true) g.
Proof.
  intros (i & (pre & rest & _ & _ & Hne & Hall & _) & _)%search_Some. done.
Qed.

Lemma leftmost_unique (s g g' : text) :
  leftmost lit cls s g -> leftmost lit cls s g' -> g = g'.
Proof. intros H1%search_Some H2%search_Some. congruence. Qed.

Lemma contains_spec (sub s : text) :
  Text.contains sub s = true <-> exists pre rest, s = pre ++ sub ++ rest.
Proof.
  induction s as [|c s IH]; simpl.
  - destruct (Text.strip_prefix sub []) as [r|] eqn:Hp.
    + apply strip_prefix_Some in Hp. split; [|done]. intros _. by exists [], r.
    + split; [done|]. intros (pre & rest & Hs).
      destruct pre; [|done]. simpl in Hs.
      apply strip_prefix_Some in Hs. congruence.
  - destruct (Text.strip_prefix sub (c :: s)) as [r|] eqn:Hp.
    + apply strip_prefix_Some in Hp. split; [|done]. intros _. by exists [], r.
    + rewrite IH. split.
      * intros (pre & rest & ->). by exists (c :: pre), rest.
      * intros (pre & rest & Hs). destruct pre as [|c' pre].
        -- simpl in Hs. apply strip_prefix_Some in Hs. congruence.
        -- simpl in Hs. simplify_eq. by exists pre, rest.
Qed.

Lemma matches_at_contains (s : text) (i : nat) (g : text) :
  matches_at lit cls s i g -> Text.contains lit s = true.
Proof.
  intros (pre & rest & -> & _). apply contains_spec. by exists pre, (g ++ rest).
Qed.

End ReFacts.

(** ** The link extractor *)

Lemma extract_file_id_unfold (url : text) :
  extract_file_id url =
    match Re.search (txt "/file/d/") Re.idchar url with
    | Some g => Some g
    | None =>
        match Re.search (txt "id=") Re.idchar url with
        | Some g => Some g
        | None => Re.search (txt "/open?id=") Re.idchar url
        end
    end.
Proof.
  unfold extract_file_id, patterns, first_match.
  by repeat destruct (Re.search _ _ _).
Qed.

Lemma idchar_spec (c : ascii) :
  Re.idchar c = true <->
    (97 <= N_of_ascii c <= 122)%N \/ (65 <= N_of_ascii c <= 90)%N
    \/ (48 <= N_of_ascii c <= 57)%N \/ c = "_"%char \/ c = "-"%char.
Proof.
  unfold Re.idchar, Text.in_range.
  rewrite !orb_true_iff, !andb_true_iff, !N.leb_le, !Ascii.eqb_eq.
  change (N_of_ascii "a") with 97%N. change (N_of_ascii "z") with 122%N.
  change (N_of_ascii "A") with 65%N. change (N_of_ascii "Z") with 90%N.
  change (N_of_ascii "0") with 48%N. change (N_of_ascii "9") with 57%N.
  tauto.
Qed.

Lemma open_match_is_query_match (pre id rest : text) :
  id <> [] -> Forall (fun c => Re.idchar c = true) id ->
  (forall c r, rest = c :: r -> Re.idchar c = false) ->
  matches_at (txt "id=") Re.idchar (pre ++ txt "/open?id=" ++ id ++ rest)
    (length pre + 6) id.
Proof.
  intros Hne Hall Hrest. exists (pre ++ txt "/open?"), rest.
  split; [by rewrite <- app_assoc|].
  split; [by rewrite length_app|]. done.
Qed.

Lemma extract_file_id_group (url id : text) :
  extract_file_id url = Some id ->
  id <> [] /\ Forall (fun c => Re.idchar c = true) id.
Proof.
  rewrite extract_file_id_unfold. intros Hid.
  destruct (Re.search (txt "/file/d/") Re.idchar url) eqn:H1;
    [simplify_eq; by eapply search_group|].
  destruct (Re.search (txt "id=") Re.idchar url) eqn:H2;
    [simplify_eq; by eapply search_group|].
  by eapply search_group.
Qed.

Lemma extract_path_shape (url id : text) :
  leftmost (txt "/file/d/") Re.idchar url id -> extract_file_id url = Some id.
Proof.
  rewrite extract_file_id_unfold. intros Hid%search_Some. by rewrite Hid.
Qed.

Lemma extract_query_shape (url id : text) :
  unmatched (txt "/file/d/") Re.idchar url ->
  leftmost (txt "id=") Re.idchar url id ->
  extract_file_id url = Some id.
Proof.
  rewrite extract_file_id_unfold.
  intros Hno%search_None Hid%search_Some. by rewrite Hno, Hid.
Qed.

Lemma extract_open_shape (url pre id rest : text) :
  url = pre ++ txt "/open?id=" ++ id ++ rest ->
  id <> [] -> Forall (fun c => Re.idchar c = true) id ->
  (forall c r, rest = c :: r -> Re.idchar c = false) ->
  unmatched (txt "/file/d/") Re.idchar url ->
  (forall j g, (j < length pre + 6)%nat ->
               ~ matches_at (txt "id=") Re.idchar url j g) ->
  extract_file_id url = Some id.
Proof.
  intros -> Hne Hall Hrest Hno Hleft.
  apply extract_query_shape; [done|]. exists (length pre + 6)%nat.
  split; [by apply open_match_is_query_match | done].
Qed.

Lemma extract_None (url : text) :
  extract_file_id url = None
  <-> unmatched (txt "/file/d/") Re.idchar url
      /\ unmatched (txt "id=") Re.idchar url
      /\ unmatched (txt "/open?id=") Re.idchar url.
Proof.
  rewrite extract_file_id_unfold, <- !search_None.
  repeat destruct (Re.search _ _ _);
    (split; [intros ?|intros (? & ? & ?)]; by simplify_eq).
Qed.

(** A run of identifier characters after a prefix holds no match of a
    pattern whose literal starts with another character, once the
    offsets inside the prefix are checked. *)
Lemma unmatched_in_run (c : ascii) (l prefix run : text) :
  Re.idchar c = false ->
  Forall (fun c => Re.idchar c = true) run ->
  forallb (fun j => bool_decide
                      (Re.match_here (c :: l) Re.idchar (drop j (prefix ++ run))
                       = None))
    (seq 0 (length prefix)) = true ->
  unmatched (c :: l) Re.idchar (prefix ++ run).
Proof.
  intros Hc Hrun Hprefix i g Hm.
  destruct (decide (i < length prefix)%nat) as [Hlt|Hge].
  - by apply (unmatched_before _ _ _ _ Hprefix i g).
  - apply matches_at_drop in Hm. rewrite drop_app_ge in Hm by lia.
    destruct Hm as (pre & rest & Heq & Hlen & _).
    apply length_zero_iff_nil in Hlen as ->. simpl in Heq.
    assert (c ∈ run) as Hin.
    { apply (subseteq_drop (i - length prefix)). rewrite Heq. by left. }
    rewrite Forall_forall in Hrun. rewrite (Hrun c Hin) in Hc. done.
Qed.

(** The three shapes as the scripts write and meet them: the share link
    [upload_to_gdrive] builds, the open link, and the direct URL of
    [get_direct_download_url]. *)
Lemma extract_share_link (file_id rest : text) :
  file_id <> [] -> Forall (fun c => Re.idchar c = true) file_id ->
  (forall c r, rest = c :: r -> Re.idchar c = false) ->
  extract_file_id (txt "https://drive.google.com/file/d/" ++ file_id ++ rest)
  = Some file_id.
Proof.
  intros Hne Hall Hrest. apply extract_path_shape. exists 24%nat. split.
  - by exists (txt "https://drive.google.com"), rest.
  - apply unmatched_before. by vm_compute.
Qed.

Lemma extract_open_link (file_id : text) :
  file_id <> [] -> Forall (fun c => Re.idchar c = true) file_id ->
  extract_file_id (txt "https://drive.google.com/open?id=" ++ file_id)
  = Some file_id.
Proof.
  intros Hne Hall.
  apply (extract_open_shape _ (txt "https://drive.google.com") file_id []);
    [by rewrite app_nil_r | done | done | done | |].
  - apply unmatched_in_run; [done | done | by vm_compute].
  - apply unmatched_before. by vm_compute.
Qed.

Lemma extract_direct_url (file_id : text) :
  file_id <> [] -> Forall (fun c => Re.idchar c = true) file_id ->
  extract_file_id (get_direct_download_url file_id) = Some file_id.
Proof.
  intros Hne Hall. unfold get_direct_download_url.
  apply extract_query_shape.
  - apply unmatched_in_run; [done | done | by vm_compute].
  - exists 44%nat. split.
    + exists (txt "https://drive.google.com/uc?export=download&"), [].
      by rewrite app_nil_r.
    + apply unmatched_before. by vm_compute.
Qed.

(** C6. [extract_file_id] recognises the three link shapes in a fixed
    priority order.  A URL whose leftmost [/file/d/<id>] match carries
    [id] yields [id], whatever else it contains; a URL without such a
    match whose leftmost [id=<id>] match carries [id] yields [id]; a URL
    [pre/open?id=<id>rest] yields [id] when no [/file/d/] match exists and
    no [id=] match starts before the one of the open shape; the result is
    [None] exactly when none of the three shapes matches; every
    identifier returned is a non-empty run of letters, digits, [_] and
    [-].  In particular the share link, the open link and the direct
    download URL of the host yield the identifier they were built from,
    for every identifier. *)
Theorem extract_file_id_shapes :
  (forall url id,
     leftmost (txt "/file/d/") Re.idchar url id -> extract_file_id url = Some id)
  /\ (forall url id,
        unmatched (txt "/file/d/") Re.idchar url ->
        leftmost (txt "id=") Re.idchar url id ->
        extract_file_id url = Some id)
  /\ (forall url pre id rest,
        url = pre ++ txt "/open?id=" ++ id ++ rest ->
        id <> [] -> Forall (fun c => Re.idchar c = true) id ->
        (forall c r, rest = c :: r -> Re.idchar c = false) ->
        unmatched (txt "/file/d/") Re.idchar url ->
        (forall j g, (j < length pre + 6)%nat ->
                     ~ matches_at (txt "id=") Re.idchar url j g) ->
        extract_file_id url = Some id)
  /\ (forall url,
        extract_file_id url = None
        <-> unmatched (txt "/file/d/") Re.idchar url
            /\ unmatched (txt "id=") Re.idchar url
            /\ unmatched (txt "/open?id=") Re.idchar url)
  /\ (forall url id,
        extract_file_id url = Some id ->
        id <> []
        /\ Forall (fun c =>
             (97 <= N_of_ascii c <= 122)%N \/ (65 <= N_of_ascii c <= 90)%N
             \/ (48 <= N_of_ascii c <= 57)%N \/ c = "_"%char \/ c = "-"%char) id)
  /\ (forall id rest,
        id <> [] -> Forall (fun c => Re.idchar c = true) id ->
        (forall c r, rest = c :: r -> Re.idchar c = false) ->
        extract_file_id (txt "https://drive.google.com/file/d/" ++ id ++ rest)
        = Some id)
  /\ (forall id,
        id <> [] -> Forall (fun c => Re.idchar c = true) id ->
        extract_file_id (txt "https://drive.google.com/open?id=" ++ id) = Some id
        /\ extract_file_id
             (txt "https://drive.google.com/uc?export=download&id=" ++ id)
           = Some id).
Proof.
  split; [exact extract_path_shape|].
  split; [exact extract_query_shape|].
  split; [exact extract_open_shape|].
  split; [exact extract_None|].
  split; [|split; [exact extract_share_link|]].
  - intros url id [Hne Hall]%extract_file_id_group.
    split; [done|]. eapply Forall_impl; [exact Hall|].
    intros c Hc. by apply idchar_spec.
  - intros id Hne Hall. split; [by apply extract_open_link|].
    by apply extract_direct_url.
Qed.

(** ** The fetcher *)

Lemma too_large_iff (content : text) (max_size_gb : Q) :
  too_large content max_size_gb = true
  <-> (max_size_bytes max_size_gb < size_bytes content)%Q.
Proof.
  unfold too_large, file_size_mb, max_size_mb, max_size_bytes, size_bytes.
  rewrite negb_true_iff, <- not_true_iff_false, Qle_bool_iff.
  set (n := inject_Z (Z.of_nat (length content))).
  change (inject_Z (1024 * 1024)) with (1048576 # 1)%Q.
  change (inject_Z 1024) with (1024 # 1)%Q.
  change (inject_Z (2 ^ 30)) with (1073741824 # 1)%Q.
  split.
  - intros H. apply Qnot_le_lt. intros Hle. apply H.
    apply Qle_shift_div_r; [reflexivity|]. lra.
  - intros Hlt Hle. apply (Qlt_not_le _ _ Hlt).
    apply (Qmult_le_compat_r _ _ (1048576 # 1)) in Hle; [|discriminate].
    unfold Qdiv in Hle. rewrite <- Qmult_assoc in Hle.
    rewrite (Qmult_comm (/ _)), Qmult_inv_r, Qmult_1_r in Hle by discriminate.
    lra.
Qed.

Section FetcherFacts.

Variable urlopen : world -> request -> response.
Variable curl : world -> list text -> curl_outcome.
Variable platform_system : text.

Lemma fetch_content_frame (w : world) (direct_url : text) :
  let w' := (fetch_content urlopen w direct_url).2 in
  download_path w' = download_path w /\ session_files w' = session_files w
  /\ files w' = files w /\ curl_runs w' = curl_runs w /\ log w' = log w.
Proof. unfold fetch_content. by repeat case_match. Qed.

Lemma file_exists_false (w : world) (p : path) :
  file_exists w p = false <-> files w !! p = None.
Proof.
  unfold file_exists. rewrite bool_decide_eq_false, <- eq_None_not_Some. done.
Qed.

Lemma file_exists_true (w : world) (p : path) :
  file_exists w p = true <-> is_Some (files w !! p).
Proof. unfold file_exists. by rewrite bool_decide_eq_true. Qed.

(** C2. [download_file] never leaves at the destination a payload
    larger than the cap: it either leaves the files as they were or
    adds the destination with a content of at most [max_size_bytes]
    bytes.  When the content handed to the size check is larger than
    the cap, the result is [None], no file is written and the last log
    record is the size-limit error; a content of exactly the cap (or
    less) is written to the destination. *)
Theorem download_file_size_cap (w : world) (url output_name : text)
    (max_size_gb : Q) :
  let output_file := Path.child (download_path w) output_name in
  let r := download_file urlopen w url output_name max_size_gb in
  (files r.2 = files w
   \/ exists content,
        files r.2 = <[output_file := content]> (files w)
        /\ (size_bytes content <= max_size_bytes max_size_gb)%Q
        /\ r.1 = Some output_file)
  /\ forall file_id content w1,
       extract_file_id url = Some file_id ->
       file_exists w output_file = false ->
       fetch_content urlopen (announced w output_name file_id)
         (get_direct_download_url file_id) = (Body content, w1) ->
       ((max_size_bytes max_size_gb < size_bytes content)%Q ->
          r.1 = None /\ files r.2 = files w
          /\ log r.2 =
               log w1 ++ [(ERROR, FileTooLarge (length content) max_size_gb)])
       /\ ((size_bytes content <= max_size_bytes max_size_gb)%Q ->
             r.1 = Some output_file
             /\ files r.2 = <[output_file := content]> (files w)).
Proof.
  intros output_file r. subst r. unfold download_file.
  fold output_file.
  destruct (extract_file_id url) as [[|c id]|] eqn:Hid.
  { apply extract_file_id_group in Hid as [[] _]. done. }
  2:{ split; [by left|]. intros; discriminate. }
  destruct (file_exists w output_file) eqn:Hex.
  { split; [by left|]. intros; discriminate. }
  fold (announced w output_name (c :: id)).
  pose proof (fetch_content_frame (announced w output_name (c :: id))
                (get_direct_download_url (c :: id))) as Hframe.
  destruct (fetch_content urlopen (announced w output_name (c :: id))
              (get_direct_download_url (c :: id))) as [resp w1] eqn:Hfetch.
  simpl in Hframe. destruct Hframe as (Hdp & _ & Hfiles & _ & _).
  split.
  - destruct resp as [content|code|]; simpl.
    + destruct (too_large content max_size_gb) eqn:Hlarge; simpl.
      * by left.
      * right. exists content. rewrite Hfiles. split; [done|]. split; [|done].
        apply Qnot_lt_le. intros Hlt%too_large_iff. congruence.
    + left. by case_match.
    + by left.
  - intros file_id content w1' [= <-] _ Hf.
    rewrite Hfetch in Hf. injection Hf as -> <-. split.
    + intros Hlt%too_large_iff. rewrite Hlt. simpl. by rewrite Hfiles.
    + intros Hle.
      destruct (too_large content max_size_gb) eqn:Hlarge.
      * apply too_large_iff in Hlarge. by apply Qlt_not_le in Hlarge.
      * simpl. by rewrite Hfiles.
Qed.

Lemma download_file_miss (w : world) (url output_name : text)
    (max_size_gb : Q) (file_id : text) :
  let output_file := Path.child (download_path w) output_name in
  extract_file_id url = Some file_id ->
  file_exists w output_file = false ->
  download_file urlopen w url output_name max_size_gb
  = finish url output_file max_size_gb
      (fetch_content urlopen (announced w output_name file_id)
         (get_direct_download_url file_id)).
Proof.
  intros output_file Hid Hex. unfold download_file. fold output_file.
  rewrite Hid, Hex.
  destruct file_id as [|c id]; [|done].
  apply extract_file_id_group in Hid as [[] _]. done.
Qed.

Lemma download_file_Some (w w1 : world) (url output_name : text)
    (max_size_gb : Q) (p : path) :
  download_file urlopen w url output_name max_size_gb = (Some p, w1) ->
  p = Path.child (download_path w) output_name
  /\ download_path w1 = download_path w
  /\ is_Some (files w1 !! p)
  /\ is_Some (extract_file_id url).
Proof.
  unfold download_file.
  destruct (extract_file_id url) as [[|c id]|] eqn:Hid; [done| |done].
  destruct (file_exists w _) eqn:Hex.
  { intros [= <- <-]. by apply file_exists_true in Hex. }
  pose proof (fetch_content_frame (announced w output_name (c :: id))
                (get_direct_download_url (c :: id))) as Hframe.
  fold (announced w output_name (c :: id)).
  destruct (fetch_content urlopen _ _) as [resp wf].
  simpl in Hframe. destruct Hframe as (Hdp & _ & Hfiles & _ & _).
  destruct resp as [content|code|]; [|by case_match|done].
  destruct (too_large content max_size_gb); [done|].
  intros [= <- <-]. simpl. by rewrite lookup_insert_eq.
Qed.

Lemma download_with_curl_Some (w w1 : world) (url output_name : text)
    (p : path) :
  download_with_curl urlopen curl platform_system w url output_name
    = (Some p, w1) ->
  p = Path.child (download_path w) output_name
  /\ download_path w1 = download_path w
  /\ is_Some (files w1 !! p)
  /\ is_Some (extract_file_id url).
Proof.
  unfold download_with_curl.
  destruct (extract_file_id url) as [[|c id]|] eqn:Hid; [done| |done].
  destruct (file_exists w _) eqn:Hex.
  { intros [= <- <-]. by apply file_exists_true in Hex. }
  destruct (curl _ _) as [rc stderr written| |]; [| |done].
  - destruct (rc =? 0)%Z, written as [content|]; simpl.
    + rewrite lookup_insert_eq. intros [= <- <-]. simpl.
      by rewrite lookup_insert_eq.
    + apply file_exists_false in Hex. rewrite Hex. done.
    + rewrite lookup_insert_eq. done.
    + by case_match.
  - intros Hdl. apply download_file_Some in Hdl. by rewrite Hid in Hdl.
Qed.

Lemma cache_hit (w : world) (url output_name : text) (max_size_gb : Q) :
  is_Some (extract_file_id url) ->
  file_exists w (Path.child (download_path w) output_name) = true ->
  let output_file := Path.child (download_path w) output_name in
  download_file urlopen w url output_name max_size_gb
    = (Some output_file, logged INFO (FileAlreadyExists output_file) w)
  /\ download_with_curl urlopen curl platform_system w url output_name
     = (Some output_file, logged INFO (FileAlreadyExists output_file) w).
Proof.
  intros [id Hid] Hex. unfold download_file, download_with_curl.
  rewrite Hid, Hex. destruct id as [|c id]; [|done].
  apply extract_file_id_group in Hid as [[] _]. done.
Qed.

(** C1 (as amended). For a link from which an identifier can be
    extracted, a file that already exists at the destination is
    returned as it is by [download_file] and by [download_with_curl]:
    only a log record is added, so no request is sent, no process is
    run and no file changes.  Hence, after either of them has returned
    an artifact, a second call with the same link and destination
    returns the same artifact without request, process or change of a
    file.  For a link without identifier both return [None], whether or
    not the file exists, again without request, process or change. *)
Theorem fetch_idempotent (w : world) (url output_name : text)
    (max_size_gb : Q) :
  let output_file := Path.child (download_path w) output_name in
  let hit w := (Some output_file, logged INFO (FileAlreadyExists output_file) w) in
  (is_Some (extract_file_id url) -> file_exists w output_file = true ->
     download_file urlopen w url output_name max_size_gb = hit w
     /\ download_with_curl urlopen curl platform_system w url output_name
        = hit w)
  /\ (forall p w1,
        download_file urlopen w url output_name max_size_gb = (Some p, w1)
        \/ download_with_curl urlopen curl platform_system w url output_name
           = (Some p, w1) ->
        p = output_file
        /\ (forall max_size_gb',
              download_file urlopen w1 url output_name max_size_gb' = hit w1)
        /\ download_with_curl urlopen curl platform_system w1 url output_name
           = hit w1
        /\ files (hit w1).2 = files w1
        /\ requests (hit w1).2 = requests w1
        /\ curl_runs (hit w1).2 = curl_runs w1)
  /\ (extract_file_id url = None ->
        download_file urlopen w url output_name max_size_gb
          = (None, logged ERROR (CouldNotExtractFileId url) w)
        /\ download_with_curl urlopen curl platform_system w url output_name
           = (None, w)).
Proof.
  intros output_file hit. split; [|split].
  - intros Hid Hex. by apply cache_hit.
  - intros p w1 Hfirst.
    assert (p = output_file /\ download_path w1 = download_path w
            /\ is_Some (files w1 !! p) /\ is_Some (extract_file_id url))
      as (-> & Hdp & Hfile & Hid).
    { destruct Hfirst as [H|H];
        [by apply download_file_Some in H
        |by apply download_with_curl_Some in H]. }
    assert (file_exists w1 (Path.child (download_path w1) output_name) = true)
      as Hex by (rewrite Hdp; by apply file_exists_true).
    subst hit output_file. simpl. rewrite <- Hdp.
    split; [done|]. split; [|split; [|done]].
    + intros gb'. by apply cache_hit.
    + by apply cache_hit.
  - intros Hid. unfold download_file, download_with_curl. by rewrite Hid.
Qed.

(** The confirmation step of [download_file], for every first body.
    When a confirmation token can be extracted from it (the leftmost
    match of [confirm=<token>]), a second GET is sent to the direct URL
    with [&confirm=<token>] appended, and its answer decides the
    outcome: a body is the payload that is size-checked and written, a
    failure writes nothing.  When no token can be extracted, also on a
    body in which the interstitial page was detected, no second request
    is sent and the first body is the payload. *)
Theorem confirmation_handshake (w : world) (url output_name : text)
    (max_size_gb : Q) (file_id body : text) :
  let output_file := Path.child (download_path w) output_name in
  let direct_url := get_direct_download_url file_id in
  let request1 := Request direct_url user_agent_full in
  let w0 := announced w output_name file_id in
  let r := download_file urlopen w url output_name max_size_gb in
  let stored content :=
    if too_large content max_size_gb
    then r.1 = None /\ files r.2 = files w
    else r.1 = Some output_file
         /\ files r.2 = <[output_file := content]> (files w) in
  extract_file_id url = Some file_id ->
  file_exists w output_file = false ->
  urlopen w0 request1 = Body body ->
  (forall token, leftmost (txt "confirm=") Re.idchar body token ->
     let request2 :=
       Request (direct_url ++ txt "&confirm=" ++ token) user_agent_short in
     requests r.2 = requests w ++ [request1; request2]
     /\ match urlopen (requested request1 w0) request2 with
        | Body body2 => stored body2
        | _ => r.1 = None /\ files r.2 = files w
        end)
  /\ (unmatched (txt "confirm=") Re.idchar body ->
        requests r.2 = requests w ++ [request1] /\ stored body).
Proof.
  intros output_file direct_url request1 w0 r stored Hid Hex Hbody.
  assert (r = finish url output_file max_size_gb
                (fetch_content urlopen w0 direct_url)) as Hr.
  { subst r. by apply download_file_miss. }
  clearbody r. subst r.
  assert (forall fetched, files fetched.2 = files w ->
            match fetched.1 with
            | Body content =>
                let r := finish url output_file max_size_gb fetched in
                if too_large content max_size_gb
                then r.1 = None /\ files r.2 = files w
                else r.1 = Some output_file
                     /\ files r.2 = <[output_file := content]> (files w)
            | _ =>
                let r := finish url output_file max_size_gb fetched in
                r.1 = None /\ files r.2 = files w
            end) as Hfinish.
  { intros [[content|code|] w1] Hw1; simpl in *.
    - destruct (too_large content max_size_gb); simpl; by rewrite Hw1.
    - by case_match.
    - done. }
  assert (forall fetched, requests (finish url output_file max_size_gb fetched).2
                          = requests fetched.2) as Hrequests.
  { intros [[content|code|] w1]; simpl; by repeat case_match. }
  subst stored. cbv beta. split.
  - intros token Htoken request2.
    assert (fetch_content urlopen w0 direct_url
            = (urlopen (requested request1 w0) request2,
               requested request2 (requested request1 w0))) as ->.
    { unfold fetch_content. fold request1. rewrite Hbody.
      assert (Text.contains (txt "confirm=") body = true) as ->.
      { destruct Htoken as (i & Hm & _). by eapply matches_at_contains. }
      apply search_Some in Htoken. by rewrite Htoken. }
    rewrite Hrequests. split; [cbn; by rewrite <- app_assoc|].
    pose proof (Hfinish (urlopen (requested request1 w0) request2,
                         requested request2 (requested request1 w0))
                  eq_refl) as Hf.
    cbn [fst] in Hf. by destruct (urlopen (requested request1 w0) request2).
  - intros Hno%search_None.
    assert (fetch_content urlopen w0 direct_url
            = (Body body, requested request1 w0)) as ->.
    { unfold fetch_content. fold request1. rewrite Hbody, Hno.
      by case_match. }
    rewrite Hrequests. split; [done|].
    exact (Hfinish (Body body, requested request1 w0) eq_refl).
Qed.

(** C10. When the curl process has run and has exited with a non-zero
    status or has left no destination file, [download_with_curl]
    returns [None] after logging the failure, and no file exists at the
    destination afterwards: the files are those from before the call,
    so the fallback [download_file] starts from a clean destination. *)
Theorem curl_failure_cleans_up (w : world) (url output_name : text)
    (file_id : text) (returncode : Z) (stderr : text)
    (written : option text) :
  let output_file := Path.child (download_path w) output_name in
  let r := download_with_curl urlopen curl platform_system w url output_name in
  extract_file_id url = Some file_id ->
  file_exists w output_file = false ->
  curl (logged INFO (DownloadingWithCurl output_name) w)
       (curl_command platform_system output_file file_id)
    = CurlExit returncode stderr written ->
  returncode <> 0%Z \/ written = None ->
  r.1 = None
  /\ files r.2 !! output_file = None
  /\ files r.2 = files w
  /\ file_exists r.2 (Path.child (download_path r.2) output_name) = false
  /\ last (log r.2) = Some (ERROR, CurlDownloadFailed stderr).
Proof.
  intros output_file r Hid Hex Hcurl Hfail. subst r.
  unfold download_with_curl. fold output_file. rewrite Hid, Hex.
  destruct file_id as [|c id];
    [apply extract_file_id_group in Hid as [[] _]; done|].
  rewrite Hcurl. apply file_exists_false in Hex.
  assert (forall w' : world,
            files w' = files w -> download_path w' = download_path w ->
            files w' !! output_file = None
            /\ files w' = files w
            /\ file_exists w' (Path.child (download_path w') output_name)
               = false) as Hclean.
  { intros w' Hf Hd. rewrite Hd. fold output_file.
    rewrite file_exists_false, Hf. done. }
  destruct written as [content|]; simpl.
  - rewrite lookup_insert_eq.
    destruct Hfail as [Hrc|]; [|done].
    apply Z.eqb_neq in Hrc. rewrite Hrc. simpl.
    split; [done|]. rewrite last_snoc.
    rewrite delete_insert_id by done.
    pose proof (Hclean (with_files (files w) w) eq_refl eq_refl) as (? & ? & ?).
    done.
  - rewrite Hex. destruct (returncode =? 0)%Z; simpl;
      rewrite last_snoc; pose proof (Hclean w eq_refl eq_refl) as (? & ? & ?);
      done.
Qed.

End FetcherFacts.

(** ** The two discoveries *)

Section DiscoveryFacts.

Variable project_path : path.

Lemma rglob_elem (d : disk) (search_path : path) (name : text) (f : path) :
  f ∈ rglob d search_path name
  <-> is_Some (d !! f) /\ search_path `prefix_of` f
      /\ last f = Some name /\ (length search_path < length f)%nat.
Proof.
  unfold rglob, Path.under. rewrite list_elem_of_filter, bool_decide_eq_true.
  assert (f ∈ (map_to_list d).*1 <-> is_Some (d !! f)) as ->; [|tauto].
  rewrite list_elem_of_fmap. split.
  - intros ([k v] & -> & Hin). apply elem_of_map_to_list in Hin. by eexists.
  - intros [v Hv]. exists (f, v). split; [done|]. by apply elem_of_map_to_list.
Qed.

Lemma rglob_dir_exists (d : disk) (search_path : path) (name : text)
    (f : path) :
  f ∈ rglob d search_path name -> dir_exists d search_path = true.
Proof.
  unfold rglob, dir_exists. rewrite list_elem_of_filter.
  intros [(Hunder & _) Hin]. apply existsb_exists. exists f.
  split; [by apply list_elem_of_In | done].
Qed.

Lemma pointer_files_elem (d : disk) (f : path) :
  f ∈ pointer_files project_path d
  <-> is_Some (d !! f) /\ last f = Some pointer_name
      /\ exists search_path,
           search_path ∈ search_paths project_path
           /\ search_path `prefix_of` f
           /\ (length search_path < length f)%nat.
Proof.
  unfold pointer_files. rewrite list_elem_of_In, in_flat_map. split.
  - intros (sp & Hsp%list_elem_of_In & Hf%list_elem_of_In).
    destruct (dir_exists d sp); [|by apply not_elem_of_nil in Hf].
    apply rglob_elem in Hf as (? & ? & ? & ?). eauto 10.
  - intros (Hd & Hlast & sp & Hsp & Hpre & Hlen). exists sp.
    split; [by apply list_elem_of_In|].
    assert (f ∈ rglob d sp pointer_name) as Hf by by apply rglob_elem.
    rewrite (rglob_dir_exists _ _ _ _ Hf). by apply list_elem_of_In.
Qed.

Lemma find_packages_to_sync_unfold (d : disk) :
  find_packages_to_sync project_path d
  = mapM (package_of d) (pointer_files project_path d).
Proof. done. Qed.

Lemma flat_map_fst_map {A B C} (g : A -> list B * list C) (l : list A) :
  flat_map fst (map g l) = flat_map (fun x => (g x).1) l.
Proof. induction l as [|x l IH]; simpl; by f_equal. Qed.

Lemma find_download_instructions_unfold (d : disk) :
  (find_download_instructions project_path d).1
  = flat_map (fun f => (instruction_of project_path d f).1)
      (pointer_files project_path d).
Proof.
  unfold find_download_instructions, pointer_files, search_paths. simpl.
  rewrite !app_nil_r, !flat_map_app.
  f_equal; case_match; simpl; by rewrite ?flat_map_fst_map.
Qed.

Lemma package_path_is_Some (f : path) :
  is_Some (package_path f) <-> is_Some (package_name f).
Proof.
  unfold package_path, package_name. repeat case_match; split; by eauto.
Qed.

Lemma package_of_Some (d : disk) (f : path) (name : text) :
  package_name f = Some name ->
  exists path,
    package_path f = Some path
    /\ package_of d f = Some (Package name path f (_has_drive_link d f)).
Proof.
  intros Hname.
  destruct (proj2 (package_path_is_Some f)) as [path Hpath]; [by eexists|].
  exists path. split; [done|]. unfold package_of. by rewrite Hname, Hpath.
Qed.

Lemma package_of_None (d : disk) (f : path) :
  package_name f = None -> package_of d f = None.
Proof. intros Hname. unfold package_of. by rewrite Hname. Qed.

Lemma package_of_fields (d : disk) (f : path) (p : package) :
  package_of d f = Some p ->
  package_name f = Some (p_name p) /\ p_instructions_file p = f
  /\ p_has_link p = _has_drive_link d f.
Proof.
  unfold package_of. destruct (package_name f); [|done].
  destruct (package_path f); [|done]. by intros [= <-].
Qed.

Lemma sync_names (d : disk) (l : list path) :
  map p_name <$> mapM (package_of d) l = mapM package_name l.
Proof.
  induction l as [|f l IH]; [done|]. simpl.
  destruct (package_name f) as [name|] eqn:Hname.
  - destruct (package_of_Some d f name Hname) as (path & _ & ->). simpl.
    rewrite <- IH. by destruct (mapM (package_of d) l).
  - by rewrite package_of_None.
Qed.

Lemma download_names (d : disk) (l : list path) :
  map i_name (flat_map (fun f => (instruction_of project_path d f).1) l)
  = omap (fun f => if linked d f then package_name f else None) l.
Proof.
  induction l as [|f l IH]; [done|]. simpl. rewrite map_app, IH.
  unfold instruction_of, linked.
  destruct (d !! f) as [[content|]|]; [|done..].
  destruct (first_drive_link content) as [url|]; [|done]. simpl.
  by destruct (package_name f).
Qed.

End DiscoveryFacts.

Section DiscoveryClaims.

Variable project_path : path.

Lemma search_paths_disjoint (f : path) :
  packages_path project_path `prefix_of` f ->
  audio_path project_path `prefix_of` f -> False.
Proof.
  unfold packages_path, audio_path. intros [k1 H1] [k2 H2].
  rewrite H1 in H2. rewrite <- !app_assoc in H2.
  apply app_inv_head in H2. simpl in H2. by simplify_eq.
Qed.

Lemma pointer_files_NoDup (d : disk) : NoDup (pointer_files project_path d).
Proof.
  unfold pointer_files, search_paths. simpl. rewrite app_nil_r.
  assert (forall sp, NoDup (rglob d sp pointer_name)) as Hnodup.
  { intros sp. unfold rglob. apply NoDup_filter, NoDup_fst_map_to_list. }
  apply NoDup_app. repeat split.
  - case_match; [done | constructor].
  - intros f Hf1 Hf2. repeat case_match; try by apply not_elem_of_nil in Hf2.
    all: try by apply not_elem_of_nil in Hf1.
    apply rglob_elem in Hf1 as (_ & Hp1 & _), Hf2 as (_ & Hp2 & _).
    by eapply search_paths_disjoint.
  - case_match; [done | constructor].
Qed.

(** C5 (as amended). Neither discovery deduplicates.  The names of the
    records [find_packages_to_sync] returns are, in order, the
    canonical names of the pointer files under the Packages root
    followed by those under the Audio root; those of
    [find_download_instructions] are the names of the files among them
    that can be read and hold a link.  Each pointer file is listed
    once, so a canonical name appears once for every pointer file that
    carries it. *)
Theorem discovery_names (d : disk) :
  map p_name <$> find_packages_to_sync project_path d
    = mapM package_name (pointer_files project_path d)
  /\ map i_name (find_download_instructions project_path d).1
     = omap (fun f => if linked d f then package_name f else None)
         (pointer_files project_path d)
  /\ NoDup (pointer_files project_path d).
Proof.
  split; [|split].
  - rewrite find_packages_to_sync_unfold. apply sync_names.
  - rewrite find_download_instructions_unfold. apply download_names.
  - apply pointer_files_NoDup.
Qed.

Lemma sync_records (d : disk) (l : list path) :
  (forall f, f ∈ l -> is_Some (package_name f)) ->
  exists ps,
    mapM (package_of d) l = Some ps
    /\ map p_instructions_file ps = l
    /\ map p_has_link ps = map (_has_drive_link d) l
    /\ mapM package_name l = Some (map p_name ps).
Proof.
  induction l as [|f l IH]; intros Hall; [by exists []|].
  destruct IH as (ps & Hps & Hfiles & Hlinks & Hnames).
  { intros f' Hf'. apply Hall. by right. }
  destruct (Hall f) as [name Hname]; [by left|].
  destruct (package_of_Some d f name Hname) as (path & _ & Hp).
  exists (Package name path f (_has_drive_link d f) :: ps).
  simpl. rewrite Hp, Hps, Hname, Hnames. simpl. by rewrite Hfiles, Hlinks.
Qed.

Lemma instruction_of_elem (d : disk) (f : path) (i : instruction) :
  i ∈ (instruction_of project_path d f).1
  <-> exists content url name,
        d !! f = Some (Some content)
        /\ first_drive_link content = Some url
        /\ package_name f = Some name
        /\ i = Instruction name (Path.str f) url
                 (Path.str (relative_to_project project_path f)).
Proof.
  unfold instruction_of. split.
  - destruct (d !! f) as [[content|]|] eqn:Hf; simpl;
      [|by intros ?%not_elem_of_nil..].
    destruct (first_drive_link content) as [url|] eqn:Hurl; simpl;
      [|by intros ?%not_elem_of_nil].
    destruct (package_name f) as [name|] eqn:Hname; simpl;
      [|by intros ?%not_elem_of_nil].
    intros ->%list_elem_of_singleton. by exists content, url, name.
  - intros (content & url & name & -> & -> & -> & ->). simpl.
    by apply list_elem_of_singleton.
Qed.

Lemma full_link_mentions_host (content url : text) :
  first_drive_link content = Some url ->
  Text.contains (txt "drive.google.com") content = true.
Proof.
  unfold first_drive_link.
  destruct (Re.search drive_pattern Re.nonspace content) as [g|] eqn:Hg;
    [|done].
  intros _. apply search_Some in Hg as (i & (pre & rest & -> & _) & _).
  apply contains_spec.
  exists (pre ++ txt "https://"), (txt "/" ++ g ++ rest).
  unfold drive_pattern.
  change (txt "https://drive.google.com/")
    with (txt "https://" ++ txt "drive.google.com" ++ txt "/").
  by rewrite <- !app_assoc.
Qed.

Lemma has_link_count (ps : list package) :
  length (filter (fun p => p_has_link p = true) ps)
  = length (filter (fun b : bool => b = true) (map p_has_link ps)).
Proof.
  induction ps as [|p ps IH]; [done|].
  cbn [map]. rewrite !filter_cons.
  destruct (p_has_link p).
  - rewrite !decide_True by done. cbn [length]. by rewrite IH.
  - rewrite !decide_False by done. exact IH.
Qed.

Lemma has_drive_link_spec (d : disk) (f : path) :
  _has_drive_link d f = true
  <-> exists content pre rest,
        d !! f = Some (Some content)
        /\ content = pre ++ txt "drive.google.com" ++ rest.
Proof.
  unfold _has_drive_link. split.
  - destruct (d !! f) as [[content|]|]; [|done..].
    intros (pre & rest & ->)%contains_spec. by eexists _, pre, rest.
  - intros (content & pre & rest & -> & ->). apply contains_spec. eauto.
Qed.

(** The two discoveries on roots with two pointer files, one of which
    holds a full link. *)
Lemma two_pointer_files (d : disk) (fl fn : path) (content url : text) :
  pointer_files project_path d = [fl; fn]
  \/ pointer_files project_path d = [fn; fl] ->
  is_Some (package_name fl) -> is_Some (package_name fn) ->
  d !! fl = Some (Some content) -> first_drive_link content = Some url ->
  exists ps,
    find_packages_to_sync project_path d = Some ps
    /\ length ps = 2%nat
    /\ length (filter (fun p => p_has_link p = true) ps)
       = (if _has_drive_link d fn then 2 else 1)%nat
    /\ length (find_download_instructions project_path d).1
       = match d !! fn with
         | Some (Some other) =>
             if first_drive_link other then 2%nat else 1%nat
         | _ => 1%nat
         end.
Proof.
  intros Hfiles [namel Hnamel] [namen Hnamen] Hfl Hurl.
  assert (forall f, f ∈ pointer_files project_path d -> is_Some (package_name f))
    as Hall.
  { intros f Hf.
    assert (f = fl \/ f = fn) as [->| ->]; [|by eexists..].
    destruct Hfiles as [Hfiles|Hfiles]; rewrite Hfiles in Hf;
      apply elem_of_cons in Hf as [?|Hf]; auto;
      apply list_elem_of_singleton in Hf; auto. }
  destruct (sync_records d _ Hall) as (ps & Hps & Hpaths & Hhas & _).
  exists ps. rewrite find_packages_to_sync_unfold. split; [done|].
  assert (_has_drive_link d fl = true) as Hlinked.
  { unfold _has_drive_link. rewrite Hfl.
    by eapply full_link_mentions_host. }
  assert ((instruction_of project_path d fl).1
          = [Instruction namel (Path.str fl) url
               (Path.str (relative_to_project project_path fl))]) as Hil.
  { unfold instruction_of. by rewrite Hfl, Hurl, Hnamel. }
  assert (length (instruction_of project_path d fn).1
          = match d !! fn with
            | Some (Some other) =>
                if first_drive_link other then 1%nat else 0%nat
            | _ => 0%nat
            end) as Hin.
  { unfold instruction_of. destruct (d !! fn) as [[other|]|]; [|done..].
    destruct (first_drive_link other); [|done]. by rewrite Hnamen. }
  split; [|split].
  - rewrite <- (length_map p_instructions_file), Hpaths.
    by destruct Hfiles as [-> | ->].
  - rewrite has_link_count, Hhas.
    destruct Hfiles as [-> | ->]; cbn [map]; rewrite !filter_cons, Hlinked;
      destruct (_has_drive_link d fn); done.
  - rewrite find_download_instructions_unfold.
    destruct Hfiles as [-> | ->]; cbn [flat_map];
      rewrite app_nil_r, length_app, Hil, Hin;
      destruct (d !! fn) as [[other|]|]; try done;
      by destruct (first_drive_link other).
Qed.

(** C8 (as amended). When every pointer file can be named,
    [find_packages_to_sync] returns exactly one record per pointer file
    under the two roots, in order, whether the file can be read or
    not; the record carries no link field, and its [has_link] is true
    exactly when the file can be read and its text contains the host
    name [drive.google.com], full link or not.
    [find_download_instructions] returns a record exactly for the
    pointer files that can be read, hold a full link and can be named.
    On roots with two pointer files, one of which holds a full link:
    when the other does not mention the host (or cannot be read), sync
    discovery returns two records of which exactly one has [has_link],
    and download discovery one record; when the other mentions the host
    without a full link, both records of sync discovery have
    [has_link], and download discovery still returns one record.  The
    pointer files are the files of the disk called
    [DownloadInstructions.txt] below one of the two roots. *)
Theorem discovery_records :
  (forall d,
     (forall f, f ∈ pointer_files project_path d -> is_Some (package_name f)) ->
     exists ps,
       find_packages_to_sync project_path d = Some ps
       /\ map p_instructions_file ps = pointer_files project_path d
       /\ map p_has_link ps
          = map (_has_drive_link d) (pointer_files project_path d)
       /\ forall p,
            p ∈ ps ->
            (p_has_link p = true
             <-> exists content pre rest,
                   d !! p_instructions_file p = Some (Some content)
                   /\ content = pre ++ txt "drive.google.com" ++ rest))
  /\ (forall d i,
        i ∈ (find_download_instructions project_path d).1
        <-> exists f content url name,
              f ∈ pointer_files project_path d
              /\ d !! f = Some (Some content)
              /\ first_drive_link content = Some url
              /\ package_name f = Some name
              /\ i = Instruction name (Path.str f) url
                       (Path.str (relative_to_project project_path f)))
  /\ (forall d fl fn content url,
        pointer_files project_path d = [fl; fn]
        \/ pointer_files project_path d = [fn; fl] ->
        is_Some (package_name fl) -> is_Some (package_name fn) ->
        d !! fl = Some (Some content) -> first_drive_link content = Some url ->
        exists ps,
          find_packages_to_sync project_path d = Some ps
          /\ length ps = 2%nat
          /\ ((forall other,
                 d !! fn = Some (Some other) ->
                 Text.contains (txt "drive.google.com") other = false) ->
              length (filter (fun p => p_has_link p = true) ps) = 1%nat
              /\ length (find_download_instructions project_path d).1 = 1%nat)
          /\ (forall other,
                d !! fn = Some (Some other) ->
                Text.contains (txt "drive.google.com") other = true ->
                first_drive_link other = None ->
                length (filter (fun p => p_has_link p = true) ps) = 2%nat
                /\ length (find_download_instructions project_path d).1
                   = 1%nat))
  /\ (forall d f,
        f ∈ pointer_files project_path d
        <-> is_Some (d !! f) /\ last f = Some pointer_name
            /\ exists search_path,
                 search_path ∈ search_paths project_path
                 /\ search_path `prefix_of` f
                 /\ (length search_path < length f)%nat).
Proof.
  split; [|split; [|split; [|exact (pointer_files_elem project_path)]]].
  - intros d Hall. rewrite find_packages_to_sync_unfold.
    destruct (sync_records d _ Hall) as (ps & Hps & Hpaths & Hhas & _).
    exists ps. split; [done|]. split; [done|]. split; [done|].
    intros p Hp. rewrite <- has_drive_link_spec.
    apply list_elem_of_lookup in Hp as [n Hn].
    assert (map p_has_link ps !! n = Some (p_has_link p)) as Hleft
      by (by rewrite list_lookup_fmap, Hn).
    rewrite Hhas, <- Hpaths, !list_lookup_fmap, Hn in Hleft.
    cbn in Hleft. injection Hleft as <-. done.
  - intros d i. rewrite find_download_instructions_unfold.
    rewrite list_elem_of_In, in_flat_map. split.
    + intros (f & Hf%list_elem_of_In & Hi%list_elem_of_In).
      apply instruction_of_elem in Hi
        as (content & url & name & H1 & H2 & H3 & H4).
      by exists f, content, url, name.
    + intros (f & content & url & name & Hf & Hrest). exists f.
      split; [by apply list_elem_of_In|]. apply list_elem_of_In.
      apply instruction_of_elem. by exists content, url, name.
  - intros d fl fn content url Hfiles Hnamel Hnamen Hfl Hurl.
    destruct (two_pointer_files d fl fn content url Hfiles Hnamel Hnamen Hfl Hurl)
      as (ps & Hps & Hlen & Hcount & Hdown).
    exists ps. split; [done|]. split; [done|]. split.
    + intros Hbare. rewrite Hcount, Hdown.
      unfold _has_drive_link. destruct (d !! fn) as [[other|]|]; [|done..].
      rewrite (Hbare other eq_refl).
      destruct (first_drive_link other) as [link|] eqn:Hlink; [|done].
      apply full_link_mentions_host in Hlink.
      by rewrite (Hbare other eq_refl) in Hlink.
    + intros other Hfn Hmention Hnone. rewrite Hcount, Hdown.
      unfold _has_drive_link. by rewrite Hfn, Hmention, Hnone.
Qed.

End DiscoveryClaims.

(** ** Who has a link *)

Section LinkClaims.

Variable project_path : path.
Variable upload_to_gdrive : sync_world -> path -> text -> option text.
Variable now_iso : text.
Variable now_stamp : text.
Variable tar_gz : text -> text.

Lemma first_drive_link_Some (content url : text) :
  first_drive_link content = Some url
  <-> exists g, url = drive_pattern ++ g
                /\ leftmost drive_pattern Re.nonspace content g.
Proof.
  unfold first_drive_link. split.
  - destruct (Re.search _ _ _) as [g|] eqn:Hg; [|done].
    intros [= <-]. exists g. split; [done|]. by apply search_Some.
  - intros (g & -> & Hg%search_Some). by rewrite Hg.
Qed.

Lemma first_drive_link_None (content : text) :
  first_drive_link content = None
  <-> unmatched drive_pattern Re.nonspace content.
Proof.
  unfold first_drive_link. rewrite <- search_None.
  by destruct (Re.search _ _ _).
Qed.

(** C9. The sync workflow sets [has_link] exactly when the pointer
    file can be read and its text contains [drive.google.com]
    somewhere; the download discovery makes a record only for a file
    that can be read and whose text matches the full pattern
    [https://drive.google.com/] followed by a character that is not
    white space.  So for a file with the bare substring and no such
    match, [sync_package] returns [True] at once, touching neither the
    disk, the configuration nor the uploads, while the download
    discovery makes no record (and logs no warning) for it. *)
Theorem link_detection_differs (d : disk) (f : path) :
  (_has_drive_link d f = true
   <-> exists content pre rest,
         d !! f = Some (Some content)
         /\ content = pre ++ txt "drive.google.com" ++ rest)
  /\ (forall i,
        i ∈ (instruction_of project_path d f).1 ->
        exists content g,
          d !! f = Some (Some content)
          /\ leftmost (txt "https://drive.google.com/") Re.nonspace content g
          /\ i_url i = txt "https://drive.google.com/" ++ g)
  /\ (forall content pre rest,
        d !! f = Some (Some content) ->
        content = pre ++ txt "drive.google.com" ++ rest ->
        unmatched (txt "https://drive.google.com/") Re.nonspace content ->
        instruction_of project_path d f = ([], [])
        /\ forall w name path use_placeholder,
             let p := Package name path f (_has_drive_link d f) in
             let r :=
               sync_package project_path upload_to_gdrive now_iso now_stamp
                 tar_gz w p use_placeholder in
             r.1 = Ok true
             /\ s_disk r.2 = s_disk w /\ s_config r.2 = s_config w
             /\ s_uploads r.2 = s_uploads w
             /\ s_log r.2
                = s_log w ++ [(INFO, Syncing name); (INFO, AlreadyHasLink)]).
Proof.
  assert (_has_drive_link d f = true
          <-> exists content pre rest,
                d !! f = Some (Some content)
                /\ content = pre ++ txt "drive.google.com" ++ rest) as Hhas.
  { unfold _has_drive_link. split.
    - destruct (d !! f) as [[content|]|]; [|done..].
      intros (pre & rest & ->)%contains_spec. by eexists _, pre, rest.
    - intros (content & pre & rest & -> & ->). apply contains_spec. eauto. }
  split; [done|]. split.
  - intros i (content & url & name & Hf & Hurl & _ & ->)%instruction_of_elem.
    apply first_drive_link_Some in Hurl as (g & -> & Hg).
    by exists content, g.
  - intros content pre rest Hf Hcontent Hno%first_drive_link_None. split.
    + unfold instruction_of. by rewrite Hf, Hno.
    + intros w name path use_placeholder p r. subst p r.
      assert (_has_drive_link d f = true) as -> by (apply Hhas; eauto).
      unfold sync_package. simpl. by rewrite <- app_assoc.
Qed.

End LinkClaims.

(** ** Canonical names *)

Lemma join_app_cons (sep : text) (pre : list text) (x : text) (post : list text) :
  exists a b, Text.join sep (pre ++ x :: post) = a ++ x ++ b.
Proof.
  induction pre as [|y pre (a & b & IH)]; simpl.
  - destruct post as [|z post].
    + exists [], []. simpl. by rewrite app_nil_r.
    + by exists [], (sep ++ Text.join sep (z :: post)).
  - destruct (pre ++ x :: post) as [|z l] eqn:Hl; [by destruct pre|].
    rewrite IH. exists (y ++ sep ++ a), b. by rewrite <- !app_assoc.
Qed.

Lemma index_Some (x : text) (parts : path) (i : nat) :
  Path.index x parts = Some i ->
  exists pre post, parts = pre ++ x :: post /\ length pre = i /\ x ∉ pre.
Proof.
  revert i; induction parts as [|y ys IH]; intros i; simpl; [done|].
  destruct (decide (y = x)) as [->|Hne].
  - intros [= <-]. exists [], ys. split; [done|]. split; [done|]. apply not_elem_of_nil.
  - destruct (Path.index x ys) as [j|]; [|done]. intros [= <-].
    destruct (IH j eq_refl) as (pre & post & -> & <- & Hpre).
    exists (y :: pre), post. split; [done|]. split; [done|].
    intros [->|?]%elem_of_cons; done.
Qed.

Lemma index_None (x : text) (parts : path) :
  Path.index x parts = None <-> x ∉ parts.
Proof.
  induction parts as [|y ys IH]; simpl.
  - split; [intros _; apply not_elem_of_nil | done].
  - destruct (decide (y = x)) as [->|Hne].
    + split; [done|]. intros []. by left.
    + rewrite not_elem_of_cons, <- IH.
      destruct (Path.index x ys); simpl; [split; [done|by intros [_ ?]]|done].
Qed.

Lemma str_contains_part (x : text) (parts : path) :
  x ∈ parts -> Text.contains x (Path.str parts) = true.
Proof.
  intros (pre & post & ->)%list_elem_of_split. apply contains_spec.
  unfold Path.str. destruct pre as [|a pre]; simpl.
  - destruct (decide (x = Path.anchor)) as [->|_].
    + by exists [], (Text.join (txt "/") post).
    + destruct (join_app_cons (txt "/") [] x post) as (a & b & Hj).
      simpl in Hj. eauto.
  - destruct (decide (a = Path.anchor)) as [->|_].
    + destruct (join_app_cons (txt "/") pre x post) as (a' & b & ->).
      exists (Path.anchor ++ a'), b. by rewrite <- app_assoc.
    + destruct (join_app_cons (txt "/") (a :: pre) x post) as (a' & b & Hj).
      simpl in Hj. eauto.
Qed.

(** The two-tier rule, where [package_name] follows it: without the
    vendor's name anywhere in the path, the parent directory's name; with
    the vendor directory as a component, the vendor and the component
    after it, or the vendor alone for a file directly inside. *)
Lemma package_name_rule (txt_file : path) :
  (Text.contains vendor (Path.str txt_file) = false ->
     package_name txt_file = Some (Path.name (Path.parent txt_file)))
  /\ (forall dirs sub below file,
        vendor ∉ dirs ->
        txt_file = dirs ++ [vendor; sub] ++ below ++ [file] ->
        package_name txt_file = Some (vendor ++ txt "/" ++ sub))
  /\ (forall dirs file,
        vendor ∉ dirs ->
        txt_file = dirs ++ [vendor; file] ->
        package_name txt_file = Some vendor).
Proof.
  unfold package_name. split; [by intros ->|]. split.
  - intros dirs sub below file Hdirs ->.
    rewrite str_contains_part
      by (apply elem_of_app; right; by left).
    destruct (Path.index vendor _) as [i|] eqn:Hi.
    2:{ apply index_None in Hi. destruct Hi. apply elem_of_app; right; by left. }
    apply index_Some in Hi as (pre & post & Heq & <- & Hpre).
    assert (pre = dirs) as ->.
    { clear -Heq Hdirs Hpre. revert pre Heq Hpre.
      induction dirs as [|x dirs IH]; intros [|y pre] Heq Hpre; simpl in *.
      - done.
      - simplify_eq. destruct Hpre. by left.
      - simplify_eq. destruct Hdirs. by left.
      - simplify_eq. f_equal. apply IH; [|done|].
        + intros ?. apply Hdirs. by right.
        + intros ?. apply Hpre. by right. }
    match goal with
    | |- context [(?a <? ?b)%nat] => destruct (Nat.ltb_spec a b) as [Hlt|Hge]
    end.
    + by rewrite app_nth2_plus.
    + exfalso. rewrite !length_app in Hge. cbn [length] in Hge. lia.
  - intros dirs file Hdirs ->.
    rewrite str_contains_part by (apply elem_of_app; right; by left).
    destruct (Path.index vendor _) as [i|] eqn:Hi.
    2:{ apply index_None in Hi. destruct Hi. apply elem_of_app; right; by left. }
    apply index_Some in Hi as (pre & post & Heq & <- & Hpre).
    assert (length dirs <= length pre)%nat.
    { destruct (decide (length pre < length dirs)%nat) as [Hlt|]; [|lia].
      exfalso. apply Hdirs.
      assert (dirs !! length pre = Some vendor) as Hl.
      { rewrite <- (lookup_app_l dirs [vendor; file]) by done.
        rewrite Heq. by rewrite list_lookup_middle. }
      by eapply list_elem_of_lookup_2. }
    match goal with
    | |- context [(?a <? ?b)%nat] => destruct (Nat.ltb_spec a b) as [Hlt|Hge]
    end; [|done].
    exfalso. rewrite !length_app in Hlt. cbn [length] in Hlt. lia.
Qed.

(** Naming fails exactly for a path that holds the vendor's name inside a
    longer component only. *)
Lemma package_name_None (txt_file : path) :
  package_name txt_file = None
  <-> Text.contains vendor (Path.str txt_file) = true /\ vendor ∉ txt_file.
Proof.
  unfold package_name. rewrite <- index_None.
  destruct (Text.contains vendor _); [|split; [done|by intros []]].
  destruct (Path.index vendor txt_file); [|done].
  split; [by case_match|by intros []].
Qed.

Example package_name_examples :
  package_name (proj ++ map txt ["Assets"; "Packages"; "LeartesStudios"; "CyberpunkCity"]%string
                  ++ [pointer_name])
  = Some (txt "LeartesStudios/CyberpunkCity")
  /\ package_name (proj ++ map txt ["Assets"; "Packages"; "LeartesStudios"]%string
                     ++ [pointer_name])
     = Some (txt "LeartesStudios")
  /\ package_name (proj ++ map txt ["Assets"; "Packages"; "HeroEditor"]%string
                     ++ [pointer_name])
     = Some (txt "HeroEditor").
Proof. by vm_compute. Qed.

(** C4. The pointer file of a package directory called
    [LeartesStudiosExtras] does not lie under the vendor directory, so
    its canonical name is the parent directory's name,
    [LeartesStudiosExtras]; but the path contains the vendor's name, no
    component equals it, and [parts.index] raises: [package_name] yields
    no name, [find_packages_to_sync] raises as a whole and
    [find_download_instructions] drops the package, which has a link,
    with a warning. *)
Theorem package_name_vendor_like_directory :
  let txt_file := pointer_in ["Assets"; "Packages"; "LeartesStudiosExtras"]%string in
  Path.name (Path.parent txt_file) = txt "LeartesStudiosExtras"
  /\ Path.index vendor txt_file = None
  /\ package_name txt_file = None
  /\ find_packages_to_sync proj vendor_like_disk = None
  /\ find_download_instructions proj vendor_like_disk
     = ([], [(WARNING, ErrorReading txt_file)]).
Proof. by vm_compute. Qed.

(** ** The configuration loader *)

Lemma get_set (k k' : key) (v : json) (d : pydict) :
  Dict.get k' (Dict.set k v d)
  = if decide (k = k') then Some v else Dict.get k' d.
Proof.
  induction d as [|[k0 v0] d IH]; simpl.
  - by destruct (decide (k = k')).
  - destruct (decide (k0 = k)) as [->|Hne]; simpl.
    + by destruct (decide (k = k')).
    + rewrite IH. destruct (decide (k0 = k')) as [->|]; [|done].
      by rewrite decide_False by done.
Qed.

Lemma persisted_snoc (s k : text) (v : json) (members : list (text * json)) :
  persisted s (members ++ [(k, v)])
  = if decide (k = s) then Some v else persisted s members.
Proof. unfold persisted. by rewrite fold_left_app. Qed.

Lemma load_config_defaults (default_config : pydict) :
  load_config default_config Absent = (Ok default_config, [])
  /\ load_config default_config Undecodable
     = (Ok default_config, [InvalidConfigFile]).
Proof. done. Qed.

(** A file holding a JSON object is merged over the defaults key by key:
    a persisted key wins, also one the defaults do not have; a default
    key that the file lacks keeps its default. *)
Lemma load_config_merge (default_config : pydict) (members : list (text * json)) :
  exists merged,
    load_config default_config (Document (JObj members)) = (Ok merged, [])
    /\ forall k,
         Dict.get k merged =
           match k with
           | KStr s =>
               match persisted s members with
               | Some v => Some v
               | None => Dict.get k default_config
               end
           | _ => Dict.get k default_config
           end.
Proof.
  eexists. split; [done|].
  induction members as [|[k0 v0] members IH] using rev_ind; intros k.
  - by destruct k.
  - rewrite fold_left_app. simpl. rewrite get_set. specialize (IH k).
    destruct k as [s| |]; [|by rewrite decide_False..].
    rewrite persisted_snoc.
    destruct (decide (k0 = s)) as [->|Hne].
    + by rewrite decide_True.
    + by rewrite decide_False by congruence.
Qed.

(** C3. A configuration file that holds valid JSON other than an object
    makes [_load_config] of both classes raise: the number [5] and
    [null] a [TypeError], the string ["x"] a [ValueError]; so does a file
    that cannot be read.  Only [JSONDecodeError] is caught. *)
Theorem load_config_non_object_raises :
  Sync._load_config (Document (JInt 5)) = (Raise TypeError, [])
  /\ Exporter._load_config (Document (JInt 5)) = (Raise TypeError, [])
  /\ Sync._load_config (Document JNull) = (Raise TypeError, [])
  /\ Sync._load_config (Document (JStr (txt "x"))) = (Raise ValueError, [])
  /\ Exporter._load_config (Document (JStr (txt "x"))) = (Raise ValueError, [])
  /\ Sync._load_config Unreadable = (Raise OSError, []).
Proof. by vm_compute. Qed.

(** ** One package at a time *)

Section PackageFacts.

Variable urlopen : world -> request -> response.
Variable curl : world -> list text -> curl_outcome.
Variable platform_system : text.

Lemma download_file_outcome (w : world) (url output_name : text)
    (max_size_gb : Q) :
  fetch_outcome w (Path.child (download_path w) output_name)
    (download_file urlopen w url output_name max_size_gb).
Proof.
  unfold download_file.
  destruct (extract_file_id url) as [[|c id]|] eqn:Hid;
    [split; [done|left; auto]| |split; [done|left; auto]].
  destruct (file_exists w _) eqn:Hex.
  { apply file_exists_true in Hex. split; [done|left; auto]. }
  apply file_exists_false in Hex.
  pose proof (fetch_content_frame urlopen (announced w output_name (c :: id))
                (get_direct_download_url (c :: id))) as Hframe.
  fold (announced w output_name (c :: id)).
  destruct (fetch_content urlopen _ _) as [resp wf].
  simpl in Hframe. destruct Hframe as (Hdp & Hsession & Hfiles & _ & _).
  destruct resp as [content|code|].
  - destruct (too_large content max_size_gb).
    + split; [done|left; auto].
    + split; [done|right]. exists content. simpl. by rewrite Hfiles, Hsession.
  - case_match; (split; [done|left; auto]).
  - split; [done|left; auto].
Qed.

Lemma download_with_curl_outcome (w : world) (url output_name : text) :
  fetch_outcome w (Path.child (download_path w) output_name)
    (download_with_curl urlopen curl platform_system w url output_name).
Proof.
  unfold download_with_curl.
  destruct (extract_file_id url) as [[|c id]|] eqn:Hid;
    [split; [done|left; auto]| |split; [done|left; auto]].
  destruct (file_exists w _) eqn:Hex.
  { apply file_exists_true in Hex. split; [done|left; auto]. }
  apply file_exists_false in Hex.
  destruct (curl _ _) as [rc stderr written| |].
  - destruct written as [content|]; simpl.
    + rewrite lookup_insert_eq. destruct (rc =? 0)%Z; simpl.
      * split; [done|right]. by exists content.
      * split; [done|left]. by rewrite delete_insert_id; auto.
    + rewrite Hex. destruct (rc =? 0)%Z; (split; [done|left; auto]).
  - exact (download_file_outcome
             (logged WARNING CurlNotFound
                (logged INFO (DownloadingWithCurl output_name) w))
             url output_name 5).
  - split; [done|left; auto].
Qed.

Lemma download_package_outcome (w : world) (i : instruction) :
  fetch_outcome w (Path.child (download_path w) (output_name_of i))
    (download_package urlopen curl platform_system w i).
Proof.
  unfold download_package.
  set (w0 := logged INFO (From (i_relative_path i))
               (logged INFO (Processing (i_name i)) w)).
  pose proof (download_with_curl_outcome w0 (i_url i) (output_name_of i))
    as [Hdp Hcurl].
  destruct (download_with_curl _ _ _ w0 _ _) as [[p|] w1]; simpl in *.
  { split; [done|]. destruct Hcurl as [(? & ? & [?|?])|?]; auto. }
  destruct Hcurl as [(Hfiles & Hsession & _)|(? & _ & ? & _)]; [|done].
  pose proof (download_file_outcome w1 (i_url i) (output_name_of i) 5)
    as [Hdp' Hfile].
  rewrite Hdp in Hdp', Hfile. rewrite Hfiles, Hsession in Hfile.
  split; [done|exact Hfile].
Qed.

(** X1. [download_package] touches nothing but its own destination and
    never overwrites or deletes a file that exists: every path other
    than the destination, and every path that held a file before, holds
    after the call what it held before.  A path it returns is the
    destination, and the file is there. *)
Theorem download_package_preserves_files (w : world) (i : instruction) :
  let output_file := Path.child (download_path w) (output_name_of i) in
  let r := download_package urlopen curl platform_system w i in
  (forall p, p <> output_file \/ is_Some (files w !! p) ->
             files r.2 !! p = files w !! p)
  /\ (forall p, r.1 = Some p -> p = output_file /\ is_Some (files r.2 !! p)).
Proof.
  intros output_file r.
  destruct (download_package_outcome w i) as [_ Hout]. fold output_file r in Hout.
  destruct Hout as [(Hfiles & _ & Hres)|(content & Hnone & Hres & Hfiles & _)].
  - split; [intros p _; by rewrite Hfiles|].
    intros p Hp. rewrite Hp in Hres.
    destruct Hres as [?|[[= ->] ?]]; [done|]. by rewrite Hfiles.
  - rewrite Hfiles. split.
    + intros p [Hp|[c Hc]].
      * by rewrite lookup_insert_ne.
      * rewrite lookup_insert_ne; [done|]. intros <-. congruence.
    + intros p Hp. rewrite Hp in Hres. injection Hres as ->.
      by rewrite lookup_insert_eq.
Qed.

(** X2. The session list stays truthful: when every file recorded in
    [session_files] exists before [download_package], every file
    recorded afterwards exists afterwards.  The list grows by the
    destination exactly when the package was fetched anew; a cache hit
    and a failure leave it as it was. *)
Theorem download_package_session_files (w : world) (i : instruction) :
  let output_file := Path.child (download_path w) (output_name_of i) in
  let r := download_package urlopen curl platform_system w i in
  (forall p, p ∈ session_files w -> is_Some (files w !! p)) ->
  (forall p, p ∈ session_files r.2 -> is_Some (files r.2 !! p))
  /\ (session_files r.2 = session_files w
      \/ session_files r.2 = session_files w ++ [output_file]
         /\ files w !! output_file = None /\ r.1 = Some output_file)
  /\ (is_Some (files w !! output_file) \/ r.1 = None ->
      session_files r.2 = session_files w)
  /\ (files w !! output_file = None -> r.1 = Some output_file ->
      session_files r.2 = session_files w ++ [output_file]).
Proof.
  intros output_file r Hinv.
  destruct (download_package_outcome w i) as [_ Hout]. fold output_file r in Hout.
  destruct Hout as [(Hfiles & Hsession & Hres)|(content & Hnone & Hres & Hfiles & Hsession)].
  - rewrite Hsession, Hfiles. split; [done|]. split; [by left|]. split; [done|].
    intros Hnone Hr. destruct Hres as [?|[_ [c Hc]]]; congruence.
  - rewrite Hsession, Hfiles. split; [|split; [by right|split; [|done]]].
    + intros p [Hp| ->%list_elem_of_singleton]%elem_of_app.
      * destruct (decide (p = output_file)) as [->|Hne].
        -- by rewrite lookup_insert_eq.
        -- rewrite lookup_insert_ne by done. by apply Hinv.
      * by rewrite lookup_insert_eq.
    + intros [[c Hc]|Hr]; congruence.
Qed.

Lemma download_file_failure (w : world) (url output_name : text)
    (max_size_gb : Q) (file_id : text) :
  let output_file := Path.child (download_path w) output_name in
  let request1 := Request (get_direct_download_url file_id) user_agent_full in
  extract_file_id url = Some file_id ->
  files w !! output_file = None ->
  (forall content,
     urlopen (announced w output_name file_id) request1 <> Body content) ->
  download_file urlopen w url output_name max_size_gb
  = (None,
     logged ERROR
       match urlopen (announced w output_name file_id) request1 with
       | HTTPError code =>
           if (code =? 404)%Z then FileNotFound404 url else HTTPErrorCode code
       | _ => DownloadFailed
       end
       (requested request1 (announced w output_name file_id))).
Proof.
  intros output_file request1 Hid Hex Hfail.
  rewrite (download_file_miss urlopen w url output_name max_size_gb file_id Hid)
    by by apply file_exists_false.
  unfold fetch_content. fold request1.
  destruct (urlopen (announced w output_name file_id) request1) as [c|code|].
  - by destruct (Hfail c).
  - simpl. by destruct (code =? 404)%Z.
  - done.
Qed.

(** X3. When the first request of [download_file] fails, nothing is
    written and [None] is returned after exactly one request; the last
    log record is an error that tells a 404 from any other HTTP status
    and from any other exception. *)
Theorem download_file_request_fails (w : world) (url output_name : text)
    (max_size_gb : Q) (file_id : text) :
  let output_file := Path.child (download_path w) output_name in
  let request1 := Request (get_direct_download_url file_id) user_agent_full in
  let answer := urlopen (announced w output_name file_id) request1 in
  let r := download_file urlopen w url output_name max_size_gb in
  extract_file_id url = Some file_id ->
  file_exists w output_file = false ->
  (forall content, answer <> Body content) ->
  r.1 = None /\ files r.2 = files w
  /\ requests r.2 = requests w ++ [request1]
  /\ last (log r.2)
     = Some (ERROR,
             match answer with
             | HTTPError 404 => FileNotFound404 url
             | HTTPError code => HTTPErrorCode code
             | _ => DownloadFailed
             end).
Proof.
  intros output_file request1 answer r Hid Hex%file_exists_false Hfail.
  subst r. rewrite (download_file_failure w url output_name max_size_gb file_id)
    by done.
  fold request1 answer. simpl. rewrite last_snoc.
  repeat split. destruct answer as [c|code|]; [done| |done].
  destruct (code =? 404)%Z eqn:Hcode.
  - by apply Z.eqb_eq in Hcode as ->.
  - apply Z.eqb_neq in Hcode. do 2 f_equal.
    destruct code as [|p|p]; try done.
    repeat (destruct p as [p|p|]; try done).
Qed.

(** X4. The curl path has neither size cap nor confirmation step: when
    curl exits with status 0 and leaves a file, whatever its content and
    size, [download_package] returns it as the package, without any HTTP
    request of its own. *)
Theorem download_package_keeps_what_curl_wrote (w : world) (i : instruction)
    (file_id stderr content : text) :
  let output_file := Path.child (download_path w) (output_name_of i) in
  let w0 := logged INFO (DownloadingWithCurl (output_name_of i))
              (logged INFO (From (i_relative_path i))
                 (logged INFO (Processing (i_name i)) w)) in
  let r := download_package urlopen curl platform_system w i in
  extract_file_id (i_url i) = Some file_id ->
  file_exists w output_file = false ->
  curl w0 (curl_command platform_system output_file file_id)
    = CurlExit 0 stderr (Some content) ->
  r.1 = Some output_file
  /\ files r.2 = <[output_file := content]> (files w)
  /\ requests r.2 = requests w.
Proof.
  intros output_file w0 r Hid Hex Hcurl. subst r.
  unfold download_package, download_with_curl. cbv zeta. rewrite Hid.
  destruct file_id as [|c id];
    [apply extract_file_id_group in Hid as [[] _]; done|].
  change (file_exists _ (Path.child _ (output_name_of i)))
    with (file_exists w output_file).
  rewrite Hex.
  change (download_path (logged INFO (From (i_relative_path i))
                           (logged INFO (Processing (i_name i)) w)))
    with (download_path w).
  fold output_file. fold w0. rewrite Hcurl. cbn [files ran with_files].
  by rewrite lookup_insert_eq.
Qed.

(** X5. Without curl on the host the network path is tried twice: when
    curl is missing and the host never delivers a body,
    [download_package] sends the same request two times (once from the
    fallback inside [download_with_curl], once from its own fallback)
    before it returns [None]; nothing is written. *)
Theorem download_package_retries_without_curl (w : world) (i : instruction)
    (file_id : text) :
  let output_file := Path.child (download_path w) (output_name_of i) in
  let request1 := Request (get_direct_download_url file_id) user_agent_full in
  let r := download_package urlopen curl platform_system w i in
  extract_file_id (i_url i) = Some file_id ->
  file_exists w output_file = false ->
  (forall w' cmd, curl w' cmd = CurlMissing) ->
  (forall w' rq content, urlopen w' rq <> Body content) ->
  r.1 = None /\ files r.2 = files w
  /\ requests r.2 = requests w ++ [request1; request1]
  /\ curl_runs r.2 = curl_runs w.
Proof.
  intros output_file request1 r Hid Hex%file_exists_false Hcurl Hhost. subst r.
  unfold download_package, download_with_curl. cbv zeta. rewrite Hid.
  destruct file_id as [|c id];
    [apply extract_file_id_group in Hid as [[] _]; done|].
  change (file_exists _ (Path.child _ (output_name_of i)))
    with (file_exists w output_file).
  rewrite (proj2 (file_exists_false w output_file) Hex), Hcurl.
  change (download_path (logged INFO (From (i_relative_path i))
                           (logged INFO (Processing (i_name i)) w)))
    with (download_path w).
  rewrite (download_file_failure _ (i_url i) (output_name_of i) 5 (c :: id))
    by (simpl; auto).
  cbn [fst snd].
  rewrite (download_file_failure _ (i_url i) (output_name_of i) 5 (c :: id))
    by (simpl; auto).
  simpl. by rewrite <- app_assoc.
Qed.

End PackageFacts.

(** ** Verifying the download directory *)

Lemma is_child_spec (dir p : path) :
  is_child dir p = true <-> exists name, p = dir ++ [name].
Proof.
  unfold is_child. split.
  - destruct (last p) as [name|]; [|done].
    intros Hp%bool_decide_eq_true. by exists name.
  - intros [name ->]. rewrite last_snoc. by apply bool_decide_eq_true.
Qed.

Lemma name_of_child (dir : path) (name : text) :
  dir <> [] -> Path.name (dir ++ [name]) = name.
Proof.
  intros Hdir. unfold Path.name.
  destruct (dir ++ [name]) as [|a [|b l]] eqn:Heq.
  - by destruct dir.
  - destruct dir as [|x [|y dir]]; simplify_eq.
  - rewrite <- Heq. clear Heq. induction dir as [|x [|y dir] IH]; [done..|].
    apply IH. done.
Qed.

Lemma verify_downloads_valid_list (w : world) :
  (verify_downloads w).1
  = (filter (fun f : path * text => (100 < length f.2)%nat)
       (glob_unitypackage w)).*1.
Proof.
  unfold verify_downloads. cbn [fst].
  induction (glob_unitypackage w) as [|f l IH]; [done|].
  rewrite filter_cons. cbn [map flat_map]. rewrite IH.
  destruct (Nat.ltb_spec 100 (length f.2)) as [Hlt|Hge].
  - by rewrite decide_True.
  - by rewrite decide_False by lia.
Qed.

Lemma output_name_of_chars (i : instruction) :
  ("/"%char ∉ output_name_of i) /\ (" "%char ∉ output_name_of i)
  /\ txt ".unitypackage" `suffix_of` output_name_of i.
Proof.
  assert ("/"%char ∉ txt ".unitypackage") as Hslash
    by by apply (bool_decide_eq_false_1 _).
  assert (" "%char ∉ txt ".unitypackage") as Hspace
    by by apply (bool_decide_eq_false_1 _).
  unfold output_name_of, Text.replace_char.
  split; [|split; [|by eexists]].
  - intros [Hin|Hin]%elem_of_app; [|done].
    apply list_elem_of_fmap in Hin as (c & Hc & Hin).
    apply list_elem_of_fmap in Hin as (c' & -> & _).
    destruct (Ascii.eqb_spec c' "/"); simpl in Hc; [done|].
    by destruct (Ascii.eqb_spec c' " ").
  - intros [Hin|Hin]%elem_of_app; [|done].
    apply list_elem_of_fmap in Hin as (c & Hc & _).
    by destruct (Ascii.eqb_spec c " ").
Qed.

Lemma verify_downloads_elem (w : world) (p : path) :
  download_path w <> [] ->
  p ∈ (verify_downloads w).1
  <-> exists name content,
        p = download_path w ++ [name]
        /\ txt ".unitypackage" `suffix_of` name
        /\ files w !! p = Some content
        /\ (100 < length content)%nat.
Proof.
  intros Hdir. rewrite verify_downloads_valid_list.
  rewrite list_elem_of_fmap. unfold glob_unitypackage, ends_with. split.
  - intros ([q content] & -> & [Hsize [[Hchild Hname] Hin]%list_elem_of_filter]%list_elem_of_filter).
    cbn [fst snd] in *.
    apply is_child_spec in Hchild as [name ->].
    rewrite name_of_child in Hname by done.
    apply bool_decide_eq_true in Hname.
    apply elem_of_map_to_list in Hin. by exists name, content.
  - intros (name & content & -> & Hname & Hfile & Hsize).
    exists (download_path w ++ [name], content). split; [done|].
    apply list_elem_of_filter. split; [done|].
    apply list_elem_of_filter. cbn [fst]. split.
    + split; [apply is_child_spec; by eexists|].
      rewrite name_of_child by done. by apply bool_decide_eq_true.
    + by apply elem_of_map_to_list.
Qed.

(** X6. [verify_downloads] reports as valid exactly the files of the
    download directory whose name ends in [.unitypackage] and whose size
    exceeds 100 bytes, each once; a package of 100 bytes or less is
    never reported valid. *)
Theorem verify_downloads_valid (w : world) (p : path) :
  download_path w <> [] ->
  (p ∈ (verify_downloads w).1
   <-> exists name content,
         p = download_path w ++ [name]
         /\ txt ".unitypackage" `suffix_of` name
         /\ files w !! p = Some content
         /\ (100 < length content)%nat)
  /\ NoDup (verify_downloads w).1.
Proof.
  intros Hdir. split; [by apply verify_downloads_elem|].
  rewrite verify_downloads_valid_list. apply NoDup_fmap_fst.
  - intros q c1 c2 [_ [_ H1]%list_elem_of_filter]%list_elem_of_filter
                   [_ [_ H2]%list_elem_of_filter]%list_elem_of_filter.
    apply elem_of_map_to_list in H1, H2. congruence.
  - apply NoDup_filter, NoDup_filter, NoDup_map_to_list.
Qed.

Section RunFacts.

Variable urlopen : world -> request -> response.
Variable curl : world -> list text -> curl_outcome.
Variable platform_system : text.
Variable project_path : path.

Lemma download_package_Some (w : world) (i : instruction) (p : path) :
  let r := download_package urlopen curl platform_system w i in
  r.1 = Some p ->
  p = download_path w ++ [output_name_of i] /\ is_Some (files r.2 !! p).
Proof.
  intros r Hp.
  destruct (download_package_outcome urlopen curl platform_system w i)
    as [_ Hout]. fold r in Hout. rewrite Hp in Hout.
  destruct Hout as [(Hfiles & _ & [?|[[= ->] ?]])|(c & _ & [= ->] & Hfiles & _)];
    [done|by rewrite Hfiles|].
  rewrite Hfiles, lookup_insert_eq. by eauto.
Qed.

(** X7. A package [download_package] has returned is counted valid by
    [verify_downloads] exactly when it is larger than 100 bytes: its
    name holds neither a slash nor a space, so it lies directly in the
    download directory, where the glob finds it; a download of 100
    bytes or less is returned by [download_package] and is not among
    the valid packages. *)
Theorem downloaded_package_is_verified (w : world) (i : instruction) (p : path) :
  let r := download_package urlopen curl platform_system w i in
  download_path w <> [] ->
  r.1 = Some p ->
  p = download_path w ++ [output_name_of i]
  /\ ("/"%char ∉ output_name_of i) /\ (" "%char ∉ output_name_of i)
  /\ (p ∈ (verify_downloads r.2).1 <-> (100 < st_size r.2 p)%nat).
Proof.
  intros r Hdir Hp.
  destruct (download_package_Some w i p Hp) as [-> [content Hcontent]].
  destruct (output_name_of_chars i) as (Hslash & Hspace & Hsuffix).
  destruct (download_package_outcome urlopen curl platform_system w i)
    as [Hdp _]. fold r in Hdp, Hcontent.
  split; [done|]. split; [done|]. split; [done|].
  unfold st_size. rewrite Hcontent.
  rewrite verify_downloads_elem by by rewrite Hdp.
  rewrite Hdp. split.
  - intros (name & content' & Heq & _ & Hfile & Hsize).
    rewrite Hcontent in Hfile. by injection Hfile as ->.
  - intros Hsize. by exists (output_name_of i), content.
Qed.

Lemma download_package_keeps (w : world) (i : instruction) (q : path) :
  is_Some (files w !! q) ->
  files (download_package urlopen curl platform_system w i).2 !! q
  = files w !! q.
Proof.
  intros [c Hq].
  destruct (download_package_outcome urlopen curl platform_system w i)
    as [_ [(-> & _)|(c' & Hnone & _ & -> & _)]]; [done|].
  rewrite lookup_insert_ne; [done|]. intros <-. congruence.
Qed.

Lemma sum_mb_keeps (w w' : world) (ps : list path) :
  Forall (fun p => files w' !! p = files w !! p) ps ->
  sum_mb w' ps = sum_mb w ps.
Proof.
  induction 1 as [|p ps Hp _ IH]; [done|].
  simpl. rewrite IH. unfold st_size. by rewrite Hp.
Qed.

Lemma download_each_spec (n i : nat) (l : list instruction) (acc : results)
    (lg : list (level * run_message)) (w : world) (t0 : Q) :
  total_size_mb acc = Some t0 ->
  let r := download_each urlopen curl platform_system n i l acc lg w in
  total r.1.1 = total acc
  /\ success r.1.1 + failed r.1.1 = success acc + failed acc + length l
  /\ download_path r.2 = download_path w
  /\ (forall q, is_Some (files w !! q) -> files r.2 !! q = files w !! q)
  /\ exists ps t,
       r_files r.1.1 = r_files acc ++ map Path.str ps
       /\ success r.1.1 = success acc + length ps
       /\ Forall (fun p => is_Some (files r.2 !! p)) ps
       /\ total_size_mb r.1.1 = Some t
       /\ (t == t0 + sum_mb r.2 ps)%Q.
Proof.
  revert i acc lg w t0.
  induction l as [|ins l IH]; intros i acc lg w t0 Hsize r; subst r.
  { simpl. split; [done|]. split; [lia|]. split; [done|]. split; [done|].
    exists [], t0. rewrite app_nil_r.
    split; [done|]. split; [simpl; lia|]. split; [constructor|]. split; [done|].
    unfold sum_mb. simpl. ring. }
  cbn [download_each].
  pose proof (download_package_outcome urlopen curl platform_system w ins)
    as [Hdp _].
  pose proof (download_package_keeps w ins) as Hkeep.
  pose proof (download_package_Some w ins) as Hsome.
  destruct (download_package urlopen curl platform_system w ins)
    as [[p|] w1]; cbn [fst snd] in *.
  - destruct (Hsome p eq_refl) as [_ Hp].
    match goal with
    | |- context [download_each _ _ _ _ _ _ ?acc' ?lg' w1] =>
        specialize (IH (S i) acc' lg' w1 _ ltac:(cbn; by rewrite Hsize))
    end.
    simpl in IH.
    destruct IH as (Htotal & Hcount & Hdp' & Hkeep' & ps & t & Hfiles & Hsucc
                    & Hexist & Ht & Hsum).
    split; [done|]. split; [simpl; lia|]. split; [congruence|].
    split.
    { intros q Hq. rewrite Hkeep' by by rewrite Hkeep. by apply Hkeep. }
    exists (p :: ps), t. rewrite Hfiles, <- app_assoc.
    split; [done|]. split; [simpl; lia|].
    split; [constructor; [by rewrite Hkeep'|done]|].
    split; [done|].
    simpl. unfold st_size at 1. rewrite (Hkeep' p Hp).
    fold (st_size w1 p). rewrite Hsum. ring.
  - match goal with
    | |- context [download_each _ _ _ _ _ _ ?acc' ?lg' w1] =>
        specialize (IH (S i) acc' lg' w1 t0 ltac:(done))
    end.
    simpl in IH.
    destruct IH as (Htotal & Hcount & Hdp' & Hkeep' & ps & t & Hfiles & Hsucc
                    & Hexist & Ht & Hsum).
    split; [done|]. split; [simpl; lia|]. split; [congruence|].
    split.
    { intros q Hq. rewrite Hkeep' by by rewrite Hkeep. by apply Hkeep. }
    by exists ps, t.
Qed.

(** X8. The counters of [download_all] add up: [total] is the number of
    instructions selected (all that were discovered when no names, or an
    empty list of names, are given), [success + failed = total], and
    [files] holds one entry per success.  Every listed file exists when
    the run ends, [total_size_mb] is the sum of the sizes of the listed
    files as they are then, and no file that existed before the run has
    been changed or removed. *)
Theorem download_all_counts (w : world) (d : disk)
    (specific_packages : option (list text)) :
  let found := (find_download_instructions project_path d).1 in
  let r := download_all urlopen curl platform_system project_path w d
             specific_packages in
  total r.1.1
  = match specific_packages with
    | None | Some [] => length found
    | Some names =>
        if decide (found = []) then 0%nat
        else length (filter (fun i => i_name i ∈ names) found)
    end
  /\ success r.1.1 + failed r.1.1 = total r.1.1
  /\ (forall q, is_Some (files w !! q) -> files r.2 !! q = files w !! q)
  /\ exists ps,
       r_files r.1.1 = map Path.str ps
       /\ success r.1.1 = length ps
       /\ Forall (fun p => is_Some (files r.2 !! p)) ps
       /\ (found <> [] ->
           exists t, total_size_mb r.1.1 = Some t /\ (t == sum_mb r.2 ps)%Q).
Proof.
  intros found r. subst r. unfold download_all. fold found.
  destruct found as [|i0 found'] eqn:Hfound.
  { simpl. split; [by repeat case_match|]. split; [done|]. split; [done|].
    exists []. repeat split; [constructor|done]. }
  match goal with
  | |- context [download_each _ _ _ _ _ ?l ?acc ?lg ?w0] =>
      pose proof (download_each_spec (length l) 1 l acc lg w0 0%Q eq_refl)
        as (Htotal & Hcount & _ & Hkeep & ps & t & Hfiles & Hsucc & Hexist
            & Ht & Hsum);
      set (l0 := l) in *
  end.
  cbn [total success failed r_files] in *.
  split.
  { rewrite Htotal. subst l0. destruct specific_packages as [[|name names]|];
      [done| |done]. by rewrite decide_False. }
  split; [rewrite Htotal; lia|]. split; [exact Hkeep|].
  exists ps. split; [done|]. split; [done|]. split; [done|].
  intros _. exists t. split; [done|]. rewrite Hsum. ring.
Qed.

End RunFacts.

(** ** Saving and loading the configuration *)

Lemma set_app (k : key) (v : json) (a b : pydict) :
  Dict.set k v (a ++ b)
  = if decide (k ∈ a.*1) then Dict.set k v a ++ b else a ++ Dict.set k v b.
Proof.
  induction a as [|[k0 v0] a IH].
  - rewrite decide_False; [done|apply not_elem_of_nil].
  - cbn [app Dict.set]. rewrite fmap_cons. cbn [fst].
    destruct (decide (k0 = k)) as [->|Hne].
    + rewrite decide_True; [done|by left].
    + rewrite IH. destruct (decide (k ∈ a.*1)) as [Hin|Hnin].
      * rewrite decide_True; [done|by right].
      * rewrite decide_False; [done|]. by intros [?|?]%elem_of_cons.
Qed.

Lemma set_keys (k : key) (v : json) (d : pydict) :
  (Dict.set k v d).*1 = if decide (k ∈ d.*1) then d.*1 else d.*1 ++ [k].
Proof.
  induction d as [|[k0 v0] d IH].
  - rewrite decide_False; [done|apply not_elem_of_nil].
  - cbn [Dict.set]. rewrite fmap_cons. cbn [fst].
    destruct (decide (k0 = k)) as [->|Hne].
    + rewrite fmap_cons. cbn [fst]. rewrite decide_True; [done|by left].
    + rewrite fmap_cons. cbn [fst]. rewrite IH.
      destruct (decide (k ∈ d.*1)) as [Hin|Hnin].
      * rewrite decide_True; [done|by right].
      * rewrite decide_False; [done|]. by intros [?|?]%elem_of_cons.
Qed.

Lemma set_new (k : key) (v : json) (d : pydict) :
  k ∉ d.*1 -> Dict.set k v d = d ++ [(k, v)].
Proof.
  induction d as [|[k0 v0] d IH]; simpl; [done|].
  intros [Hne Hnin]%not_elem_of_cons.
  rewrite decide_False by done. by rewrite IH.
Qed.

Lemma set_NoDup (k : key) (v : json) (d : pydict) :
  NoDup d.*1 -> NoDup (Dict.set k v d).*1.
Proof.
  intros Hd. rewrite set_keys. case_decide; [done|].
  apply NoDup_app. split; [done|]. split; [|apply NoDup_singleton].
  by intros k' Hk' ->%list_elem_of_singleton.
Qed.

(** Written over a dictionary with the same keys in the same order, the
    items of [l'] replace it. *)
Lemma fold_set_same_keys (l' pre l : pydict) :
  l'.*1 = l.*1 -> NoDup (pre ++ l).*1 ->
  fold_left set_item l' (pre ++ l) = pre ++ l'.
Proof.
  revert pre l. induction l' as [|[k v] l' IH]; intros pre [|[k0 v0] l] Hkeys Hnd;
    simplify_eq/=; [done|].
  unfold set_item at 2. cbn [fst snd].
  rewrite fmap_app, NoDup_app in Hnd. destruct Hnd as (Hpre & Hdisj & Hl).
  rewrite set_app, decide_False by (intros Hin; apply (Hdisj _ Hin); by left).
  simpl. rewrite decide_True by done.
  rewrite (cons_middle (k0, v) pre l), app_assoc, IH, <- app_assoc; [done..|].
  rewrite <- app_assoc, fmap_app. apply NoDup_app. done.
Qed.

(** Items under new keys are appended in order. *)
Lemma fold_set_new (ext d : pydict) :
  NoDup (d ++ ext).*1 -> fold_left set_item ext d = d ++ ext.
Proof.
  revert d. induction ext as [|[k v] ext IH]; intros d Hnd; simpl.
  - by rewrite app_nil_r.
  - unfold set_item at 2. cbn [fst snd].
    rewrite fmap_app, NoDup_app in Hnd. destruct Hnd as (Hd & Hdisj & Hext).
    rewrite set_new by (intros Hin; apply (Hdisj _ Hin); by left).
    rewrite IH, <- app_assoc; [done|].
    rewrite <- app_assoc, fmap_app. apply NoDup_app. done.
Qed.

(** What [dict.update] makes of a dictionary: the old keys in their
    places, the new ones behind them. *)
Lemma fold_set_shape (items d : pydict) :
  NoDup d.*1 ->
  exists d' ext,
    fold_left set_item items d = d' ++ ext
    /\ d'.*1 = d.*1 /\ NoDup (d' ++ ext).*1
    /\ forall k, k ∈ ext.*1 -> k ∈ items.*1.
Proof.
  intros Hd. induction items as [|[k v] items IH] using rev_ind.
  - exists d, []. rewrite app_nil_r. split; [done|]. split; [done|].
    split; [done|]. intros k Hk. by apply not_elem_of_nil in Hk.
  - destruct IH as (d' & ext & Hfold & Hkeys & Hnd & Hext).
    rewrite fold_left_app, Hfold. simpl. unfold set_item. cbn [fst snd].
    assert (NoDup (Dict.set k v (d' ++ ext)).*1) as Hnd' by by apply set_NoDup.
    rewrite set_app in Hnd' |- *.
    destruct (decide (k ∈ d'.*1)) as [Hin|Hnin].
    + exists (Dict.set k v d'), ext. split; [done|].
      split; [by rewrite set_keys, decide_True|]. split; [done|].
      intros k' Hk'. rewrite fmap_app. apply elem_of_app. left. by apply Hext.
    + exists d', (Dict.set k v ext). split; [done|]. split; [done|].
      split; [done|]. intros k'. rewrite set_keys, !fmap_app.
      case_decide; rewrite ?elem_of_app.
      * intros Hk'. left. by apply Hext.
      * intros [Hk'|Hk']; [left; by apply Hext|].
        apply list_elem_of_singleton in Hk' as ->. right. by left.
Qed.

Lemma update_object (d : pydict) (members : list (text * json)) :
  Dict.update d (JObj members)
  = Ok (fold_left set_item (map (fun m => (KStr m.1, m.2)) members) d).
Proof.
  simpl. f_equal. revert d.
  induction members as [|[k v] members IH]; intros d; [done|].
  cbn [fold_left map]. apply IH.
Qed.

Lemma dumped_members (config : pydict) :
  string_keyed config ->
  exists members,
    mapM dumped_member config = Some members
    /\ map (fun m => (KStr m.1, m.2)) members = config.
Proof.
  unfold string_keyed.
  induction config as [|[k v] config IH]; intros Hkeys; [by exists []|].
  rewrite fmap_cons in Hkeys. cbn [fst] in Hkeys.
  apply Forall_cons_1 in Hkeys as [[s ->] Hkeys].
  destruct (IH Hkeys) as (members & Hdump & Hmembers).
  exists ((s, v) :: members). split; [|by rewrite <- Hmembers].
  change (mapM dumped_member ((KStr s, v) :: config))
    with (x ← dumped_member (KStr s, v);
          k ← mapM dumped_member config; mret (x :: k)).
  by rewrite Hdump.
Qed.

Lemma load_config_loadable (default_config : pydict)
    (config_file : config_source) :
  loadable config_file ->
  exists items warnings,
    load_config default_config config_file
    = (Ok (fold_left set_item items default_config), warnings)
    /\ string_keyed items.
Proof.
  intros [->|[->|[members ->]]].
  - exists [], []. split; [done|]. constructor.
  - exists [], [InvalidConfigFile]. split; [done|]. constructor.
  - exists (map (fun m => (KStr m.1, m.2)) members), [].
    cbn [load_config]. rewrite update_object. split; [done|].
    unfold string_keyed. rewrite Forall_fmap, Forall_fmap.
    apply Forall_true. intros [k v]. by exists k.
Qed.

(** X9. Saving what was loaded and loading it again gives the same
    configuration: for a configuration file that is missing, is not
    JSON, or holds a JSON object, the dictionary [_load_config] returns
    is written by [_save_config] as an object from which [_load_config]
    returns that dictionary again, with keys and values in the same
    order, and without warning. *)
Theorem save_load_fixed_point (default_config : pydict)
    (config_file : config_source) :
  NoDup default_config.*1 -> string_keyed default_config ->
  loadable config_file ->
  exists config warnings saved,
    load_config default_config config_file = (Ok config, warnings)
    /\ _save_config config = Some saved
    /\ load_config default_config saved = (Ok config, []).
Proof.
  intros Hnd Hstr Hfile.
  destruct (load_config_loadable default_config config_file Hfile)
    as (items & warnings & Hload & Hitems).
  destruct (fold_set_shape items default_config Hnd)
    as (d' & ext & Hfold & Hkeys & Hnd' & Hext).
  assert (string_keyed (d' ++ ext)) as Hstr'.
  { unfold string_keyed in *. rewrite fmap_app, Forall_app, Hkeys.
    split; [done|]. rewrite Forall_forall in Hitems |- *.
    intros k Hk. by apply Hitems, Hext. }
  destruct (dumped_members _ Hstr') as (members & Hdump & Hmembers).
  exists (d' ++ ext), warnings, (Document (JObj members)).
  rewrite Hload, Hfold. split; [done|].
  unfold _save_config. rewrite Hdump. split; [done|].
  cbn [load_config]. rewrite update_object, Hmembers. do 2 f_equal.
  rewrite fold_left_app.
  pose proof (fold_set_same_keys d' [] default_config Hkeys Hnd) as Hsame.
  simpl in Hsame. rewrite Hsame. by apply fold_set_new.
Qed.

(** X10. A configuration file that holds a JSON object is merged over
    the defaults key by key, for the sync and for the export
    configuration alike: [_load_config] returns without warning a
    dictionary in which every persisted key carries its persisted value
    (the last one when the object repeats the key), also a key the
    defaults do not know, and every other key carries what the defaults
    give it. *)
Theorem load_config_merges_object (default_config : pydict)
    (members : list (text * json)) :
  exists merged,
    load_config default_config (Document (JObj members)) = (Ok merged, [])
    /\ (forall s v, persisted s members = Some v ->
                    Dict.get (KStr s) merged = Some v)
    /\ (forall s, persisted s members = None ->
                  Dict.get (KStr s) merged = Dict.get (KStr s) default_config)
    /\ (forall s v,
          Dict.get (KStr s) default_config = Some v ->
          is_Some (Dict.get (KStr s) merged)).
Proof.
  destruct (load_config_merge default_config members) as (merged & Hload & Hget).
  exists merged. split; [done|]. split; [|split].
  - intros s v Hs. by rewrite (Hget (KStr s)), Hs.
  - intros s Hs. by rewrite (Hget (KStr s)), Hs.
  - intros s v Hs. rewrite (Hget (KStr s)).
    destruct (persisted s members); by eauto.
Qed.

(** ** Syncing one package *)

Lemma fold_persisted (s : text) (members : list (text * json)) (acc : option json) :
  fold_left (fun acc '(k, v) => if decide (k = s) then Some v else acc) members acc
  = match persisted s members with Some x => Some x | None => acc end.
Proof.
  unfold persisted. revert acc.
  induction members as [|[k v] members IH]; intros acc; [done|].
  cbn [fold_left]. rewrite IH, (IH (if decide (k = s) then Some v else None)).
  destruct (fold_left _ members None); [done|]. by case_decide.
Qed.

Lemma persisted_cons (s k : text) (v : json) (members : list (text * json)) :
  persisted s ((k, v) :: members)
  = match persisted s members with
    | Some x => Some x
    | None => if decide (k = s) then Some v else None
    end.
Proof. unfold persisted at 1. cbn [fold_left]. apply fold_persisted. Qed.

Lemma persisted_absent (s : text) (members : list (text * json)) :
  s ∉ members.*1 -> persisted s members = None.
Proof.
  induction members as [|[k v] members IH]; [done|].
  rewrite fmap_cons, not_elem_of_cons. cbn [fst]. intros [Hne Hnin].
  rewrite persisted_cons, IH by done. by rewrite decide_False.
Qed.

Lemma members_set_keys (k : text) (v : json) (members : list (text * json)) :
  (members_set k v members).*1
  = if decide (k ∈ members.*1) then members.*1 else members.*1 ++ [k].
Proof.
  induction members as [|[k0 v0] members IH].
  - rewrite decide_False; [done|apply not_elem_of_nil].
  - cbn [members_set]. rewrite fmap_cons. cbn [fst].
    destruct (decide (k0 = k)) as [->|Hne].
    + rewrite fmap_cons. cbn [fst]. rewrite decide_True; [done|by left].
    + rewrite fmap_cons. cbn [fst]. rewrite IH.
      destruct (decide (k ∈ members.*1)) as [Hin|Hnin].
      * rewrite decide_True; [done|by right].
      * rewrite decide_False; [done|]. by intros [?|?]%elem_of_cons.
Qed.

Lemma members_set_NoDup (k : text) (v : json) (members : list (text * json)) :
  NoDup members.*1 -> NoDup (members_set k v members).*1.
Proof.
  intros Hd. rewrite members_set_keys. case_decide; [done|].
  apply NoDup_app. split; [done|]. split; [|apply NoDup_singleton].
  intros k' Hk' Hk. by apply list_elem_of_singleton in Hk as ->.
Qed.

(** [obj[k] = v] on an object whose keys are distinct. *)
Lemma persisted_members_set (s k : text) (v : json)
    (members : list (text * json)) :
  NoDup members.*1 ->
  persisted s (members_set k v members)
  = if decide (k = s) then Some v else persisted s members.
Proof.
  induction members as [|[k0 v0] members IH].
  - intros _. cbn [members_set]. rewrite persisted_cons.
    by case_decide.
  - rewrite fmap_cons. cbn [fst]. intros [Hnin Hnd]%NoDup_cons.
    cbn [members_set]. destruct (decide (k0 = k)) as [->|Hne].
    + rewrite !persisted_cons. destruct (decide (k = s)) as [->|Hks].
      * by rewrite persisted_absent.
      * done.
    + rewrite !persisted_cons, IH by done.
      destruct (decide (k = s)) as [->|Hks]; [done|]. done.
Qed.

Section SyncFacts.

Variable project_path : path.
Variable upload_to_gdrive : sync_world -> path -> text -> option text.
Variable now_iso : text.
Variable now_stamp : text.
Variable tar_gz : text -> text.

Lemma export_name_last (package_name : text) :
  last (export_name package_name) = Some "e"%char.
Proof. unfold export_name. by rewrite last_app. Qed.

Lemma export_file_not_readme (package_name : text) :
  export_file project_path package_name <> readme_file project_path.
Proof.
  unfold export_file, readme_file, Path.child.
  intros Heq%app_inv_head. simplify_eq.
  pose proof (export_name_last package_name) as Hlast.
  by rewrite H in Hlast.
Qed.

(** What [create_placeholder_package] leaves on the disk. *)
Lemma create_placeholder_package_disk (w : sync_world) (package_path : path)
    (package_name : text) :
  let r := create_placeholder_package project_path tar_gz w package_path
             package_name in
  r.1 = export_file project_path package_name
  /\ s_config r.2 = s_config w /\ s_uploads r.2 = s_uploads w
  /\ is_Some (s_disk r.2 !! r.1)
  /\ s_disk r.2 !! readme_file project_path = None
  /\ (forall f, f <> r.1 -> f <> readme_file project_path -> s_disk r.2 !! f = s_disk w !! f).
Proof.
  intros r. subst r. unfold create_placeholder_package. cbn.
  fold (export_file project_path package_name). fold (readme_file project_path).
  split; [done|]. split; [done|]. split; [done|].
  pose proof (export_file_not_readme package_name) as Hne.
  split; [|split].
  - rewrite lookup_delete_ne by done. rewrite lookup_insert_eq. by eexists.
  - apply lookup_delete_eq.
  - intros f Hf Hreadme.
    rewrite lookup_delete_ne by done.
    rewrite lookup_insert_ne by done. by rewrite lookup_insert_ne.
Qed.

(** X11. What [create_placeholder_package] does to the export
    directory: it returns the archive [<name with / as _>.unitypackage]
    directly in [PackageExports] (the name holds no path separator),
    which exists afterwards; [README.txt] of that directory does not
    exist afterwards, whether or not it existed before; every other file
    is as before. *)
Theorem create_placeholder_package_effect (w : sync_world)
    (package_path : path) (package_name : text) :
  let r := create_placeholder_package project_path tar_gz w package_path
             package_name in
  r.1 = export_path project_path ++ [export_name package_name]
  /\ ("/"%char ∉ export_name package_name)
  /\ is_Some (s_disk r.2 !! r.1)
  /\ s_disk r.2 !! readme_file project_path = None
  /\ (forall f, f <> r.1 -> f <> readme_file project_path ->
                s_disk r.2 !! f = s_disk w !! f).
Proof.
  intros r.
  destruct (create_placeholder_package_disk w package_path package_name)
    as (Hfile & _ & _ & Hexists & Hreadme & Hother).
  split; [exact Hfile|]. split; [|done].
  unfold export_name, Text.replace_char.
  rewrite elem_of_app, list_elem_of_fmap. intros [(c & Hc & _)|Hin].
  - by destruct (Ascii.eqb_spec c "/").
  - by apply (bool_decide_eq_false_1 ("/"%char ∈ txt ".unitypackage")).
Qed.

(** The state in which [sync_package] uploads, for a package without
    link whose archive exists or may be replaced by a placeholder. *)
Lemma sync_package_prepared (w : sync_world) (p : package)
    (use_placeholder : bool) :
  p_has_link p = false ->
  is_Some (s_disk w !! export_file project_path (p_name p))
  \/ use_placeholder = true ->
  exists w1,
    sync_package project_path upload_to_gdrive now_iso now_stamp tar_gz w p
      use_placeholder
    = (let export_file := export_file project_path (p_name p) in
       let package_name := p_name p in
       let drive_link := upload_to_gdrive w1 export_file package_name in
       let w := s_uploaded export_file package_name w1 in
       match drive_link with
       | None | Some [] => (Ok false, w)
       | Some drive_link =>
           let w :=
             update_download_instructions project_path now_stamp w
               (p_instructions_file p) drive_link package_name in
           match link_file_id drive_link with
           | None => (Raise IndexError, w)
           | Some file_id =>
               let entry := mapping_entry file_id drive_link now_iso in
               match Dict.get (KStr (txt "package_mappings")) (s_config w) with
               | None => (Raise KeyError, w)
               | Some (JObj mappings) =>
                   let mappings := members_set package_name entry mappings in
                   (Ok true,
                    s_with_config
                      (Dict.set (KStr (txt "package_mappings"))
                         (JObj mappings) (s_config w)) w)
               | Some _ => (Raise TypeError, w)
               end
           end
       end)
    /\ s_config w1 = s_config w /\ s_uploads w1 = s_uploads w
    /\ (forall f, f <> export_file project_path (p_name p) ->
                  f <> readme_file project_path ->
                  s_disk w1 !! f = s_disk w !! f)
    /\ (is_Some (s_disk w !! export_file project_path (p_name p)) ->
        s_disk w1 = s_disk w).
Proof.
  intros Hlink Hprep. unfold sync_package. rewrite Hlink. cbv zeta.
  change (s_disk (s_logged INFO (Syncing (p_name p)) w)) with (s_disk w).
  fold (export_file project_path (p_name p)).
  case_bool_decide as Hexists.
  - exists (s_logged INFO (Syncing (p_name p)) w). by split.
  - destruct Hprep as [?| ->]; [done|].
    pose proof (create_placeholder_package_disk
                  (s_logged INFO (Syncing (p_name p)) w) (p_path p) (p_name p))
      as (Hfile & Hconfig & Huploads & _ & _ & Hother).
    destruct (create_placeholder_package project_path tar_gz
                (s_logged INFO (Syncing (p_name p)) w) (p_path p) (p_name p))
      as [file w1] eqn:Hplace.
    cbn [fst snd] in *. subst file. exists w1. split; [done|].
    split; [done|]. split; [done|]. split; [exact Hother | done].
Qed.

(** X12. A successful sync of a package without link: when the archive
    exists or placeholders are allowed, the upload returns a non-empty
    link with an identifier after [/d/], and the configuration holds an
    object under [package_mappings], [sync_package] returns [True], has
    uploaded the archive once, has rewritten the pointer file with the
    instructions text around the link, and has recorded under the
    package's name the identifier, the link and the time; the mappings
    of the other packages and every other configuration key are as
    before. *)
Theorem sync_package_records_link (w : sync_world) (p : package)
    (use_placeholder : bool) (drive_link file_id : text)
    (mappings : list (text * json)) :
  let r := sync_package project_path upload_to_gdrive now_iso now_stamp tar_gz
             w p use_placeholder in
  p_has_link p = false ->
  is_Some (s_disk w !! export_file project_path (p_name p))
  \/ use_placeholder = true ->
  (forall w' f, upload_to_gdrive w' f (p_name p) = Some drive_link) ->
  drive_link <> [] ->
  link_file_id drive_link = Some file_id ->
  Dict.get (KStr (txt "package_mappings")) (s_config w) = Some (JObj mappings) ->
  NoDup mappings.*1 ->
  r.1 = Ok true
  /\ s_uploads r.2
     = s_uploads w ++ [(export_file project_path (p_name p), p_name p)]
  /\ s_disk r.2 !! p_instructions_file p
     = Some (Some (instructions_text now_stamp drive_link (p_name p)))
  /\ (exists mappings',
        Dict.get (KStr (txt "package_mappings")) (s_config r.2)
        = Some (JObj mappings')
        /\ NoDup mappings'.*1
        /\ persisted (p_name p) mappings'
           = Some (mapping_entry file_id drive_link now_iso)
        /\ forall other, other <> p_name p ->
                         persisted other mappings' = persisted other mappings)
  /\ (forall k, k <> KStr (txt "package_mappings") ->
                Dict.get k (s_config r.2) = Dict.get k (s_config w)).
Proof.
  intros r Hlink Hprep Hupload Hne Hid Hmappings Hnd. subst r.
  destruct (sync_package_prepared w p use_placeholder Hlink Hprep)
    as (w1 & -> & Hconfig & Huploads & _ & _).
  cbv zeta. rewrite Hupload. destruct drive_link as [|c l]; [done|].
  rewrite Hid.
  set (w2 := update_download_instructions _ _ _ _ _ _).
  assert (s_config w2 = s_config w) as Hconfig2 by (by rewrite <- Hconfig).
  assert (s_uploads w2
          = s_uploads w ++ [(export_file project_path (p_name p), p_name p)])
    as Huploads2 by (by rewrite <- Huploads).
  assert (s_disk w2 !! p_instructions_file p
          = Some (Some (instructions_text now_stamp (c :: l) (p_name p))))
    as Hdisk2 by apply lookup_insert_eq.
  clearbody w2. rewrite Hconfig2, Hmappings. cbn [fst snd].
  split; [done|]. split; [exact Huploads2|]. split; [exact Hdisk2|].
  cbn [s_config s_with_config]. split.
  - exists (members_set (p_name p) (mapping_entry file_id (c :: l) now_iso)
              mappings).
    rewrite get_set, decide_True by done.
    split; [done|]. split; [by apply members_set_NoDup|].
    split.
    + by rewrite persisted_members_set, decide_True.
    + intros other Hother. by rewrite persisted_members_set, decide_False.
  - intros k Hk. by rewrite get_set, decide_False.
Qed.

(** X13. A sync that returns [False] changes neither the configuration
    nor the pointer file: the package had no link, the mappings are as
    before, and every file other than the package's archive and
    [README.txt] in [PackageExports] is as before; when the archive
    existed or placeholders are off, the whole disk is as before, and
    without archive and placeholder nothing is uploaded. *)
Theorem sync_package_not_synced (w : sync_world) (p : package)
    (use_placeholder : bool) :
  let r := sync_package project_path upload_to_gdrive now_iso now_stamp tar_gz
             w p use_placeholder in
  r.1 = Ok false ->
  p_has_link p = false
  /\ s_config r.2 = s_config w
  /\ (forall f, f <> export_file project_path (p_name p) ->
                f <> readme_file project_path ->
                s_disk r.2 !! f = s_disk w !! f)
  /\ (is_Some (s_disk w !! export_file project_path (p_name p))
      \/ use_placeholder = false -> s_disk r.2 = s_disk w)
  /\ (s_disk w !! export_file project_path (p_name p) = None ->
      use_placeholder = false -> s_uploads r.2 = s_uploads w).
Proof.
  intros r Hr. subst r.
  destruct (p_has_link p) eqn:Hlink.
  { unfold sync_package in Hr. by rewrite Hlink in Hr. }
  split; [done|].
  destruct (decide (is_Some (s_disk w !! export_file project_path (p_name p))
                    \/ use_placeholder = true)) as [Hprep|Hnone].
  - destruct (sync_package_prepared w p use_placeholder Hlink Hprep)
      as (w1 & Hsync & Hconfig & Huploads & Hother & Hsame).
    rewrite Hsync in Hr |- *. cbv zeta in Hr |- *.
    destruct (upload_to_gdrive w1 _ _) as [[|c l]|].
    + split; [done|]. split; [exact Hother|]. split.
      * intros [Hexists| ->]; [by apply Hsame|].
        destruct Hprep as [Hexists|?]; [by apply Hsame|done].
      * intros Hnone ->. destruct Hprep as [[? Hexists]|?]; [|done].
        by rewrite Hnone in Hexists.
    + destruct (link_file_id (c :: l)); [|done].
      destruct (Dict.get _ _) as [[]|]; done.
    + split; [done|]. split; [exact Hother|]. split.
      * intros [Hexists| ->]; [by apply Hsame|].
        destruct Hprep as [Hexists|?]; [by apply Hsame|done].
      * intros Hnone ->. destruct Hprep as [[? Hexists]|?]; [|done].
        by rewrite Hnone in Hexists.
  - assert (s_disk w !! export_file project_path (p_name p) = None
            /\ use_placeholder = false) as [Hnone' ->].
    { split.
      - apply eq_None_not_Some. intros ?. apply Hnone. by left.
      - destruct use_placeholder; [|done]. destruct Hnone. by right. }
    unfold sync_package. rewrite Hlink. cbv zeta.
    change (s_disk (s_logged INFO (Syncing (p_name p)) w)) with (s_disk w).
    fold (export_file project_path (p_name p)).
    rewrite bool_decide_eq_false_2 by (by rewrite Hnone'; intros [? ?]).
    done.
Qed.

Lemma Forall_forallb (cls : ascii -> bool) (s : text) :
  forallb cls s = true -> Forall (fun c => cls c = true) s.
Proof.
  induction s as [|c s IH]; simpl; [constructor|].
  intros [Hc Hs]%andb_true_iff. constructor; [done|by apply IH].
Qed.

Lemma idchar_not_slash (file_id : text) :
  Forall (fun c => Re.idchar c = true) file_id ->
  Forall (fun c => negb (Ascii.eqb c "/") = true) file_id.
Proof.
  intros Hid. eapply Forall_impl; [exact Hid|]. intros c Hc.
  destruct (Ascii.eqb_spec c "/") as [->|]; [by vm_compute in Hc|done].
Qed.

Lemma idchar_nonspace (file_id : text) :
  Forall (fun c => Re.idchar c = true) file_id ->
  Forall (fun c => Re.nonspace c = true) file_id.
Proof.
  intros Hid. eapply Forall_impl; [exact Hid|]. intros c.
  by destruct c as [[] [] [] [] [] [] [] []].
Qed.

Lemma link_file_id_share_link (file_id : text) :
  Forall (fun c => Re.idchar c = true) file_id ->
  link_file_id (share_link file_id) = Some file_id.
Proof.
  intros Hid%idchar_not_slash. unfold link_file_id, share_link, txt. simpl.
  f_equal. apply take_while_app; [done|]. by intros c r [= <- _].
Qed.

(** The pointer file [update_download_instructions] writes for a share
    link is read back as that link. *)
Lemma instructions_text_link (file_id package_name : text) :
  file_id <> [] -> Forall (fun c => Re.idchar c = true) file_id ->
  first_drive_link (instructions_text now_stamp (share_link file_id) package_name)
  = Some (share_link file_id)
  /\ Text.contains (txt "drive.google.com")
       (instructions_text now_stamp (share_link file_id) package_name) = true.
Proof.
  intros Hne Hid.
  set (pre := txt "Download the necessary file(s) from the following link:"
              ++ ["010"%char; "010"%char]).
  set (g := txt "file/d/" ++ file_id ++ txt "/view?usp=sharing").
  assert (exists rest,
            instructions_text now_stamp (share_link file_id) package_name
            = pre ++ drive_pattern ++ g ++ "010"%char :: rest) as [rest Htext].
  { eexists. unfold instructions_text, share_link, pre, g, drive_pattern.
    change (txt "https://drive.google.com/file/d/")
      with (txt "https://drive.google.com/" ++ txt "file/d/").
    rewrite <- !app_assoc. reflexivity. }
  rewrite Htext. split.
  - apply first_drive_link_Some. exists g. split.
    { unfold share_link, g, drive_pattern.
      change (txt "https://drive.google.com/file/d/")
        with (txt "https://drive.google.com/" ++ txt "file/d/").
      by rewrite <- !app_assoc. }
    exists (length pre). split.
    + exists pre, ("010"%char :: rest). split; [done|]. split; [done|].
      split; [by destruct file_id|]. split.
      * unfold g. rewrite !Forall_app.
        split; [by apply Forall_forallb; vm_compute|].
        split; [by apply idchar_nonspace|]. by apply Forall_forallb; vm_compute.
      * by intros c r [= <- _].
    + apply unmatched_before. by vm_compute.
  - apply contains_spec.
    exists (pre ++ txt "https://"), (txt "/" ++ g ++ "010"%char :: rest).
    unfold drive_pattern.
    change (txt "https://drive.google.com/")
      with (txt "https://" ++ txt "drive.google.com" ++ txt "/").
    by rewrite <- !app_assoc.
Qed.

(** A sync whose upload returns the share link of [file_id] whenever
    the configuration is the one of [w]. *)
Lemma synced_with_share_link (w : sync_world) (p : package)
    (use_placeholder : bool) (file_id : text) :
  let r := sync_package project_path upload_to_gdrive now_iso now_stamp tar_gz
             w p use_placeholder in
  let txt_file := p_instructions_file p in
  p_has_link p = false ->
  is_Some (s_disk w !! export_file project_path (p_name p))
  \/ use_placeholder = true ->
  (forall w' f, s_config w' = s_config w ->
                upload_to_gdrive w' f (p_name p) = Some (share_link file_id)) ->
  file_id <> [] -> Forall (fun c => Re.idchar c = true) file_id ->
  _has_drive_link (s_disk r.2) txt_file = true
  /\ (forall name,
        package_name txt_file = Some name ->
        instruction_of project_path (s_disk r.2) txt_file
        = ([Instruction name (Path.str txt_file) (share_link file_id)
              (Path.str (relative_to_project project_path txt_file))], []))
  /\ link_file_id (share_link file_id) = Some file_id
  /\ extract_file_id (share_link file_id) = Some file_id.
Proof.
  intros r txt_file Hlink Hprep Hupload Hne Hid.
  pose proof (link_file_id_share_link file_id Hid) as Hcut.
  destruct (instructions_text_link file_id (p_name p) Hne Hid)
    as [Hfirst Hcontains].
  assert (s_disk r.2 !! txt_file
          = Some (Some (instructions_text now_stamp (share_link file_id)
                          (p_name p)))) as Hdisk.
  { subst r.
    destruct (sync_package_prepared w p use_placeholder Hlink Hprep)
      as (w1 & -> & Hconfig & _).
    cbv zeta. rewrite (Hupload w1 _ Hconfig).
    destruct (share_link file_id) as [|c l] eqn:Hshare; [done|].
    rewrite Hcut.
    set (w2 := update_download_instructions _ _ _ _ _ _).
    assert (s_disk w2 !! txt_file
            = Some (Some (instructions_text now_stamp (c :: l) (p_name p))))
      as Hdisk2 by apply lookup_insert_eq.
    clearbody w2. by destruct (Dict.get _ _) as [[]|]. }
  split; [|split; [|split]].
  - unfold _has_drive_link. by rewrite Hdisk.
  - intros name Hname. unfold instruction_of. by rewrite Hdisk, Hfirst, Hname.
  - exact Hcut.
  - unfold share_link. apply extract_share_link; [done..|].
    by intros c rest [= <- _].
Qed.

(** X14. What the sync workflow writes, the download workflow reads
    back.  After [sync_package] has uploaded a package without link and
    the upload has returned the share link of an identifier (non-empty,
    of letters, digits, [_] and [-]), the pointer file holds a text in
    which [_has_drive_link] sees a link and from which
    [find_download_instructions] makes the entry of that package with
    that link as url; the identifier [sync_package] cuts out of the link
    for the mappings and the one [extract_file_id] finds in the url are
    both the identifier that was uploaded. *)
Theorem synced_package_is_downloadable (w : sync_world) (p : package)
    (use_placeholder : bool) (file_id : text) :
  let r := sync_package project_path upload_to_gdrive now_iso now_stamp tar_gz
             w p use_placeholder in
  let txt_file := p_instructions_file p in
  p_has_link p = false ->
  is_Some (s_disk w !! export_file project_path (p_name p))
  \/ use_placeholder = true ->
  (forall w' f, upload_to_gdrive w' f (p_name p) = Some (share_link file_id)) ->
  file_id <> [] -> Forall (fun c => Re.idchar c = true) file_id ->
  _has_drive_link (s_disk r.2) txt_file = true
  /\ (forall name,
        package_name txt_file = Some name ->
        instruction_of project_path (s_disk r.2) txt_file
        = ([Instruction name (Path.str txt_file) (share_link file_id)
              (Path.str (relative_to_project project_path txt_file))], []))
  /\ link_file_id (share_link file_id) = Some file_id
  /\ extract_file_id (share_link file_id) = Some file_id.
Proof.
  intros r txt_file Hlink Hprep Hupload Hne Hid.
  apply synced_with_share_link; [done | done | | done | done].
  intros w' f _. apply Hupload.
Qed.

Lemma update_pairs_keeps_key (k : key) (items : list json) (d d' : pydict) :
  Dict.update_pairs d items = Ok d' ->
  is_Some (Dict.get k d) -> is_Some (Dict.get k d').
Proof.
  revert d. induction items as [|item items IH]; intros d; simpl.
  - by intros [= ->].
  - destruct (Dict.pair_of item) as [[k0 v0]|]; [|done].
    intros Hd' Hk. apply (IH _ Hd'). rewrite get_set. by case_decide.
Qed.

(** [dict.update] removes no key. *)
Lemma update_keeps_key (k : key) (other : json) (d d' : pydict) :
  Dict.update d other = Ok d' ->
  is_Some (Dict.get k d) -> is_Some (Dict.get k d').
Proof.
  destruct other as [| | |s|items|members]; try done.
  - destruct s; [|done]. by intros [= ->].
  - apply update_pairs_keeps_key.
  - rewrite update_object. intros [= <-]. 
    induction (map _ members) as [|[k0 v0] items IH] using rev_ind; [done|].
    intros Hk. rewrite fold_left_app. simpl. unfold set_item at 1. simpl.
    rewrite get_set. case_decide; [done|]. by apply IH.
Qed.

(** X15. Whatever the configuration file holds, [sync_package] on the
    configuration [_load_config] returned never fails for a missing
    [package_mappings] ([KeyError]): loading removes no default key.
    It fails on the mappings ([TypeError]) only when the file, a JSON
    document, has put something other than an object under
    [package_mappings]. *)
Theorem sync_package_finds_mappings (config_file : config_source)
    (config : pydict) (warnings : list config_warning) (w : sync_world)
    (p : package) (use_placeholder : bool) :
  let r := sync_package project_path upload_to_gdrive now_iso now_stamp tar_gz
             w p use_placeholder in
  Sync._load_config config_file = (Ok config, warnings) ->
  s_config w = config ->
  r.1 <> Raise KeyError
  /\ (r.1 = Raise TypeError ->
      (exists loaded_config, config_file = Document loaded_config)
      /\ exists v, Dict.get (KStr (txt "package_mappings")) config = Some v
                   /\ forall mappings, v <> JObj mappings).
Proof.
  intros r Hload <-.
  assert (is_Some (Dict.get (KStr (txt "package_mappings")) (s_config w)))
    as [v Hv].
  { unfold Sync._load_config, load_config in Hload.
    destruct config_file as [| | |loaded_config];
      [injection Hload as <- _ | discriminate | injection Hload as <- _ |].
    - by eexists.
    - by eexists.
    - injection Hload as Hupdate _.
      apply (update_keeps_key _ _ _ _ Hupdate). by eexists. }
  assert ((exists loaded_config, config_file = Document loaded_config)
          \/ exists mappings, v = JObj mappings) as Hfile.
  { unfold Sync._load_config, load_config in Hload.
    destruct config_file as [| | |loaded_config];
      [injection Hload as Hconfig _ | discriminate
      | injection Hload as Hconfig _ |].
    - right. rewrite <- Hconfig in Hv. vm_compute in Hv.
      injection Hv as <-. by eexists.
    - right. rewrite <- Hconfig in Hv. vm_compute in Hv.
      injection Hv as <-. by eexists.
    - left. by eexists. }
  subst r. destruct (p_has_link p) eqn:Hlink.
  { unfold sync_package. rewrite Hlink. by split. }
  destruct (decide (is_Some (s_disk w !! export_file project_path (p_name p))
                    \/ use_placeholder = true)) as [Hprep|Hnone].
  - destruct (sync_package_prepared w p use_placeholder Hlink Hprep)
      as (w1 & -> & Hconfig & _).
    cbv zeta. destruct (upload_to_gdrive w1 _ _) as [[|c l]|]; [by split| |by split].
    destruct (link_file_id (c :: l)); [|by split].
    set (w2 := update_download_instructions _ _ _ _ _ _).
    assert (s_config w2 = s_config w) as -> by (by rewrite <- Hconfig).
    clearbody w2. rewrite Hv.
    destruct v; (split; [done|]); try done; intros _;
      (destruct Hfile as [Hfile|[mappings Hv']]; [|done]);
      (split; [exact Hfile|]); by eexists.
  - unfold sync_package. rewrite Hlink. cbv zeta.
    change (s_disk (s_logged INFO (Syncing (p_name p)) w)) with (s_disk w).
    fold (export_file project_path (p_name p)).
    rewrite bool_decide_eq_false_2 by (intros ?; apply Hnone; by left).
    destruct use_placeholder; [destruct Hnone; by right|]. by split.
Qed.

End SyncFacts.

(** ** Syncing all packages *)

Lemma load_config_over (default_config : pydict) (config_file : config_source) :
  NoDup default_config.*1 -> string_keyed default_config ->
  loadable config_file ->
  exists config warnings,
    load_config default_config config_file = (Ok config, warnings)
    /\ config_over default_config config.
Proof.
  intros Hnd Hstr Hfile.
  destruct (load_config_loadable default_config config_file Hfile)
    as (items & warnings & Hload & Hitems).
  destruct (fold_set_shape items default_config Hnd)
    as (d' & ext & Hfold & Hkeys & Hnd' & Hext).
  exists (d' ++ ext), warnings. rewrite Hload, Hfold. split; [done|].
  split; [|split; [done|]].
  - unfold string_keyed in *. rewrite fmap_app, Forall_app, Hkeys.
    split; [done|]. rewrite Forall_forall in Hitems |- *.
    intros k Hk. by apply Hitems, Hext.
  - exists ext.*1. by rewrite fmap_app, Hkeys.
Qed.

Lemma save_load_over (default_config config : pydict) :
  NoDup default_config.*1 -> config_over default_config config ->
  exists saved,
    _save_config config = Some saved
    /\ load_config default_config saved = (Ok config, []).
Proof.
  intros Hnd (Hstr & Hnd' & ext & Hkeys).
  destruct (dumped_members _ Hstr) as (members & Hdump & Hmembers).
  exists (Document (JObj members)).
  unfold _save_config. rewrite Hdump. split; [done|].
  cbn [load_config]. rewrite update_object, Hmembers. do 2 f_equal.
  rewrite <- (take_drop (length default_config) config) in Hnd' |- *.
  assert ((take (length default_config) config).*1 = default_config.*1)
    as Hhead.
  { rewrite fmap_take, Hkeys. rewrite <- (length_fmap fst default_config).
    by rewrite take_app_length. }
  rewrite fold_left_app.
  pose proof (fold_set_same_keys _ [] default_config Hhead Hnd) as Hsame.
  simpl in Hsame. rewrite Hsame. by apply fold_set_new.
Qed.

Lemma set_config_over (default_config config : pydict) (s : text) (v : json) :
  config_over default_config config ->
  config_over default_config (Dict.set (KStr s) v config).
Proof.
  intros (Hstr & Hnd & ext & Hkeys). split; [|split].
  - unfold string_keyed in *. rewrite set_keys. case_decide; [done|].
    rewrite Forall_app. split; [done|]. repeat constructor. by exists s.
  - by apply set_NoDup.
  - rewrite set_keys. case_decide; [by exists ext|].
    exists (ext ++ [KStr s]). by rewrite Hkeys, app_assoc.
Qed.

Section SyncAllFacts.

Variable project_path : path.
Variable upload_to_gdrive : sync_world -> path -> text -> option text.
Variable now_iso : text.
Variable now_stamp : text.
Variable tar_gz : text -> text.
Variable json_dump : pydict -> text.

(** One step of the loop of [sync_all]. *)
Lemma sync_package_step (w : sync_world) (p : package) (use_placeholder : bool) :
  let r := sync_package project_path upload_to_gdrive now_iso now_stamp tar_gz
             w p use_placeholder in
  (s_config r.2 = s_config w
   \/ exists mappings,
        s_config r.2
        = Dict.set (KStr (txt "package_mappings")) (JObj mappings) (s_config w))
  /\ (s_uploads r.2 = s_uploads w
      \/ p_has_link p = false
         /\ s_uploads r.2
            = s_uploads w ++ [(export_file project_path (p_name p), p_name p)])
  /\ (p_has_link p = true ->
      r.1 = Ok true /\ s_disk r.2 = s_disk w /\ s_config r.2 = s_config w
      /\ s_uploads r.2 = s_uploads w).
Proof.
  intros r. subst r. destruct (p_has_link p) eqn:Hlink.
  { unfold sync_package. rewrite Hlink. cbn. split; [by left|]. by split; [left|]. }
  split; [|split; [|done]];
    (destruct (decide (is_Some (s_disk w !! export_file project_path (p_name p))
                       \/ use_placeholder = true)) as [Hprep|Hnone];
     [ destruct (sync_package_prepared project_path upload_to_gdrive now_iso
                   now_stamp tar_gz w p use_placeholder Hlink Hprep)
         as (w1 & -> & Hconfig & Huploads & _);
       cbv zeta; destruct (upload_to_gdrive w1 _ _) as [[|c l]|];
       [by (left + (right; split)); cbn; rewrite ?Hconfig, ?Huploads
       | 
       |by (left + (right; split)); cbn; rewrite ?Hconfig, ?Huploads];
       destruct (link_file_id (c :: l));
       [|by (left + (right; split)); cbn; rewrite ?Hconfig, ?Huploads];
       set (w2 := update_download_instructions _ _ _ _ _ _);
       assert (s_config w2 = s_config w) as Hconfig2 by (by rewrite <- Hconfig);
       assert (s_uploads w2
               = s_uploads w
                 ++ [(export_file project_path (p_name p), p_name p)])
         as Huploads2 by (by rewrite <- Huploads);
       clearbody w2; destruct (Dict.get _ _) as [[]|]; cbn [fst snd]
     | unfold sync_package; rewrite Hlink; cbv zeta;
       change (s_disk (s_logged INFO (Syncing (p_name p)) w)) with (s_disk w);
       fold (export_file project_path (p_name p));
       rewrite bool_decide_eq_false_2 by (intros ?; apply Hnone; by left);
       (destruct use_placeholder; [destruct Hnone; by right|]); by left ]).
  all: try (by left).
  all: try (by right).
  - right. eexists. cbn. by rewrite Hconfig2.
Qed.

Lemma sync_each_spec (default_config : pydict) (packages : list package)
    (use_placeholders : bool) (n : nat) (w : sync_world) :
  let r := sync_each project_path upload_to_gdrive now_iso now_stamp tar_gz
             packages use_placeholders n w in
  (forall m, r.1 = Ok m ->
             n + length (filter (fun p => p_has_link p = true) packages) <= m
             /\ m <= n + length packages)
  /\ (exists ups,
        s_uploads r.2 = s_uploads w ++ ups
        /\ ups `sublist_of`
             map (fun p => (export_file project_path (p_name p), p_name p))
               (filter (fun p => p_has_link p = false) packages))
  /\ (config_over default_config (s_config w) ->
      config_over default_config (s_config r.2))
  /\ (Forall (fun p => p_has_link p = true) packages ->
      r.1 = Ok (n + length packages)
      /\ s_disk r.2 = s_disk w /\ s_config r.2 = s_config w
      /\ s_uploads r.2 = s_uploads w).
Proof.
  revert n w. induction packages as [|p packages IH]; intros n w r.
  { subst r. cbn. split; [intros m [= <-]; lia|].
    split; [exists []; by rewrite app_nil_r|]. split; [done|].
    intros _. split; [f_equal; lia|done]. }
  subst r. cbn [sync_each].
  pose proof (sync_package_step w p use_placeholders) as (Hconfig & Huploads & Hlinked).
  destruct (sync_package _ _ _ _ _ w p use_placeholders) as [[[|]|e] w'] eqn:Hsync;
    cbn [fst snd] in *.
  - (* synced *)
    destruct (IH (n + 1) w') as (Hcount & (ups & Hups & Hsub) & Hover & Hall).
    split; [|split; [|split]].
    + intros m Hm. apply Hcount in Hm. rewrite filter_cons. cbn [length].
      case_decide; cbn [length]; lia.
    + rewrite filter_cons.
      destruct Huploads as [Hsame|[Hlink Hone]].
      * exists ups. rewrite Hups, Hsame. split; [done|].
        case_decide; [|done]. cbn [map]. by apply sublist_cons.
      * exists ((export_file project_path (p_name p), p_name p) :: ups).
        rewrite Hups, Hone, <- app_assoc. split; [done|].
        rewrite decide_True by done. cbn [map]. by apply sublist_skip.
    + intros Hw. apply Hover.
      destruct Hconfig as [->|[mappings ->]]; [done|by apply set_config_over].
    + intros [Hp Hrest]%Forall_cons_1. destruct (Hlinked Hp) as (_ & Hd & Hc & Hu).
      destruct (Hall Hrest) as (Hr & Hd' & Hc' & Hu').
      rewrite Hr, Hd', Hc', Hu', Hd, Hc, Hu. cbn [length].
      split; [f_equal; lia|done].
  - (* not synced *)
    destruct (IH n w') as (Hcount & (ups & Hups & Hsub) & Hover & Hall).
    split; [|split; [|split]].
    + intros m Hm. apply Hcount in Hm. rewrite filter_cons. cbn [length].
      case_decide as Hp; cbn [length]; [|lia].
      by destruct (Hlinked Hp) as ([=] & _).
    + rewrite filter_cons.
      destruct Huploads as [Hsame|[Hlink Hone]].
      * exists ups. rewrite Hups, Hsame. split; [done|].
        case_decide; [|done]. cbn [map]. by apply sublist_cons.
      * exists ((export_file project_path (p_name p), p_name p) :: ups).
        rewrite Hups, Hone, <- app_assoc. split; [done|].
        rewrite decide_True by done. cbn [map]. by apply sublist_skip.
    + intros Hw. apply Hover.
      destruct Hconfig as [->|[mappings ->]]; [done|by apply set_config_over].
    + intros [Hp Hrest]%Forall_cons_1. by destruct (Hlinked Hp) as ([=] & _).
  - (* an exception leaves the loop *)
    split; [done|]. split; [|split].
    + rewrite filter_cons.
      destruct Huploads as [Hsame|[Hlink Hone]].
      * exists []. rewrite app_nil_r. split; [done|]. apply sublist_nil_l.
      * exists [(export_file project_path (p_name p), p_name p)].
        split; [done|]. rewrite decide_True by done. cbn [map].
        apply sublist_skip, sublist_nil_l.
    + intros Hw.
      destruct Hconfig as [->|[mappings ->]]; [done|by apply set_config_over].
    + intros [Hp Hrest]%Forall_cons_1. by destruct (Hlinked Hp) as ([=] & _).
Qed.

(** X16. The counts of [sync_all].  When discovery raises, [sync_all]
    raises before anything is synced or saved.  Otherwise it works on
    the selected packages (all of them for no or an empty selection):
    when it returns, the total is their number, the success count lies
    between the number of those that already had a link and the total,
    and the configuration has been saved with [last_sync] set; when a
    [sync_package] raises, nothing is saved.  Either way the uploads
    made are, in order, uploads of archives of selected packages without
    link, at most one for each. *)
Theorem sync_all_counts (w : sync_world)
    (specific_packages : option (list text)) (use_placeholders : bool) :
  let r := sync_all project_path upload_to_gdrive now_iso now_stamp tar_gz
             json_dump w specific_packages use_placeholders in
  match find_packages_to_sync project_path (s_disk w) with
  | None => r = (SyncRun (Raise ValueError) None [], w)
  | Some found =>
      let packages := selected specific_packages found in
      (forall success_count total,
         outcome r.1 = Ok (success_count, total) ->
         total = length packages
         /\ length (filter (fun p => p_has_link p = true) packages)
            <= success_count
         /\ success_count <= total
         /\ saved r.1 = Some (s_config r.2)
         /\ Dict.get (KStr (txt "last_sync")) (s_config r.2)
            = Some (JStr now_iso))
      /\ (forall e, outcome r.1 = Raise e -> saved r.1 = None)
      /\ exists ups,
           s_uploads r.2 = s_uploads w ++ ups
           /\ ups `sublist_of`
                map (fun p => (export_file project_path (p_name p), p_name p))
                  (filter (fun p => p_has_link p = false) packages)
  end.
Proof.
  intros r. subst r. unfold sync_all.
  destruct (find_packages_to_sync project_path (s_disk w)) as [found|]; [|done].
  fold (selected specific_packages found). cbv zeta.
  pose proof (sync_each_spec [] (selected specific_packages found)
                use_placeholders 0 w) as (Hcount & Hups & _ & _).
  destruct (sync_each _ _ _ _ _ _ use_placeholders 0 w) as [[m|e] w'];
    cbn [fst snd outcome saved] in *.
  - split; [|split; [done|exact Hups]].
    intros success_count total [= <- <-].
    destruct (Hcount m eq_refl) as [Hlow Hhigh].
    split; [done|]. split; [lia|]. split; [lia|]. split; [done|].
    cbn [s_config s_with_config s_with_disk]. by rewrite get_set, decide_True.
  - split; [done|]. split; [done|exact Hups].
Qed.

(** X17. A second sync has nothing to upload.  When every selected
    package already has a link, [sync_all] returns the total as success
    count, uploads nothing and changes nothing in the configuration but
    [last_sync]; on the disk it rewrites the configuration file
    [.claude/package_sync_config.json] with the dump of that
    configuration and leaves every other file as it is. *)
Theorem sync_all_all_linked (w : sync_world)
    (specific_packages : option (list text)) (use_placeholders : bool)
    (found : list package) :
  let r := sync_all project_path upload_to_gdrive now_iso now_stamp tar_gz
             json_dump w specific_packages use_placeholders in
  let packages := selected specific_packages found in
  find_packages_to_sync project_path (s_disk w) = Some found ->
  Forall (fun p => p_has_link p = true) packages ->
  outcome r.1 = Ok (length packages, length packages)
  /\ s_uploads r.2 = s_uploads w
  /\ s_config r.2
     = Dict.set (KStr (txt "last_sync")) (JStr now_iso) (s_config w)
  /\ (forall k, k <> KStr (txt "last_sync") ->
                Dict.get k (s_config r.2) = Dict.get k (s_config w))
  /\ s_disk r.2 !! config_file project_path
     = Some (Some (json_dump (s_config r.2)))
  /\ forall f, f <> config_file project_path ->
                s_disk r.2 !! f = s_disk w !! f.
Proof.
  intros r packages Hfound Hall. subst r packages. unfold sync_all.
  rewrite Hfound. fold (selected specific_packages found). cbv zeta.
  pose proof (sync_each_spec [] (selected specific_packages found)
                use_placeholders 0 w) as (_ & _ & _ & Hlinked).
  destruct (Hlinked Hall) as (Hr & Hdisk & Hconfig & Huploads).
  destruct (sync_each _ _ _ _ _ _ use_placeholders 0 w) as [[m|e] w'];
    cbn [fst snd outcome saved] in *; [|done].
  injection Hr as ->.
  cbn [s_disk s_config s_uploads s_with_disk s_with_config].
  rewrite Hconfig, Hdisk.
  split; [done|]. split; [done|]. split; [done|]. split.
  - intros k Hk. by rewrite get_set, decide_False.
  - split; [apply lookup_insert_eq|].
    intros f Hf. by rewrite lookup_insert_ne.
Qed.

(** X18. What [sync_all] saves, the next run loads.  For a syncer whose
    configuration was loaded from a file that is missing, is not JSON
    or holds a JSON object, the configuration [sync_all] saves is
    written as an object from which [_load_config] returns that
    configuration again, the recorded mappings and [last_sync]
    included. *)
Theorem sync_all_saves_what_loads (config_file : config_source)
    (config : pydict) (warnings : list config_warning) (w : sync_world)
    (specific_packages : option (list text)) (use_placeholders : bool)
    (saved_config : pydict) :
  let r := sync_all project_path upload_to_gdrive now_iso now_stamp tar_gz
             json_dump w specific_packages use_placeholders in
  loadable config_file ->
  Sync._load_config config_file = (Ok config, warnings) ->
  s_config w = config ->
  saved r.1 = Some saved_config ->
  exists document,
    _save_config saved_config = Some document
    /\ Sync._load_config document = (Ok saved_config, [])
    /\ Dict.get (KStr (txt "last_sync")) saved_config = Some (JStr now_iso).
Proof.
  intros r Hfile Hload Hw Hsaved. subst r.
  assert (NoDup Sync.default_config.*1) as Hnd by compute_done.
  assert (string_keyed Sync.default_config) as Hstr
    by (repeat constructor; by eexists).
  destruct (load_config_over Sync.default_config config_file Hnd Hstr Hfile)
    as (config' & warnings' & Hload' & Hover).
  unfold Sync._load_config in Hload. rewrite Hload' in Hload.
  injection Hload as -> ->.
  assert (config_over Sync.default_config saved_config
          /\ Dict.get (KStr (txt "last_sync")) saved_config = Some (JStr now_iso))
    as [Hsaved_over Hlast].
  { unfold sync_all in Hsaved.
    destruct (find_packages_to_sync project_path (s_disk w)) as [found|];
      [|done].
    fold (selected specific_packages found) in Hsaved. cbv zeta in Hsaved.
    pose proof (sync_each_spec Sync.default_config
                  (selected specific_packages found) use_placeholders 0 w)
      as (_ & _ & Hkeep & _).
    destruct (sync_each _ _ _ _ _ _ use_placeholders 0 w) as [[m|e] w'];
      cbn [fst snd outcome saved] in *; [|done].
    injection Hsaved as <-. cbn [s_config s_with_config s_with_disk]. split.
    - apply set_config_over, Hkeep. by rewrite Hw.
    - by rewrite get_set, decide_True. }
  destruct (save_load_over Sync.default_config saved_config Hnd Hsaved_over)
    as (document & Hdump & Hreload).
  by exists document.
Qed.

End SyncAllFacts.

(** ** The package list *)

Lemma text_ltb_asym (a b : text) : text_ltb a b = true -> text_ltb b a = false.
Proof.
  revert b. induction a as [|x a IH]; intros [|y b]; simpl; try done.
  destruct (N.ltb_spec (N_of_ascii x) (N_of_ascii y)) as [Hxy|Hxy];
    destruct (N.ltb_spec (N_of_ascii y) (N_of_ascii x)) as [Hyx|Hyx];
    try done; try lia.
  apply IH.
Qed.

Lemma insert_by_name_Permutation (x : listing) (items : list listing) :
  insert_by_name x items ≡ₚ x :: items.
Proof.
  induction items as [|y items IH]; simpl; [done|].
  destruct (text_ltb _ _); [|done]. rewrite IH. apply Permutation_swap.
Qed.

Lemma sorted_by_name_Permutation (items : list listing) :
  sorted_by_name items ≡ₚ items.
Proof.
  induction items as [|x items IH]; simpl; [done|].
  by rewrite insert_by_name_Permutation, IH.
Qed.

Lemma insert_by_name_Sorted (x : listing) (items : list listing) :
  Sorted name_le items -> Sorted name_le (insert_by_name x items).
Proof.
  induction items as [|y items IH]; simpl; intros Hs.
  - by repeat constructor.
  - apply Sorted_inv in Hs as [Hs Hhd].
    destruct (text_ltb (l_name y) (l_name x)) eqn:Hyx.
    + constructor; [by apply IH|].
      destruct items as [|z items]; simpl.
      * constructor. by apply text_ltb_asym.
      * destruct (text_ltb (l_name z) (l_name x)).
        -- constructor. by apply HdRel_inv in Hhd.
        -- constructor. by apply text_ltb_asym.
    + constructor; [by constructor|]. by constructor.
Qed.

Lemma sorted_by_name_Sorted (items : list listing) :
  Sorted name_le (sorted_by_name items).
Proof.
  induction items as [|x items IH]; simpl; [constructor|].
  by apply insert_by_name_Sorted.
Qed.

Lemma items_in_absent (c : text) (cs : categories) :
  c ∉ cs.*1 -> items_in c cs = [].
Proof.
  induction cs as [|[k items] cs IH]; [done|].
  rewrite fmap_cons, not_elem_of_cons. cbn [fst items_in]. intros [Hne Hnin].
  rewrite decide_False by done. by apply IH.
Qed.

Lemma items_in_app (c : text) (cs cs' : categories) :
  items_in c (cs ++ cs') = items_in c cs ++ items_in c cs'.
Proof.
  induction cs as [|[k items] cs IH]; [done|]. cbn [app items_in].
  case_decide; [|done]. by rewrite IH, app_assoc.
Qed.

Lemma items_in_elem (c : text) (items : list listing) (cs : categories) :
  NoDup cs.*1 -> (c, items) ∈ cs -> items_in c cs = items.
Proof.
  induction cs as [|[k its] cs IH]; [by intros _ ?%elem_of_nil|].
  rewrite fmap_cons. cbn [fst items_in]. intros [Hnin Hnd]%NoDup_cons.
  intros [[= <- <-]|Hin]%elem_of_cons.
  - rewrite decide_True by done. rewrite items_in_absent by done.
    by rewrite app_nil_r.
  - rewrite decide_False; [by apply IH|].
    intros ->. apply Hnin. apply list_elem_of_fmap. by exists (c, items).
Qed.

Lemma category_append_keys (category : text) (x : listing) (cs : categories) :
  (category_append category x cs).*1 = cs.*1.
Proof.
  induction cs as [|[k items] cs IH]; [done|]. cbn [category_append].
  case_decide; [done|]. by rewrite !fmap_cons, IH.
Qed.

Lemma items_in_append (c category : text) (x : listing) (cs : categories) :
  NoDup cs.*1 -> category ∈ cs.*1 ->
  items_in c (category_append category x cs)
  = items_in c cs ++ (if decide (category = c) then [x] else []).
Proof.
  induction cs as [|[k items] cs IH]; [by intros _ ?%elem_of_nil|].
  rewrite fmap_cons. cbn [fst category_append]. intros [Hnin Hnd]%NoDup_cons Hin.
  destruct (decide (k = category)) as [->|Hne].
  - cbn [items_in]. destruct (decide (category = c)) as [->|Hc].
    + rewrite items_in_absent by done. by rewrite !app_nil_r.
    + by rewrite app_nil_r.
  - apply elem_of_cons in Hin as [?|Hin]; [done|].
    cbn [items_in]. rewrite IH by done.
    destruct (decide (k = c)); [|done]. by rewrite app_assoc.
Qed.

Lemma collect_spec (d : disk) (cs : categories) (p : package) :
  NoDup cs.*1 ->
  NoDup (collect d cs p).*1
  /\ (forall c, c ∈ (collect d cs p).*1
                <-> c ∈ cs.*1
                    \/ p_has_link p = true /\ category_of (p_name p) = c)
  /\ (forall c, items_in c (collect d cs p)
                = items_in c cs ++ filed_under c [p] ≫= listing_of d).
Proof.
  intros Hnd. unfold collect, filed_under.
  destruct (p_has_link p) eqn:Hlink.
  2:{ split; [done|]. split; [intros c; naive_solver|].
      intros c. rewrite filter_cons. rewrite decide_False by (intros [? _]; congruence).
      by rewrite app_nil_r. }
  cbv zeta.
  set (category := category_of (p_name p)).
  set (cs1 := if bool_decide (category ∈ cs.*1) then cs
              else cs ++ [(category, [])]).
  assert (NoDup cs1.*1
          /\ (forall c, c ∈ cs1.*1 <-> c ∈ cs.*1 \/ category = c)
          /\ forall c, items_in c cs1 = items_in c cs) as (Hnd1 & Hkeys1 & Hitems1).
  { subst cs1. case_bool_decide as Hin.
    - split; [done|]. split; [|done]. intros c. naive_solver.
    - split; [|split].
      + rewrite fmap_app. apply NoDup_app. split; [done|].
        split; [|apply NoDup_singleton].
        intros k Hk Hk'. apply list_elem_of_singleton in Hk' as ->. done.
      + intros c. rewrite fmap_app, elem_of_app. cbn.
        rewrite list_elem_of_singleton. naive_solver.
      + intros c. rewrite items_in_app. cbn. case_decide; by rewrite app_nil_r. }
  assert (category ∈ cs1.*1) as Hin1 by (apply Hkeys1; by right).
  clearbody cs1.
  assert (forall c, filed_under c [p] ≫= listing_of d
                    = if decide (category = c) then listing_of d p else [])
    as Hfiled.
  { intros c. unfold filed_under. rewrite filter_cons.
    destruct (decide (category = c)) as [Hc|Hc].
    - rewrite decide_True by done. cbn. by rewrite app_nil_r.
    - rewrite decide_False; [done|]. intros [_ ?]. done. }
  unfold filed_under in Hfiled.
  unfold listing_of in *.
  destruct (d !! p_instructions_file p) as [[content|]|].
  2,3: split; [done|]; split;
       [intros c; rewrite Hkeys1; naive_solver|];
       intros c; rewrite Hitems1, Hfiled; case_decide; by rewrite app_nil_r.
  destruct (first_drive_link content) as [link|].
  2: split; [done|]; split;
       [intros c; rewrite Hkeys1; naive_solver|];
       intros c; rewrite Hitems1, Hfiled; case_decide; by rewrite app_nil_r.
  split; [by rewrite category_append_keys|]. split.
  - intros c. rewrite category_append_keys, Hkeys1. naive_solver.
  - intros c. rewrite items_in_append, Hitems1, Hfiled by done. done.
Qed.

Lemma collect_all_spec (d : disk) (packages : list package) (cs : categories) :
  NoDup cs.*1 ->
  NoDup (fold_left (collect d) packages cs).*1
  /\ (forall c, c ∈ (fold_left (collect d) packages cs).*1
                <-> c ∈ cs.*1
                    \/ exists p, p ∈ packages /\ p_has_link p = true
                                 /\ category_of (p_name p) = c)
  /\ (forall c, items_in c (fold_left (collect d) packages cs)
                = items_in c cs ++ filed_under c packages ≫= listing_of d).
Proof.
  revert cs. induction packages as [|p packages IH]; intros cs Hnd.
  { cbn. split; [done|]. split.
    - intros c. split; [by left|]. intros [?|(p & ?%elem_of_nil & _)]; done.
    - intros c. by rewrite app_nil_r. }
  cbn [fold_left].
  destruct (collect_spec d cs p Hnd) as (Hnd1 & Hkeys1 & Hitems1).
  destruct (IH _ Hnd1) as (Hnd2 & Hkeys2 & Hitems2).
  split; [done|]. split.
  - intros c. rewrite Hkeys2, Hkeys1. split.
    + intros [[?|[? ?]]|(q & ? & ? & ?)]; [by left| |].
      * right. exists p. split; [by left|done].
      * right. exists q. split; [by right|done].
    + intros [?|(q & [->|?]%elem_of_cons & ? & ?)]; [by left; left| |].
      * left. by right.
      * right. by exists q.
  - intros c. rewrite Hitems2, Hitems1, <- app_assoc. f_equal.
    unfold filed_under.
    rewrite (filter_cons _ p packages), (filter_cons _ p []), filter_nil.
    destruct (decide _); cbn; by rewrite ?app_nil_r.
Qed.

(** X19. What [generate_package_list] writes.  When discovery succeeds,
    the file [PACKAGE_DOWNLOADS.md] of the project is written with one
    section per category, each category once and exactly those with a
    package for which [has_link] holds (so a section can be empty: host
    named, no full link); the items of a section are the first full
    links of the readable pointer files of these packages, printed in
    ascending order of name, each item once. *)
Theorem generate_package_list_sections (project_path : path) (now_stamp : text)
    (d : disk) (packages : list package) :
  let list_file := Path.child project_path (txt "PACKAGE_DOWNLOADS.md") in
  find_packages_to_sync project_path d = Some packages ->
  exists sections,
    generate_package_list project_path now_stamp d
    = Some (list_file, [(INFO, GeneratedPackageList (txt "PACKAGE_DOWNLOADS.md"))],
            <[list_file := Some (package_list now_stamp sections)]> d)
    /\ NoDup sections.*1
    /\ (forall c, c ∈ sections.*1
                  <-> exists p, p ∈ packages /\ p_has_link p = true
                                /\ category_of (p_name p) = c)
    /\ forall c items,
         (c, items) ∈ sections ->
         items = filed_under c packages ≫= listing_of d
         /\ sorted_by_name items ≡ₚ items
         /\ Sorted name_le (sorted_by_name items).
Proof.
  intros list_file Hfound.
  exists (fold_left (collect d) packages []).
  destruct (collect_all_spec d packages []) as (Hnd & Hkeys & Hitems);
    [constructor|].
  split; [|split; [done|split]].
  - unfold generate_package_list. rewrite Hfound. cbn [mbind option_bind].
    do 3 f_equal. unfold Path.child.
    destruct (decide (project_path = [])) as [->|Hproject]; [done|].
    by rewrite name_of_child.
  - intros c. rewrite Hkeys. split; [|by right].
    by intros [?%elem_of_nil|?].
  - intros c items Hin. split; [|split].
    + rewrite <- (items_in_elem c items _ Hnd Hin). by rewrite Hitems.
    + apply sorted_by_name_Permutation.
    + apply sorted_by_name_Sorted.
Qed.

(** ** The export workflow next to the two others *)

Lemma replace_char_id (a b : ascii) (s : text) :
  Text.replace_char a b s = s <-> a ∉ s \/ a = b.
Proof.
  unfold Text.replace_char. induction s as [|c s IH]; simpl.
  - split; [intros _; left; apply not_elem_of_nil|done].
  - rewrite not_elem_of_cons. split.
    + intros [= Hc Hs]. apply IH in Hs as [Hs| ->]; [|by right].
      destruct (Ascii.eqb_spec c a) as [->|Hne]; [by right|]. left. done.
    + intros [[Hne Hs]| ->].
      * destruct (Ascii.eqb_spec c a) as [->|_]; [done|].
        f_equal. apply IH. by left.
      * destruct (Ascii.eqb_spec c b) as [->|_]; (f_equal; apply IH; by right).
Qed.

Lemma replace_char_absent (a b : ascii) (s : text) :
  a <> b -> a ∉ Text.replace_char a b s.
Proof.
  intros Hab. unfold Text.replace_char. rewrite list_elem_of_fmap.
  intros (c & Hc & _). by destruct (Ascii.eqb_spec c a); simplify_eq.
Qed.

Lemma replace_char_keeps_absent (a b c : ascii) (s : text) :
  c <> b -> c ∉ s -> c ∉ Text.replace_char a b s.
Proof.
  intros Hcb Hc. unfold Text.replace_char. rewrite list_elem_of_fmap.
  intros (x & Hx & Hin). destruct (Ascii.eqb_spec x a); simplify_eq.
Qed.

(** X20. The export workflow and the sync workflow agree on the archive
    of a package exactly when its name holds no space: [sync_package]
    looks in [PackageExports] for the name with every slash replaced,
    the export writes the name with every slash and every space
    replaced.  For a name with a space the sync does not find the
    exported archive. *)
Theorem exported_archive_found_by_sync (package_name : text) :
  (export_name package_name = exported_name package_name
   <-> " "%char ∉ package_name)
  /\ forall p : instruction,
       i_name p = package_name -> output_name_of p = exported_name package_name.
Proof.
  split; [|by intros p <-].
  unfold export_name, exported_name. split.
  - intros Heq%app_inv_tail. symmetry in Heq.
    apply replace_char_id in Heq as [Hspace|?]; [|done].
    intros Hin. apply Hspace. unfold Text.replace_char.
    apply list_elem_of_fmap. exists " "%char. split; [done|done].
  - intros Hspace. f_equal. symmetry. apply replace_char_id. left.
    by apply replace_char_keeps_absent.
Qed.

Lemma rfind_dot_app (a b : text) :
  rfind_dot (a ++ b)
  = match rfind_dot b with
    | Some i => Some (length a + i)%nat
    | None => rfind_dot a
    end.
Proof.
  induction a as [|c a IH]; simpl.
  - by destruct (rfind_dot b).
  - rewrite IH. by destruct (rfind_dot b).
Qed.

Lemma stem_of_archive (name : text) :
  name <> [] -> stem (name ++ txt ".unitypackage") = name.
Proof.
  intros Hname. unfold stem. rewrite rfind_dot_app.
  change (rfind_dot (txt ".unitypackage")) with (Some 0%nat). cbv beta iota.
  rewrite Nat.add_0_r, length_app.
  change (length (txt ".unitypackage")) with 13%nat.
  destruct name as [|c name]; [done|]. cbn [length].
  replace (0 <? S (length name))%nat with true by (symmetry; by apply Nat.ltb_lt; lia).
  replace (S (length name) <? S (length name) + 13 - 1)%nat with true
    by (symmetry; apply Nat.ltb_lt; lia).
  cbn [andb]. by rewrite (take_app_length (c :: name)).
Qed.

Lemma take_while_stop (cls : ascii -> bool) (s : text) (c : ascii) (rest : text) :
  cls c = false ->
  Text.take_while cls (s ++ c :: rest) = Text.take_while cls s.
Proof.
  intros Hc. induction s as [|x s IH]; simpl; [by rewrite Hc|].
  destruct (cls x); [by rewrite IH|done].
Qed.

(** X21. The placeholder uploader of the export workflow, seen by the
    two other workflows.  For the archive the export writes for a
    package (of non-empty name) the uploader returns the link
    [https://drive.google.com/file/d/PLACEHOLDER_<name>/view], with the
    name as in the archive, and writes it to the pointer file.  From then
    on the sync workflow counts the package as linked, though nothing
    was uploaded, and the downloader extracts from the link an
    identifier that starts with [PLACEHOLDER_], followed by the longest
    run of identifier characters at the head of the name.  When the name
    holds no white space, download discovery returns the entry of the
    package with exactly this link. *)
Theorem placeholder_link_round_trip (project_path : path) (now_stamp : text)
    (d : disk) (package_path : path) (pkg_name : text) :
  let archive := export_path project_path ++ [exported_name pkg_name] in
  let drive_link := Uploader.upload_file archive in
  let d' := Uploader.update_download_instructions now_stamp d package_path
              drive_link in
  let txt_file := package_path ++ [pointer_name] in
  pkg_name <> [] ->
  drive_link
  = txt "https://drive.google.com/file/d/PLACEHOLDER_" ++ flat_name pkg_name
    ++ txt "/view"
  /\ _has_drive_link d' txt_file = true
  /\ extract_file_id drive_link
     = Some (txt "PLACEHOLDER_"
             ++ Text.take_while Re.idchar (flat_name pkg_name))
  /\ (Forall (fun c => Re.nonspace c = true) pkg_name ->
      forall name,
        package_name txt_file = Some name ->
        instruction_of project_path d' txt_file
        = ([Instruction name (Path.str txt_file) drive_link
              (Path.str (relative_to_project project_path txt_file))], [])).
Proof.
  intros archive drive_link d' txt_file Hname.
  assert (drive_link
          = txt "https://drive.google.com/file/d/PLACEHOLDER_"
            ++ flat_name pkg_name ++ txt "/view") as Hlink.
  { subst drive_link archive. unfold Uploader.upload_file.
    rewrite name_of_child by (unfold export_path; by destruct project_path).
    unfold exported_name. fold (flat_name pkg_name).
    rewrite stem_of_archive; [done|].
    unfold flat_name, Text.replace_char. by destruct pkg_name. }
  assert (d' !! txt_file
          = Some (Some (Uploader.instructions_text now_stamp drive_link)))
    as Hdisk by apply lookup_insert_eq.
  clearbody drive_link d'. subst drive_link.
  set (drive_link := txt "https://drive.google.com/file/d/PLACEHOLDER_"
                     ++ flat_name pkg_name ++ txt "/view") in *.
  set (pre := txt "Download the necessary file(s) from the following link:"
              ++ ["010"%char; "010"%char]).
  assert (exists rest,
            Uploader.instructions_text now_stamp drive_link
            = pre ++ drive_link ++ "010"%char :: rest) as [rest Htext].
  { eexists. unfold Uploader.instructions_text, pre.
    rewrite <- !app_assoc. reflexivity. }
  split; [done|]. split; [|split].
  - unfold _has_drive_link. rewrite Hdisk, Htext. apply contains_spec.
    exists (pre ++ txt "https://"),
      (txt "/file/d/PLACEHOLDER_" ++ flat_name pkg_name ++ txt "/view"
       ++ "010"%char :: rest).
    unfold drive_link.
    change (txt "https://drive.google.com/file/d/PLACEHOLDER_")
      with (txt "https://" ++ txt "drive.google.com"
            ++ txt "/file/d/PLACEHOLDER_").
    by rewrite <- !app_assoc.
  - destruct (take_while_split Re.idchar (flat_name pkg_name))
      as (tail & Hsplit & Hrun & Htail).
    unfold drive_link.
    change (txt "https://drive.google.com/file/d/PLACEHOLDER_")
      with (txt "https://drive.google.com/file/d/" ++ txt "PLACEHOLDER_").
    rewrite Hsplit at 1. rewrite <- !app_assoc.
    rewrite (app_assoc (txt "PLACEHOLDER_")).
    apply extract_share_link.
    + by destruct (Text.take_while Re.idchar (flat_name pkg_name)).
    + apply Forall_app. split; [by apply Forall_forallb|done].
    + intros c r. destruct tail as [|t tail]; [by intros [= <- _]|].
      intros [= <- _]. by apply (Htail t tail).
  - intros Hspace name Hnamed. unfold instruction_of.
    rewrite Hdisk, Hnamed.
    assert (first_drive_link (Uploader.instructions_text now_stamp drive_link)
            = Some drive_link) as ->; [|done].
    rewrite Htext. apply first_drive_link_Some.
    exists (txt "file/d/PLACEHOLDER_" ++ flat_name pkg_name ++ txt "/view").
    split; [done|]. exists (length pre). split.
    + exists pre, ("010"%char :: rest). split.
      { unfold drive_link, drive_pattern.
        change (txt "https://drive.google.com/file/d/PLACEHOLDER_")
          with (txt "https://drive.google.com/" ++ txt "file/d/PLACEHOLDER_").
        by rewrite <- !app_assoc. }
      split; [done|]. split; [done|]. split; [|by intros c r [= <- _]].
      rewrite !Forall_app. split; [by apply Forall_forallb|].
      split; [|by apply Forall_forallb].
      unfold flat_name, Text.replace_char. rewrite !Forall_fmap.
      eapply Forall_impl; [exact Hspace|]. intros c Hc. cbn.
      destruct (Ascii.eqb_spec c "/"); [done|].
      by destruct (Ascii.eqb_spec c " ").
    + apply unmatched_before. by vm_compute.
Qed.

(** ** Export discovery *)

Lemma disk_keys_elem (d : disk) (f : path) :
  f ∈ (map_to_list d).*1 <-> is_Some (d !! f).
Proof.
  rewrite list_elem_of_fmap. split.
  - intros ([k v] & -> & Hin). apply elem_of_map_to_list in Hin. by eexists.
  - intros [v Hv]. exists (f, v). split; [done|]. by apply elem_of_map_to_list.
Qed.

Lemma dir_exists_true (d : disk) (p : path) :
  dir_exists d p = true <-> exists f, is_Some (d !! f) /\ p `prefix_of` f.
Proof.
  unfold dir_exists, Path.under. rewrite existsb_exists.
  setoid_rewrite <- list_elem_of_In. setoid_rewrite disk_keys_elem.
  by setoid_rewrite bool_decide_eq_true.
Qed.

Lemma is_dir_true (d : disk) (p : path) :
  is_dir d p = true
  <-> exists f, is_Some (d !! f) /\ p `prefix_of` f
                /\ (length p < length f)%nat.
Proof.
  unfold is_dir, Path.under. rewrite existsb_exists.
  setoid_rewrite <- list_elem_of_In. setoid_rewrite disk_keys_elem.
  setoid_rewrite andb_true_iff. setoid_rewrite bool_decide_eq_true.
  by setoid_rewrite Nat.ltb_lt.
Qed.

Lemma iterdir_elem (d : disk) (dir item : path) :
  item ∈ iterdir d dir
  <-> exists name rest, is_Some (d !! (dir ++ name :: rest))
                        /\ item = dir ++ [name].
Proof.
  unfold iterdir. rewrite elem_of_remove_dups, list_elem_of_omap. split.
  - intros (f & Hf%disk_keys_elem & Hitem).
    destruct (Path.under dir f) eqn:Hunder; [|done].
    destruct (Nat.ltb_spec (length dir) (length f)) as [Hlen|]; [|done].
    cbn in Hitem. injection Hitem as <-.
    apply bool_decide_eq_true in Hunder as [[|name rest] ->].
    { rewrite app_nil_r in Hlen. lia. }
    exists name, rest. split; [done|].
    replace (S (length dir)) with (length dir + 1)%nat by lia.
    by rewrite take_app_add.
  - intros (name & rest & Hf & ->). exists (dir ++ name :: rest).
    split; [by apply disk_keys_elem|].
    unfold Path.under. rewrite bool_decide_eq_true_2 by by eexists.
    rewrite (proj2 (Nat.ltb_lt _ _))
      by (rewrite length_app; cbn [length]; lia).
    cbn [andb]. f_equal.
    replace (S (length dir)) with (length dir + 1)%nat by lia.
    by rewrite take_app_add.
Qed.

Lemma parent_of_file (dir : path) (x file : text) :
  Path.parent (dir ++ [x; file]) = dir ++ [x].
Proof.
  unfold Path.parent.
  destruct (dir ++ [x; file]) as [|a [|b l]] eqn:Heq.
  - by destruct dir.
  - destruct dir as [|y [|z dir]]; simplify_eq.
  - rewrite <- Heq.
    change (dir ++ [x; file]) with (dir ++ [x] ++ [file]).
    by rewrite app_assoc, removelast_last.
Qed.

Section ExportFacts.

Variable project_path : path.
Variable _get_directory_size : disk -> path -> nat.

Lemma packages_path_nonempty : packages_path project_path <> [].
Proof. unfold packages_path. by destruct project_path. Qed.

(** A file at or below [dir / name / ...] makes [dir / name] an entry
    of [dir] and a directory. *)
Lemma entry_of (d : disk) (dir : path) (name : text) (below : path) :
  is_Some (d !! (dir ++ name :: below)) -> below <> [] ->
  dir ++ [name] ∈ iterdir d dir /\ is_dir d (dir ++ [name]) = true.
Proof.
  intros Hf Hbelow. split.
  - apply iterdir_elem. by exists name, below.
  - apply is_dir_true. exists (dir ++ name :: below). split; [done|].
    split.
    + exists below. by rewrite <- app_assoc.
    + rewrite !length_app. cbn [length]. destruct below; [done|]. cbn. lia.
Qed.

Lemma info_of_elem (d : disk) (name : text) (dir : path) (i : package_info) :
  i ∈ info_of project_path _get_directory_size d name dir
  -> e_name i = name /\ dir_exists d (dir ++ [pointer_name]) = true.
Proof.
  unfold info_of, Path.child. destruct (dir_exists d _); [|by intros ?%elem_of_nil].
  by intros ->%list_elem_of_singleton.
Qed.

Lemma info_of_name (d : disk) (name : text) (dir : path) :
  is_Some (d !! (dir ++ [pointer_name])) ->
  name ∈ map e_name (info_of project_path _get_directory_size d name dir).
Proof.
  intros Hf. unfold info_of, Path.child.
  rewrite (proj2 (dir_exists_true d _)) by by exists (dir ++ [pointer_name]).
  cbn. by left.
Qed.

Lemma discover_packages_Ok (d : disk) (f : path) :
  is_Some (d !! f) -> packages_path project_path `prefix_of` f ->
  (length (packages_path project_path) < length f)%nat ->
  discover_packages project_path _get_directory_size d
  = (Ok (flat_map
           (fun item =>
              if is_dir d item then
                info_of project_path _get_directory_size d (Path.name item) item
                ++ flat_map
                     (fun subitem =>
                        if is_dir d subitem then
                          info_of project_path _get_directory_size d
                            (Path.name item ++ txt "/" ++ Path.name subitem)
                            subitem
                        else [])
                     (iterdir d item)
              else [])
           (iterdir d (packages_path project_path))),
     []).
Proof.
  intros Hf Hpre Hlen. unfold discover_packages. cbv zeta.
  rewrite (proj2 (dir_exists_true d _)) by by exists f.
  rewrite (proj2 (is_dir_true d _)) by by exists f.
  done.
Qed.

(** X22. Export discovery next to sync discovery.  [discover_packages]
    looks one and two levels below [Assets/Packages] and nowhere else:
    a pointer file directly in a directory [dir] there is reported under
    the name [dir], one in [dir/sub] under [dir/sub], and every name it
    reports is of one of these two kinds.  The sync workflow gives the
    first the same name when the path does not hold the vendor's name;
    the second it calls [sub], not [dir/sub], unless [dir] is the
    vendor directory (and no directory of the project path is). *)
Theorem export_and_sync_names (d : disk) :
  let packages_path := packages_path project_path in
  let found := (discover_packages project_path _get_directory_size d).1 in
  (forall dir,
     let txt_file := packages_path ++ [dir; pointer_name] in
     is_Some (d !! txt_file) ->
     dir ∈ exported_names found
     /\ (Text.contains vendor (Path.str txt_file) = false ->
         package_name txt_file = Some dir))
  /\ (forall dir sub,
        let txt_file := packages_path ++ [dir; sub; pointer_name] in
        is_Some (d !! txt_file) ->
        dir ++ txt "/" ++ sub ∈ exported_names found
        /\ (Text.contains vendor (Path.str txt_file) = false ->
            package_name txt_file = Some sub)
        /\ (dir = vendor -> vendor ∉ project_path ->
            package_name txt_file = Some (dir ++ txt "/" ++ sub)))
  /\ (forall name,
        name ∈ exported_names found ->
        (exists dir,
           name = dir
           /\ dir_exists d (packages_path ++ [dir; pointer_name]) = true)
        \/ (exists dir sub,
              name = dir ++ txt "/" ++ sub
              /\ dir_exists d (packages_path ++ [dir; sub; pointer_name])
                 = true)).
Proof.
  intros pp found. subst pp found.
  pose proof packages_path_nonempty as Hpp.
  split; [|split].
  - intros dir txt_file Hf. split.
    + rewrite (discover_packages_Ok d txt_file Hf)
        by (by eexists || (subst txt_file; rewrite length_app; cbn; lia)).
      cbn [fst exported_names]. rewrite list_elem_of_fmap.
      destruct (entry_of d (packages_path project_path) dir [pointer_name])
        as [Hitem Hdir]; [done..|].
      assert (dir ∈ map e_name
                (info_of project_path _get_directory_size d dir
                   (packages_path project_path ++ [dir]))) as Hin.
      { apply info_of_name. by rewrite <- app_assoc. }
      apply list_elem_of_fmap in Hin as (i & Hi & Hin).
      exists i. split; [done|]. apply list_elem_of_In, in_flat_map.
      exists (packages_path project_path ++ [dir]).
      split; [by apply list_elem_of_In|]. rewrite Hdir.
      apply in_or_app. left. apply list_elem_of_In.
      by rewrite name_of_child.
    + intros Hvendor.
      rewrite (proj1 (package_name_rule txt_file) Hvendor). subst txt_file.
      by rewrite parent_of_file, name_of_child.
  - intros dir sub txt_file Hf. split; [|split].
    + rewrite (discover_packages_Ok d txt_file Hf)
        by (by eexists || (subst txt_file; rewrite length_app; cbn; lia)).
      cbn [fst exported_names]. rewrite list_elem_of_fmap.
      destruct (entry_of d (packages_path project_path) dir [sub; pointer_name])
        as [Hitem Hdir]; [done..|].
      destruct (entry_of d (packages_path project_path ++ [dir]) sub
                  [pointer_name]) as [Hsubitem Hsubdir];
        [by rewrite <- app_assoc | done |].
      assert (dir ++ txt "/" ++ sub
              ∈ map e_name
                  (info_of project_path _get_directory_size d
                     (dir ++ txt "/" ++ sub)
                     ((packages_path project_path ++ [dir]) ++ [sub]))) as Hin.
      { apply info_of_name. by rewrite <- !app_assoc. }
      apply list_elem_of_fmap in Hin as (i & Hi & Hin).
      exists i. split; [done|]. apply list_elem_of_In, in_flat_map.
      exists (packages_path project_path ++ [dir]).
      split; [by apply list_elem_of_In|]. rewrite Hdir.
      apply in_or_app. right. apply in_flat_map.
      exists ((packages_path project_path ++ [dir]) ++ [sub]).
      split; [by apply list_elem_of_In|]. rewrite Hsubdir.
      apply list_elem_of_In.
      rewrite !name_of_child by (done || by destruct (packages_path project_path)).
      done.
    + intros Hvendor.
      rewrite (proj1 (package_name_rule txt_file) Hvendor). subst txt_file.
      change [dir; sub; pointer_name] with ([dir] ++ [sub; pointer_name]).
      rewrite app_assoc, parent_of_file.
      by rewrite name_of_child by (by destruct (packages_path project_path)).
    + intros -> Hproject.
      apply (proj1 (proj2 (package_name_rule txt_file))
               (packages_path project_path) sub [] pointer_name); [|done].
      unfold packages_path. rewrite elem_of_app.
      intros [?|Hin]; [done|].
      apply elem_of_cons in Hin as [Hin|Hin]; [by vm_compute in Hin|].
      apply list_elem_of_singleton in Hin. by vm_compute in Hin.
  - intros name. unfold discover_packages. cbv zeta.
    destruct (dir_exists d (packages_path project_path));
      [|by intros ?%elem_of_nil].
    destruct (is_dir d (packages_path project_path));
      [|by intros ?%elem_of_nil].
    cbn [negb fst exported_names]. rewrite list_elem_of_fmap.
    intros (i & -> & Hi%list_elem_of_In%in_flat_map).
    destruct Hi as (item & Hitem%list_elem_of_In & Hi).
    apply iterdir_elem in Hitem as (dir & rest & _ & ->).
    destruct (is_dir d _); [|done].
    apply in_app_or in Hi as [Hi|Hi].
    + apply list_elem_of_In, info_of_elem in Hi as [-> Hexists].
      left. exists dir. rewrite name_of_child by done.
      split; [done|]. by rewrite <- app_assoc in Hexists.
    + apply in_flat_map in Hi as (subitem & Hsub%list_elem_of_In & Hi).
      apply iterdir_elem in Hsub as (sub & rest' & _ & ->).
      destruct (is_dir d _); [|done].
      apply list_elem_of_In, info_of_elem in Hi as [-> Hexists].
      right. exists dir, sub.
      rewrite !name_of_child by (done || by destruct (packages_path project_path)).
      split; [done|]. by rewrite <- !app_assoc in Hexists.
Qed.

End ExportFacts.

(** ** The upload *)

Lemma after_first_here (sep s rest : text) :
  Text.strip_prefix sep s = Some rest -> Text.after_first sep s = Some rest.
Proof. intros Hs. destruct s; simpl; by rewrite Hs. Qed.

Lemma strip_Id_None (x : ascii) (a : text) (c : ascii) (rest : text) :
  (":"%char ∉ x :: a) -> c <> "d"%char -> c <> ":"%char ->
  Text.strip_prefix (txt "Id:") (x :: a ++ c :: rest) = None.
Proof.
  intros Hcolon Hd Hc.
  change (txt "Id:") with ["I"%char; "d"%char; ":"%char].
  cbn [Text.strip_prefix].
  destruct (Ascii.eqb_spec "I" x) as [<-|]; [|done].
  destruct a as [|y a]; cbn [app Text.strip_prefix].
  { destruct (Ascii.eqb_spec "d" c) as [<-|]; done. }
  destruct (Ascii.eqb_spec "d" y) as [<-|]; [|done].
  destruct a as [|z a]; cbn [app Text.strip_prefix].
  { destruct (Ascii.eqb_spec ":" c) as [<-|]; done. }
  destruct (Ascii.eqb_spec ":" z) as [<-|]; [|done].
  destruct Hcolon. right. right. by left.
Qed.

Lemma before_first_run (a : text) (c : ascii) (rest : text) :
  (":"%char ∉ a) -> c <> "d"%char -> c <> ":"%char ->
  before_first (txt "Id:") (a ++ c :: rest)
  = a ++ before_first (txt "Id:") (c :: rest).
Proof.
  intros Hcolon Hd Hc. induction a as [|x a IH]; [done|].
  cbn [app before_first]. rewrite strip_Id_None by done.
  rewrite IH; [done|]. intros ?. apply Hcolon. by right.
Qed.

Lemma idchar_not_colon (file_id : text) :
  Forall (fun c => Re.idchar c = true) file_id -> ":"%char ∉ file_id.
Proof.
  intros Hid Hin. rewrite Forall_forall in Hid. by apply Hid in Hin.
Qed.

(** The identifier [upload_to_gdrive] reads off the output of gdrive. *)
Lemma printed_file_id_line (file_id rest : text) :
  file_id <> [] -> Forall (fun c => Re.idchar c = true) file_id ->
  printed_file_id (txt "Id: " ++ file_id ++ "010"%char :: rest) = Some file_id.
Proof.
  intros Hne Hid. unfold printed_file_id.
  rewrite (after_first_here _ _ (" "%char :: file_id ++ "010"%char :: rest))
    by done.
  change (before_first (txt "Id:") (" "%char :: file_id ++ "010"%char :: rest))
    with (" "%char
          :: before_first (txt "Id:") (file_id ++ "010"%char :: rest)).
  rewrite before_first_run by (done || by apply idchar_not_colon).
  pose proof (idchar_nonspace file_id Hid) as Hnonspace.
  destruct file_id as [|x file_id]; [done|].
  apply Forall_cons_1 in Hnonspace as [Hx Hrest].
  cbn [lstrip app]. change (Re.space " ") with true. cbv iota.
  unfold Re.nonspace in Hx. apply negb_true_iff in Hx. rewrite Hx.
  change (x :: file_id ++ before_first (txt "Id:") ("010"%char :: rest))
    with ((x :: file_id) ++ "010"%char :: before_first (txt "Id:") rest).
  rewrite take_while_app.
  - done.
  - constructor; [|done]. unfold Re.nonspace. by rewrite Hx.
  - by intros c r [= <- _].
Qed.

Lemma printed_file_id_Some (output file_id : text) :
  printed_file_id output = Some file_id ->
  file_id <> [] /\ Forall (fun c => Re.nonspace c = true) file_id.
Proof.
  unfold printed_file_id.
  destruct (Text.after_first _ _) as [after|]; [|done].
  destruct (take_while_split Re.nonspace
              (lstrip (before_first (txt "Id:") after)))
    as (rest & _ & Hall & _).
  destruct (Text.take_while _ _) as [|c g]; [done|].
  intros [= <-]. by split.
Qed.

Lemma link_file_id_of_share_link (file_id : text) :
  is_Some (link_file_id (share_link file_id)).
Proof. unfold link_file_id, share_link, txt. simpl. by eexists. Qed.

Section UploadFacts.

Variable project_path : path.
Variable run : sync_world -> list text -> run_outcome.
Variable now_iso : text.
Variable now_stamp : text.
Variable tar_gz : text -> text.

(** What a link that [upload_to_gdrive] returns tells. *)
Lemma upload_to_gdrive_Some (w : sync_world) (file_path : path)
    (package_name link : text) :
  (upload_to_gdrive run w file_path package_name).1 = Some link ->
  exists file_id cmd output stderr,
    link = share_link file_id
    /\ file_id <> [] /\ Forall (fun c => Re.nonspace c = true) file_id
    /\ (exists out err,
          run w [txt "which"; txt "gdrive"] = Completed 0 out err)
    /\ upload_cmd (s_config w) file_path = Some cmd
    /\ run w cmd = Completed 0 output stderr
    /\ printed_file_id output = Some file_id.
Proof.
  unfold upload_to_gdrive.
  destruct (run w [txt "which"; txt "gdrive"]) as [rc out err|] eqn:Hwhich;
    [|done].
  destruct (Z.eqb_spec rc 0) as [->|]; [|done]. cbn [negb].
  destruct (upload_cmd (s_config w) file_path) as [cmd|] eqn:Hcmd; [|done].
  destruct (run w cmd) as [rc output stderr|] eqn:Hrun; [|done].
  destruct (Z.eqb_spec rc 0) as [->|]; [|done].
  destruct (Text.contains (txt "Id:") output); [|done].
  destruct (printed_file_id output) as [file_id|] eqn:Hid; [|done].
  cbn [fst]. intros [= <-].
  destruct (printed_file_id_Some _ _ Hid) as [Hne Hall].
  exists file_id, cmd, output, stderr. split; [done|]. split; [done|].
  split; [done|]. split; [by eauto|]. done.
Qed.

(** X23. The links of [upload_to_gdrive].  A link it returns is always
    the share link
    [https://drive.google.com/file/d/<id>/view?usp=sharing] of a
    non-empty identifier without white space, read off an upload that
    exited with status 0 after [which gdrive] had exited with status 0;
    so [sync_package], run with this upload, never fails on a link from
    which no identifier can be cut ([IndexError]). *)
Theorem upload_to_gdrive_links (w : sync_world) (p : package)
    (use_placeholder : bool) :
  let upload := fun w f n => (upload_to_gdrive run w f n).1 in
  (forall file_path package_name link,
     upload w file_path package_name = Some link ->
     exists file_id,
       link = share_link file_id
       /\ file_id <> [] /\ Forall (fun c => Re.nonspace c = true) file_id
       /\ is_Some (link_file_id link)
       /\ exists out err,
            run w [txt "which"; txt "gdrive"] = Completed 0 out err)
  /\ (sync_package project_path upload now_iso now_stamp tar_gz w p
        use_placeholder).1 <> Raise IndexError.
Proof.
  intros upload. split.
  - intros file_path package_name link Hlink. subst upload.
    apply upload_to_gdrive_Some
      in Hlink as (file_id & cmd & output & stderr & -> & Hne & Hall & Hwhich & _).
    exists file_id. split; [done|]. split; [done|]. split; [done|].
    split; [apply link_file_id_of_share_link | done].
  - destruct (p_has_link p) eqn:Hlink.
    { unfold sync_package. by rewrite Hlink. }
    destruct (decide (is_Some (s_disk w !! export_file project_path (p_name p))
                      \/ use_placeholder = true)) as [Hprep|Hnone].
    + destruct (sync_package_prepared project_path upload now_iso now_stamp
                  tar_gz w p use_placeholder Hlink Hprep) as (w1 & -> & _).
      cbv zeta.
      destruct (upload w1 _ _) as [[|c l]|] eqn:Hup; [done| |done].
      subst upload.
      apply upload_to_gdrive_Some in Hup as (file_id & _ & _ & _ & Hshare & _).
      rewrite Hshare.
      destruct (link_file_id_of_share_link file_id) as [cut ->].
      set (w2 := update_download_instructions _ _ _ _ _ _). clearbody w2.
      by destruct (Dict.get _ _) as [[]|].
    + unfold sync_package. rewrite Hlink. cbv zeta.
      change (s_disk (s_logged INFO (Syncing (p_name p)) w)) with (s_disk w).
      fold (export_file project_path (p_name p)).
      rewrite bool_decide_eq_false_2 by (intros ?; apply Hnone; by left).
      destruct use_placeholder; [destruct Hnone; by right|]. done.
Qed.

(** X24. From the output of gdrive to the downloader.  When
    [which gdrive] and the upload exit with status 0, gdrive prints
    [Id: <id>] at the head of its output, the identifier being non-empty
    and of letters, digits, [_] and [-], and no folder is configured
    that is not a string, then after [sync_package] on a package
    without link the pointer file holds a link for [_has_drive_link],
    download discovery returns the entry of the package with the share
    link of the identifier as url, and [extract_file_id] finds in that
    url the identifier gdrive printed. *)
Theorem gdrive_upload_round_trip (w : sync_world) (p : package)
    (use_placeholder : bool) (file_id rest stderr : text) :
  let upload := fun w f n => (upload_to_gdrive run w f n).1 in
  let r := sync_package project_path upload now_iso now_stamp tar_gz w p
             use_placeholder in
  let txt_file := p_instructions_file p in
  p_has_link p = false ->
  is_Some (s_disk w !! export_file project_path (p_name p))
  \/ use_placeholder = true ->
  (forall w', exists out err,
     run w' [txt "which"; txt "gdrive"] = Completed 0 out err) ->
  (forall w' cmd,
     cmd <> [txt "which"; txt "gdrive"] ->
     run w' cmd
     = Completed 0 (txt "Id: " ++ file_id ++ "010"%char :: rest) stderr) ->
  (forall v, Dict.get (KStr (txt "google_drive_folder_id")) (s_config w) = Some v ->
             exists folder_id, v = JStr folder_id) ->
  file_id <> [] -> Forall (fun c => Re.idchar c = true) file_id ->
  _has_drive_link (s_disk r.2) txt_file = true
  /\ (forall name,
        package_name txt_file = Some name ->
        instruction_of project_path (s_disk r.2) txt_file
        = ([Instruction name (Path.str txt_file) (share_link file_id)
              (Path.str (relative_to_project project_path txt_file))], []))
  /\ extract_file_id (share_link file_id) = Some file_id.
Proof.
  intros upload r txt_file Hlink Hprep Hwhich Hrun Hfolder Hne Hid.
  destruct (synced_with_share_link project_path upload now_iso now_stamp tar_gz
              w p use_placeholder file_id Hlink Hprep) as (H1 & H2 & _ & H4);
    [|done|done|by split; [|split]].
  intros w' f Hconfig. subst upload. cbv beta. unfold upload_to_gdrive.
  destruct (Hwhich w') as (out & err & ->). cbn [Z.eqb negb].
  unfold upload_cmd. rewrite Hconfig.
  destruct (Dict.get _ (s_config w)) as [v|] eqn:Hv.
  - destruct (Hfolder v eq_refl) as [folder_id ->]. cbn [fmap option_fmap option_map].
    rewrite Hrun by done. cbn [Z.eqb].
    rewrite (proj2 (contains_spec _ _))
      by (exists [], (" "%char :: file_id ++ "010"%char :: rest); done).
    by rewrite printed_file_id_line.
  - cbn [fmap option_fmap option_map].
    rewrite Hrun by done. cbn [Z.eqb].
    rewrite (proj2 (contains_spec _ _))
      by (exists [], (" "%char :: file_id ++ "010"%char :: rest); done).
    by rewrite printed_file_id_line.
Qed.

End UploadFacts.

(** * Concrete runs *)

(** C1, counterexample. With [a.unitypackage] in the cache and a link
    that holds no identifier, both fetchers return [None] instead of the
    existing file; and two calls of [download_file] against a host that
    answers [404] send two requests. *)
Lemma fetch_without_identifier_misses_cache :
  file_exists cached_world
    (Path.child (download_path cached_world) (txt "a.unitypackage")) = true
  /\ (download_file host_404 cached_world other_url (txt "a.unitypackage") 5).1
     = None
  /\ (download_with_curl host_404 no_curl (txt "Linux") cached_world other_url
        (txt "a.unitypackage")).1 = None
  /\ (let r1 := download_file host_404 empty_world drive_url
                  (txt "a.unitypackage") 5 in
      let r2 := download_file host_404 r1.2 drive_url (txt "a.unitypackage") 5 in
      r1.1 = None /\ r2.1 = None /\ length (requests r2.2) = 2%nat).
Proof. by vm_compute. Qed.

(** C1, witness: a link with an identifier and the cached file. *)
Lemma fetch_idempotent_witness :
  download_file host_404 cached_world drive_url (txt "a.unitypackage") 5
  = (Some (Path.child cache (txt "a.unitypackage")),
     logged INFO (FileAlreadyExists (Path.child cache (txt "a.unitypackage")))
       cached_world).
Proof.
  apply (proj1 (fetch_idempotent host_404 no_curl (txt "Linux") cached_world
                  drive_url (txt "a.unitypackage") 5)).
  - by eexists.
  - by vm_compute.
Defined.

(** C2, witness: twelve bytes against a cap of zero bytes are refused,
    against a cap of one gigabyte they are written. *)
Lemma download_file_size_cap_witness :
  let output_file := Path.child cache (txt "test.unitypackage") in
  let r0 := download_file (host_of (txt "test content")) empty_world drive_url
              (txt "test.unitypackage") 0 in
  let r1 := download_file (host_of (txt "test content")) empty_world drive_url
              (txt "test.unitypackage") 1 in
  (r0.1 = None /\ files r0.2 = ∅)
  /\ (r1.1 = Some output_file
      /\ files r1.2 = <[output_file := txt "test content"]> ∅).
Proof.
  intros output_file r0 r1. split.
  - destruct (proj2 (download_file_size_cap (host_of (txt "test content"))
                       empty_world drive_url (txt "test.unitypackage") 0)
                (txt "test123") (txt "test content") _
                eq_refl eq_refl eq_refl) as [Hover _].
    destruct Hover as (? & ? & _); [by vm_compute | done].
  - destruct (proj2 (download_file_size_cap (host_of (txt "test content"))
                       empty_world drive_url (txt "test.unitypackage") 1)
                (txt "test123") (txt "test content") _
                eq_refl eq_refl eq_refl) as [_ Hfits].
    apply Hfits. by vm_compute.
Defined.

(** C5, counterexample: a package directory [Background] under both
    roots gives two records called [Background] in either discovery. *)
Lemma discovery_repeats_a_name :
  map i_name (find_download_instructions proj twice_named_disk).1
  = [txt "Background"; txt "Background"]
  /\ map p_name <$> find_packages_to_sync proj twice_named_disk
     = Some [txt "Background"; txt "Background"].
Proof. by vm_compute. Qed.

(** C6, witness: the three shapes and an unrelated URL. *)
Lemma extract_file_id_shapes_witness :
  extract_file_id
    (txt "https://drive.google.com/file/d/1kEu526WZH449qsZyLNYIadSMYfTf9x_m/view?usp=drive_link")
  = Some (txt "1kEu526WZH449qsZyLNYIadSMYfTf9x_m")
  /\ extract_file_id (txt "https://drive.google.com/uc?export=download&id=test123")
     = Some (txt "test123")
  /\ extract_file_id
       (txt "https://drive.google.com/open?id=1kEu526WZH449qsZyLNYIadSMYfTf9x_m")
     = Some (txt "1kEu526WZH449qsZyLNYIadSMYfTf9x_m")
  /\ extract_file_id other_url = None.
Proof.
  destruct extract_file_id_shapes
    as (Hpath & Hquery & Hopen & Hnone & _ & _ & _).
  split; [|split; [|split]].
  - apply Hpath. by apply search_Some.
  - apply Hquery; [by apply search_None | by apply search_Some].
  - apply (Hopen _ (txt "https://drive.google.com") _ []);
      [done | done | by repeat constructor | done | by apply search_None |].
    by apply unmatched_before.
  - apply Hnone. repeat split; by apply search_None.
Defined.

(** C7 (defect). On a first response in which the interstitial page is
    detected by its virus scan warning and which holds no
    [confirm=<token>], [download_file] sends one request only, writes
    the interstitial page itself to the destination and returns the
    path as a successful download. *)
Lemma interstitial_without_token_is_stored :
  let output_file := Path.child cache (txt "big.unitypackage") in
  let r := download_file (host_of warning_page) empty_world drive_url
             (txt "big.unitypackage") 5 in
  Text.contains (txt "confirm=") warning_page
  || Text.contains (txt "virus scan warning") (Text.lower warning_page) = true
  /\ r.1 = Some output_file
  /\ files r.2 !! output_file = Some warning_page
  /\ length (requests r.2) = 1%nat.
Proof. by vm_compute. Qed.

(** The confirmation step on a page with a token: the second response
    is stored. *)
Lemma confirmation_handshake_witness :
  let output_file := Path.child cache (txt "big.unitypackage") in
  let direct_url := txt "https://drive.google.com/uc?export=download&id=test123" in
  let r := download_file (host_confirming token_page (txt "the package"))
             empty_world drive_url (txt "big.unitypackage") 5 in
  requests r.2
  = [ Request direct_url user_agent_full;
      Request (direct_url ++ txt "&confirm=t0K_n-9") user_agent_short ]
  /\ r.1 = Some output_file
  /\ files r.2 = <[output_file := txt "the package"]> ∅.
Proof.
  intros output_file direct_url r.
  destruct (confirmation_handshake
              (host_confirming token_page (txt "the package")) empty_world
              drive_url (txt "big.unitypackage") 5 (txt "test123") token_page
              eq_refl eq_refl eq_refl) as [Htoken _].
  destruct (Htoken (txt "t0K_n-9")) as [Hrequests Hstored].
  { by apply search_Some. }
  split; [exact Hrequests | exact Hstored].
Defined.

(** C8, counterexample: on the project with one linked and one link-less
    package the download discovery returns one record, none for the
    link-less pointer file, which the roots do contain. *)
Lemma download_discovery_drops_linkless :
  pointer_files proj two_package_disk
  = [ pointer_in ["Assets"; "Packages"; "TestPkg"]%string;
      pointer_in ["Assets"; "Audio"; "Background"]%string ]
  /\ length (find_download_instructions proj two_package_disk).1 = 1%nat
  /\ instruction_of proj two_package_disk
       (pointer_in ["Assets"; "Audio"; "Background"]%string) = ([], []).
Proof. by vm_compute. Qed.

(** C8, witness: the two discoveries on that project, whose second
    pointer file does not mention the host. *)
Lemma discovery_records_witness :
  exists ps,
    find_packages_to_sync proj two_package_disk = Some ps
    /\ length ps = 2%nat
    /\ length (filter (fun p => p_has_link p = true) ps) = 1%nat
    /\ length (find_download_instructions proj two_package_disk).1 = 1%nat.
Proof.
  pose (fl := pointer_in ["Assets"; "Packages"; "TestPkg"]%string).
  pose (fn := pointer_in ["Assets"; "Audio"; "Background"]%string).
  assert (pointer_files proj two_package_disk = [fl; fn]) as Hfiles
    by by vm_compute.
  assert (package_name fl = Some (txt "TestPkg")) as Hnamel by by vm_compute.
  assert (package_name fn = Some (txt "Background")) as Hnamen by by vm_compute.
  assert (two_package_disk !! fl
          = Some (Some (txt "Download from:" ++ ["010"%char]
                        ++ txt "https://drive.google.com/file/d/test123/view?usp=sharing"
                        ++ ["010"%char]))) as Hfl by by vm_compute.
  assert (two_package_disk !! fn = Some (Some (txt "No link here"))) as Hfn
    by by vm_compute.
  destruct (proj1 (proj2 (proj2 (discovery_records proj))) two_package_disk
              fl fn _
              (txt "https://drive.google.com/file/d/test123/view?usp=sharing")
              (or_introl Hfiles) (ex_intro _ _ Hnamel) (ex_intro _ _ Hnamen)
              Hfl) as (ps & Hps & Hlen & Hbare & _); [by vm_compute|].
  destruct Hbare as [Hcount Hdown].
  { intros other Hother. rewrite Hfn in Hother. injection Hother as <-.
    by vm_compute. }
  exists ps. split; [exact Hps|]. split; [exact Hlen|].
  split; [exact Hcount | exact Hdown].
Defined.

(** C9, witness: sync skips the package, download has no record of it. *)
Lemma link_detection_differs_witness :
  let f := pointer_in ["Assets"; "Packages"; "Synty"]%string in
  let w := SyncWorld bare_disk Sync.default_config [] [] in
  _has_drive_link bare_disk f = true
  /\ instruction_of proj bare_disk f = ([], [])
  /\ (sync_package proj no_upload [] [] id w
        (Package (txt "Synty") (Path.parent f) f (_has_drive_link bare_disk f))
        true).1 = Ok true.
Proof.
  intros f w.
  destruct (link_detection_differs proj no_upload [] [] id bare_disk f)
    as (Hhas & _ & Hbare).
  destruct (Hbare bare_mention (txt "Ask on ") (txt " (link to follow)"))
    as [Hnone Hsync]; [by vm_compute | done | by apply search_None |].
  split; [|split; [exact Hnone|]].
  - apply Hhas. by exists bare_mention, (txt "Ask on "), (txt " (link to follow)").
  - apply (Hsync w (txt "Synty") (Path.parent f) true).
Defined.

(** C10, witness: curl exits with status 22 and leaves a partial file. *)
Lemma curl_failure_cleans_up_witness :
  let output_file := Path.child cache (txt "a.unitypackage") in
  let r := download_with_curl host_404 failing_curl (txt "Linux") empty_world
             drive_url (txt "a.unitypackage") in
  r.1 = None /\ files r.2 !! output_file = None /\ files r.2 = ∅.
Proof.
  intros output_file r.
  destruct (curl_failure_cleans_up host_404 failing_curl (txt "Linux")
              empty_world drive_url (txt "a.unitypackage") (txt "test123")
              22 (txt "curl: (22) 404") (Some (txt "<html>"))
              eq_refl eq_refl eq_refl) as (H1 & H2 & H3 & _); [by left|].
  done.
Defined.

Lemma download_package_session_files_witness :
  let r := download_package host_404 no_curl (txt "Linux") empty_world test_pkg in
  (forall p, p ∈ session_files empty_world -> is_Some (files empty_world !! p))
  /\ session_files r.2 = [].
Proof.
  intros r.
  assert (forall p, p ∈ session_files empty_world
                    -> is_Some (files empty_world !! p)) as Hlisted.
  { intros p Hp. by apply not_elem_of_nil in Hp. }
  split; [exact Hlisted|].
  destruct (download_package_session_files host_404 no_curl (txt "Linux")
              empty_world test_pkg Hlisted) as (_ & _ & Hsame & _).
  apply Hsame. right. by vm_compute.
Defined.

Lemma download_file_request_fails_witness :
  let r := download_file host_404 empty_world drive_url (txt "a.unitypackage") 5 in
  r.1 = None
  /\ requests r.2
     = [Request (txt "https://drive.google.com/uc?export=download&id=test123")
          user_agent_full].
Proof.
  intros r.
  destruct (download_file_request_fails host_404 empty_world drive_url
              (txt "a.unitypackage") 5 (txt "test123") eq_refl eq_refl)
    as (Hnone & _ & Hrequests & _); [done|].
  split; [exact Hnone | exact Hrequests].
Defined.

Lemma download_package_keeps_what_curl_wrote_witness :
  let r := download_package host_404 working_curl (txt "Linux") empty_world
             test_pkg in
  r.1 = Some (Path.child cache (txt "TestPkg.unitypackage"))
  /\ requests r.2 = [].
Proof.
  intros r.
  destruct (download_package_keeps_what_curl_wrote host_404 working_curl
              (txt "Linux") empty_world test_pkg (txt "test123") []
              (txt "the package") eq_refl eq_refl eq_refl)
    as (Hfile & _ & Hrequests).
  split; [exact Hfile | exact Hrequests].
Defined.

Lemma download_package_retries_without_curl_witness :
  let r := download_package host_404 no_curl (txt "Linux") empty_world test_pkg in
  let request1 :=
    Request (txt "https://drive.google.com/uc?export=download&id=test123")
      user_agent_full in
  r.1 = None /\ requests r.2 = [request1; request1].
Proof.
  intros r request1.
  destruct (download_package_retries_without_curl host_404 no_curl
              (txt "Linux") empty_world test_pkg (txt "test123")
              eq_refl eq_refl (fun _ _ => eq_refl))
    as (Hnone & _ & Hrequests & _); [done|].
  split; [exact Hnone | exact Hrequests].
Defined.

Lemma verify_downloads_valid_witness :
  download_path cached_world <> []
  /\ NoDup (verify_downloads cached_world).1.
Proof.
  assert (download_path cached_world <> []) as Hdir by done.
  split; [exact Hdir|].
  exact (proj2 (verify_downloads_valid cached_world [] Hdir)).
Defined.

Lemma downloaded_package_is_verified_witness :
  let r := download_package host_404 working_curl (txt "Linux") empty_world
             test_pkg in
  r.1 = Some (cache ++ [txt "TestPkg.unitypackage"])
  /\ ("/"%char ∉ output_name_of test_pkg).
Proof.
  intros r.
  assert (r.1 = Some (cache ++ [txt "TestPkg.unitypackage"])) as Hr
    by by vm_compute.
  split; [exact Hr|].
  assert (download_path empty_world <> []) as Hdir by done.
  destruct (downloaded_package_is_verified host_404 working_curl (txt "Linux")
              empty_world test_pkg _ Hdir Hr) as (_ & Hslash & _).
  exact Hslash.
Defined.

Lemma save_load_fixed_point_witness :
  exists config warnings saved,
    Sync._load_config Undecodable = (Ok config, warnings)
    /\ _save_config config = Some saved
    /\ Sync._load_config saved = (Ok config, []).
Proof.
  apply (save_load_fixed_point Sync.default_config Undecodable).
  - compute_done.
  - repeat constructor; by eexists.
  - right. by left.
Defined.

Lemma sync_package_records_link_witness :
  (sync_package proj (upload_as (share_link (txt "abc123"))) (txt "now") [] id
     fresh_syncer synty true).1 = Ok true.
Proof.
  destruct (sync_package_records_link proj (upload_as (share_link (txt "abc123")))
              (txt "now") [] id fresh_syncer synty true
              (share_link (txt "abc123")) (txt "abc123") []
              eq_refl (or_intror eq_refl) (fun _ _ => eq_refl))
    as (Hr & _); [done | done | done | constructor | exact Hr].
Defined.

Lemma sync_package_not_synced_witness :
  let r := sync_package proj no_upload (txt "now") [] id fresh_syncer synty
             false in
  r.1 = Ok false /\ s_config r.2 = Sync.default_config.
Proof.
  intros r. assert (r.1 = Ok false) as Hr by by vm_compute.
  split; [exact Hr|].
  destruct (sync_package_not_synced proj no_upload (txt "now") [] id
              fresh_syncer synty false Hr) as (_ & Hconfig & _).
  exact Hconfig.
Defined.

Lemma synced_package_is_downloadable_witness :
  let r := sync_package proj (upload_as (share_link (txt "abc123"))) (txt "now")
             [] id fresh_syncer synty true in
  _has_drive_link (s_disk r.2) (p_instructions_file synty) = true.
Proof.
  intros r.
  destruct (synced_package_is_downloadable proj
              (upload_as (share_link (txt "abc123"))) (txt "now") [] id
              fresh_syncer synty true (txt "abc123")
              eq_refl (or_intror eq_refl) (fun _ _ => eq_refl))
    as (Hlink & _); [done | by apply Forall_forallb | exact Hlink].
Defined.

Lemma sync_package_finds_mappings_witness :
  (sync_package proj no_upload (txt "now") [] id fresh_syncer synty true).1
  <> Raise KeyError.
Proof.
  destruct (sync_package_finds_mappings proj no_upload (txt "now") [] id
              Absent Sync.default_config [] fresh_syncer synty true
              eq_refl eq_refl) as [Hr _].
  exact Hr.
Defined.

Lemma sync_all_all_linked_witness :
  let r := sync_all proj no_upload (txt "now") [] id empty_dump fresh_syncer
             None true in
  outcome r.1 = Ok (1, 1)
  /\ s_disk r.2 !! config_file proj = Some (Some []).
Proof.
  assert (find_packages_to_sync proj (s_disk fresh_syncer)
          = Some [Package (txt "Synty")
                    (proj ++ [txt "Assets"; txt "Packages"; txt "Synty"])
                    (pointer_in ["Assets"; "Packages"; "Synty"]%string) true])
    as Hfound by by vm_compute.
  destruct (sync_all_all_linked proj no_upload (txt "now") [] id empty_dump
              fresh_syncer None true _ Hfound)
    as (Hr & _ & _ & _ & Hfile & _); [by repeat constructor|].
  intros r. split; [exact Hr | exact Hfile].
Defined.

Lemma sync_all_saves_what_loads_witness :
  exists document,
    _save_config
      (Dict.set (KStr (txt "last_sync")) (JStr (txt "now")) Sync.default_config)
    = Some document
    /\ Sync._load_config document
       = (Ok (Dict.set (KStr (txt "last_sync")) (JStr (txt "now"))
                Sync.default_config), [])
    /\ Dict.get (KStr (txt "last_sync"))
         (Dict.set (KStr (txt "last_sync")) (JStr (txt "now"))
            Sync.default_config)
       = Some (JStr (txt "now")).
Proof.
  assert (saved (sync_all proj no_upload (txt "now") [] id empty_dump
                   fresh_syncer None true).1
          = Some (Dict.set (KStr (txt "last_sync")) (JStr (txt "now"))
                    Sync.default_config)) as Hsaved by by vm_compute.
  refine (sync_all_saves_what_loads proj no_upload (txt "now") [] id
            empty_dump Absent Sync.default_config [] fresh_syncer None true _
            (or_introl eq_refl) eq_refl eq_refl Hsaved).
Defined.

Lemma generate_package_list_sections_witness :
  exists sections,
    generate_package_list proj (txt "now") bare_disk
    = Some (Path.child proj (txt "PACKAGE_DOWNLOADS.md"),
            [(INFO, GeneratedPackageList (txt "PACKAGE_DOWNLOADS.md"))],
            <[Path.child proj (txt "PACKAGE_DOWNLOADS.md")
              := Some (package_list (txt "now") sections)]> bare_disk)
    /\ NoDup sections.*1.
Proof.
  assert (find_packages_to_sync proj bare_disk
          = Some [Package (txt "Synty")
                    (proj ++ [txt "Assets"; txt "Packages"; txt "Synty"])
                    (pointer_in ["Assets"; "Packages"; "Synty"]%string) true])
    as Hfound by by vm_compute.
  destruct (generate_package_list_sections proj (txt "now") bare_disk _ Hfound)
    as (sections & Hgen & Hnd & _).
  exists sections. split; [exact Hgen | exact Hnd].
Defined.

Lemma placeholder_link_round_trip_witness :
  extract_file_id
    (Uploader.upload_file (export_path proj ++ [exported_name (txt "Synty")]))
  = Some (txt "PLACEHOLDER_Synty").
Proof.
  destruct (placeholder_link_round_trip proj (txt "now") bare_disk
              (proj ++ [txt "Assets"; txt "Packages"; txt "Synty"])
              (txt "Synty")) as (_ & _ & Hid & _); [done|].
  exact Hid.
Defined.

Lemma gdrive_upload_round_trip_witness :
  let upload :=
    fun w f n =>
      (upload_to_gdrive (prints (txt "Id: abc123" ++ ["010"%char])) w f n).1 in
  let r := sync_package proj upload (txt "now") [] id fresh_syncer synty true in
  _has_drive_link (s_disk r.2) (p_instructions_file synty) = true.
Proof.
  intros upload r.
  destruct (gdrive_upload_round_trip proj
              (prints (txt "Id: abc123" ++ ["010"%char])) (txt "now") [] id
              fresh_syncer synty true (txt "abc123") [] [])
    as (Hlink & _).
  - done.
  - by right.
  - intros w'. by exists (txt "Id: abc123" ++ ["010"%char]), [].
  - done.
  - intros v Hv. by vm_compute in Hv.
  - done.
  - by apply Forall_forallb.
  - exact Hlink.
Defined.
